(** * Onyx write pipeline: a shallow embedding of [lib/Onyx.ts]

    The store operations of [lib/Onyx.ts] ([set], [multiSet], [merge],
    [mergeCollection], [setCollection], [clear], [update]) are embedded as
    functions over an explicit store state.  Promise-returning functions are
    split at their suspension points: the synchronous prefix is one function,
    the body of each [.then] callback another.  Calls into the storage driver,
    the subscriber registry and the logger are recorded, in order, in a
    trace. *)

From Stdlib Require Import ZArith Bool.
From stdpp Require Import gmap strings list fin_maps.

Set Warnings "-register-all".
Local Open Scope string_scope.
Local Open Scope list_scope.

(** ** Values *)

(** JSON-shaped values.  JavaScript objects keep the insertion order of their
    keys (keys are taken not to be array indices, which come first), so an
    object is an association list.  Numbers are integers.  [undefined] is
    not a value: an input that may be [undefined] has type [option value]. *)
Inductive value : Type :=
  | VNull
  | VBool (b : bool)
  | VNum (n : Z)
  | VStr (s : string)
  | VArr (xs : list value)
  | VObj (fields : list (string * value)).

Abbreviation object := (list (string * value)).

Definition isNull (v : value) : bool :=
  match v with VNull => true | _ => false end.

Definition isArray (v : value) : bool :=
  match v with VArr _ => true | _ => false end.

Definition isPlainObject (v : value) : bool :=
  match v with VObj _ => true | _ => false end.

(** JavaScript truthiness: [undefined], [null], [false], [0] and the empty
    string are falsy; arrays and objects are always truthy. *)
Definition truthy (v : option value) : bool :=
  match v with
  | None | Some VNull | Some (VBool false) | Some (VNum 0) | Some (VStr "") => false
  | Some _ => true
  end.

(** [v === undefined || v === null] *)
Definition isAbsent (v : option value) : bool :=
  match v with None | Some VNull => true | Some _ => false end.

(** *** Objects as insertion-ordered records *)

Section records.
Context {A : Type}.

Fixpoint objGet (k : string) (o : list (string * A)) : option A :=
  match o with
  | [] => None
  | (k', v) :: o' => if String.eqb k k' then Some v else objGet k o'
  end.

(** [o[k] = v]: an existing key keeps its position, a new key goes last. *)
Fixpoint objSet (k : string) (v : A) (o : list (string * A)) : list (string * A) :=
  match o with
  | [] => [(k, v)]
  | (k', v') :: o' =>
      if String.eqb k k' then (k', v) :: o' else (k', v') :: objSet k v o'
  end.

(** [delete o[k]] *)
Fixpoint objDelete (k : string) (o : list (string * A)) : list (string * A) :=
  match o with
  | [] => []
  | (k', v') :: o' =>
      if String.eqb k k' then objDelete k o' else (k', v') :: objDelete k o'
  end.

(** [Object.keys(o)] *)
Definition objKeys (o : list (string * A)) : list string := map fst o.
End records.

(** *** Comparisons *)

(** [a === b].  JavaScript compares arrays and objects by reference; the
    embedding has no object identities and takes two of them to be
    distinct. *)
Definition strictEqual (a b : option value) : bool :=
  match a, b with
  | None, None => true
  | Some VNull, Some VNull => true
  | Some (VBool x), Some (VBool y) => Bool.eqb x y
  | Some (VNum x), Some (VNum y) => Z.eqb x y
  | Some (VStr x), Some (VStr y) => String.eqb x y
  | _, _ => false
  end.

(** Modelled from the spec: [deepEqual], used by [cache.hasValueChanged]
    ("differs structurally"); objects are compared key by key, whatever the
    order of their keys. *)
Fixpoint deepEqual (a b : value) {struct a} : bool :=
  match a, b with
  | VNull, VNull => true
  | VBool x, VBool y => Bool.eqb x y
  | VNum x, VNum y => Z.eqb x y
  | VStr x, VStr y => String.eqb x y
  | VArr xs, VArr ys =>
      (fix all2 (xs ys : list value) {struct xs} : bool :=
         match xs, ys with
         | [], [] => true
         | x :: xs', y :: ys' => deepEqual x y && all2 xs' ys'
         | _, _ => false
         end) xs ys
  | VObj fs, VObj gs =>
      Nat.eqb (length fs) (length gs) &&
      (fix fields (fs : object) {struct fs} : bool :=
         match fs with
         | [] => true
         | (k, v) :: fs' =>
             match objGet k gs with
             | Some w => deepEqual v w
             | None => false
             end && fields fs'
         end) fs
  | _, _ => false
  end.

(** ** The merge primitive *)

(** Modelled from the spec: [utils.fastMerge], the deep merge behind
    [applyMerge] (section 4.2): keys of the delta overwrite or recurse; a
    nested [null] deletes the field when [stripNulls] is set and is kept as
    an explicit marker otherwise; arrays and scalars replace. *)
Fixpoint fastMerge (stripNulls : bool) (target : value) (source : value)
  {struct source} : value :=
  match source with
  | VObj fs =>
      VObj
        ((fix mergeFields (fs : object) (acc : object) {struct fs} : object :=
            match fs with
            | [] => acc
            | (k, v) :: fs' =>
                mergeFields fs'
                  match v with
                  | VNull => if stripNulls then objDelete k acc else objSet k VNull acc
                  | _ =>
                      objSet k
                        (fastMerge stripNulls
                           (match objGet k acc with Some t => t | None => VNull end) v)
                        acc
                  end
            end) fs (match target with VObj t => t | _ => [] end))
  | _ => source
  end.

(** Modelled from the spec: [OnyxUtils.applyMerge(base, deltas, stripNulls)]
    (section 4.2): the deltas are folded left to right over the base; a
    [null] delta makes the accumulator [null]; an object delta merges into an
    object accumulator and replaces anything else wholesale; arrays and
    scalars replace. *)
Definition applyMergeStep (stripNulls : bool) (acc : option value) (delta : value)
  : option value :=
  match delta with
  | VObj _ =>
      Some (fastMerge stripNulls (match acc with Some a => a | None => VNull end) delta)
  | _ => Some delta
  end.

Definition applyMerge (existingValue : option value) (changes : list value)
  (shouldRemoveNestedNulls : bool) : option value :=
  fold_left (applyMergeStep shouldRemoveNestedNulls) changes existingValue.

(** Modelled from the spec: [utils.removeNestedNullValues] ("normalize nested
    nulls"): the value with every [null]-valued object field removed. *)
Definition removeNestedNullValues (v : value) : value :=
  match v with
  | VObj _ => fastMerge true VNull v
  | _ => v
  end.

(** ** The compatibility checker *)

Record compatibility := {
  isCompatible : bool;
  existingValueType : string;
  newValueType : string
}.

Definition valueType (v : option value) : string :=
  match v with
  | None => "undefined"
  | Some VNull => "null"
  | Some (VArr _) => "array"
  | Some (VObj _) => "object"
  | Some _ => "scalar"
  end.

(** Modelled from the spec: [utils.checkCompatibilityWithExistingValue]
    (section 4.1), which is not under [src/].  What the check opposes is an
    array to a value that is not an array ("array-vs-object is
    incompatible"); an operand that is [undefined] or [null] is compatible
    with anything, and so is any other falsy operand, which the check tests
    like [undefined] ([!existingValue || !value]).  Scalars are compatible
    with scalars and with objects: the source sets a string over the default
    of a key (the example in the comment of [clear]). *)
Definition checkCompatibilityWithExistingValue (newValue existingValue : option value)
  : compatibility :=
  {| isCompatible :=
       negb (truthy newValue) || negb (truthy existingValue)
       || match newValue, existingValue with
          | Some (VArr _), Some (VArr _) => true
          | Some (VArr _), _ | _, Some (VArr _) => false
          | _, _ => true
          end;
     existingValueType := valueType existingValue;
     newValueType := valueType newValue |}.

Arguments checkCompatibilityWithExistingValue : simpl never.

(** One value is an array and the other a non-array object. *)
Definition shapeMismatch (newValue existingValue : value) : bool :=
  (isArray newValue && isPlainObject existingValue)
  || (isPlainObject newValue && isArray existingValue).

(** ** Keys and collections *)

(** Modelled from the spec: [OnyxUtils.isKeyMatch] with a collection key as
    its first argument (section 3: any key starting with the prefix is a
    member of the collection). *)
Definition isKeyMatch (collectionKey key : string) : bool :=
  String.prefix collectionKey key.

(** The member id: the suffix of [key] after [collectionKey]. *)
Definition memberID (collectionKey key : string) : string :=
  String.substring (String.length collectionKey)
    (String.length key - String.length collectionKey) key.

(** Modelled from the spec: [OnyxUtils.isValidNonEmptyCollectionForMerge]
    (section 4.6, step 1): the input is an object with at least one member. *)
Definition isValidNonEmptyCollectionForMerge (collection : value) : bool :=
  match collection with
  | VObj (_ :: _) => true
  | _ => false
  end.

Definition members (collection : value) : object :=
  match collection with VObj fs => fs | _ => [] end.

(** ** The store *)

(** [OnyxUtils.METHOD] *)
Inductive method :=
  | SET | MULTI_SET | MERGE | MERGE_COLLECTION | SET_COLLECTION | CLEAR.

Inductive logMessage :=
  | IncompatibleUpdateAlert (key method : string) (existingValueType newValueType : string)
  | SetCalled (key : string) (hasChanged : bool)
  | MergeCalled (key : string) (hasChanged : bool)
  | MergeCollectionSkipped
  | UpdateMergeCollectionSkipped
  | SetCollectionWrongParent (collectionKey : string)
  | CollectionWrongParent (collectionKey dataKey : string).

(** The calls that leave the write pipeline, in the order they are made. *)
Inductive event :=
  | StorageGetItem (key : string)
  | StorageSetItem (key : string) (v : option value)
  | StorageMergeItem (key : string) (delta preMerged : option value) (shouldSetValue : bool)
  | StorageRemoveItem (key : string)
  | StorageRemoveItems (keys : list string)
  | StorageMultiSet (pairs : object)
  | StorageMultiMerge (pairs : object)
  | ScheduleSubscriberUpdate (key : string) (v prev : option value)
  | ScheduleNotifyCollectionSubscribers
      (collectionKey : string) (collection : list (string * option value))
      (previous : option (list (string * option value)))
  | RefreshSessionID
  | LogAlert (m : logMessage)
  | LogInfo (m : logMessage)
  | SendActionToDevTools (m : method) (key : option string)
  | DevToolsClearState (keysToPreserve : list string).

(** The state the write pipeline works on: the cache ([OnyxCache.storageMap]),
    the contents held by the storage driver, the two module-level maps of
    [OnyxUtils] that [merge] uses, and the trace.  [mergeQueuePromise] only
    records which keys have a promise. *)
Record Store := {
  cache : gmap string value;
  storage : gmap string value;
  mergeQueue : gmap string (list value);
  mergeQueuePromise : gset string;
  trace : list event
}.

Definition withCache (f : gmap string value -> gmap string value) (s : Store) : Store :=
  {| cache := f (cache s); storage := storage s; mergeQueue := mergeQueue s;
     mergeQueuePromise := mergeQueuePromise s; trace := trace s |}.

Definition withStorage (f : gmap string value -> gmap string value) (s : Store) : Store :=
  {| cache := cache s; storage := f (storage s); mergeQueue := mergeQueue s;
     mergeQueuePromise := mergeQueuePromise s; trace := trace s |}.

Definition withMergeQueue
  (f : gmap string (list value) -> gmap string (list value)) (s : Store) : Store :=
  {| cache := cache s; storage := storage s; mergeQueue := f (mergeQueue s);
     mergeQueuePromise := mergeQueuePromise s; trace := trace s |}.

Definition withMergeQueuePromise (f : gset string -> gset string) (s : Store) : Store :=
  {| cache := cache s; storage := storage s; mergeQueue := mergeQueue s;
     mergeQueuePromise := f (mergeQueuePromise s); trace := trace s |}.

Definition emit (e : event) (s : Store) : Store :=
  {| cache := cache s; storage := storage s; mergeQueue := mergeQueue s;
     mergeQueuePromise := mergeQueuePromise s; trace := trace s ++ [e] |}.

Definition emitAll (es : list event) (s : Store) : Store :=
  {| cache := cache s; storage := storage s; mergeQueue := mergeQueue s;
     mergeQueuePromise := mergeQueuePromise s; trace := trace s ++ es |}.

(** *** The cache *)

(** Modelled from the spec: [cache.set(key, value)] (section 3: a key is
    present in the cache iff its last committed write had a value other than
    [undefined]; [null] is representable).  A property set to [undefined]
    reads back as [undefined], like a missing one.  The write operations
    never hand a top-level [null] to it: [removeNullValues] and
    [prepareKeyValuePairsForStorage] remove such a key first; only [clear]
    does, for a key it drops from the cache afterwards or whose declared
    default is [null]. *)
Definition cacheSet (key : string) (v : option value) : Store -> Store :=
  withCache (fun c => match v with Some x => <[key := x]> c | None => delete key c end).

(** [cache.drop(key)] *)
Definition cacheDrop (key : string) : Store -> Store :=
  withCache (delete key).

Definition deepEqualOpt (a b : option value) : bool :=
  match a, b with
  | Some x, Some y => deepEqual x y
  | None, None => true
  | _, _ => false
  end.

(** Modelled from the spec: [cache.hasValueChanged] (section 3): true iff the
    value differs structurally from the cached one, or the key is uncached. *)
Definition hasValueChanged (key : string) (v : option value) (s : Store) : bool :=
  match cache s !! key with
  | Some c => negb (deepEqualOpt (Some c) v)
  | None => true
  end.

(** Modelled from the spec: [cache.merge] (section 4.6, step 6): every member
    is merged into its cached value. *)
Definition cacheMerge (data : object) : Store -> Store :=
  withCache (fun c =>
    fold_left
      (fun c kv =>
         match applyMerge (c !! kv.1) [kv.2] true with
         | Some x => <[kv.1 := x]> c
         | None => c
         end)
      data c).

(** Modelled from the spec: [OnyxUtils.getCachedCollection]: the cached
    values of the given keys. *)
Definition getCachedCollection (keys : list string) (s : Store) : object :=
  omap (fun k => (fun v => (k, v)) <$> cache s !! k) keys.

(** *** The storage driver *)

(** Modelled from the spec: the storage driver (section 6), taken to serve
    every call at once and without failure.  A top-level [null] means "delete
    from storage" (section 3). *)
Definition storePut (key : string) (v : value) (m : gmap string value) : gmap string value :=
  if isNull v then delete key m else <[key := v]> m.

Definition storePutOpt (key : string) (v : option value) (m : gmap string value)
  : gmap string value :=
  match v with Some x => storePut key x m | None => m end.

Definition Storage_setItem (key : string) (v : option value) (s : Store) : Store :=
  emit (StorageSetItem key v) (withStorage (storePutOpt key v) s).

(** The driver may use the delta or the pre-merged value; both denote the
    same stored result, which is the pre-merged value. *)
Definition Storage_mergeItem (key : string) (delta preMerged : option value)
  (shouldSetValue : bool) (s : Store) : Store :=
  emit (StorageMergeItem key delta preMerged shouldSetValue)
    (withStorage (storePutOpt key preMerged) s).

Definition Storage_removeItem (key : string) (s : Store) : Store :=
  emit (StorageRemoveItem key) (withStorage (delete key) s).

Definition Storage_removeItems (keys : list string) (s : Store) : Store :=
  emit (StorageRemoveItems keys)
    (withStorage (fun m => fold_left (fun m k => delete k m) keys m) s).

Definition Storage_multiSet (pairs : object) (s : Store) : Store :=
  emit (StorageMultiSet pairs)
    (withStorage (fun m => fold_left (fun m kv => storePut kv.1 kv.2 m) pairs m) s).

Definition Storage_multiMerge (pairs : object) (s : Store) : Store :=
  emit (StorageMultiMerge pairs)
    (withStorage
       (fun m =>
          fold_left (fun m kv => storePutOpt kv.1 (applyMerge (m !! kv.1) [kv.2] true) m)
            pairs m) s).

(** *** Helpers of [OnyxUtils] *)

(** [OnyxUtils.hasPendingMergeForKey]: [!!mergeQueue[key]]; an array is
    truthy even when empty. *)
Definition hasPendingMergeForKey (key : string) (s : Store) : bool :=
  bool_decide (is_Some (mergeQueue s !! key)).

(** [if (OnyxUtils.hasPendingMergeForKey(key)) delete OnyxUtils.getMergeQueue()[key]],
    the first step of [set] and of every entry of [multiSet]. *)
Definition dropPendingMerge (key : string) (s : Store) : Store :=
  if hasPendingMergeForKey key s then withMergeQueue (delete key) s else s.

(** Modelled from the spec: [OnyxUtils.get] (section 4.3, step 1): the value
    is read from the cache, or else from storage.  [getResult] is the value
    delivered, [OnyxUtils_get] the synchronous part, which starts the storage
    read of an uncached key, and [OnyxUtils_getThen] the completion of such a
    read. *)
Definition getResult (key : string) (s : Store) : option value :=
  match cache s !! key with
  | Some v => Some v
  | None => storage s !! key
  end.

Definition OnyxUtils_get (key : string) (s : Store) : Store :=
  match cache s !! key with
  | Some _ => s
  | None => emit (StorageGetItem key) s
  end.

(** Modelled from the spec: the completion of a storage read (section 3: the
    cache is populated on first read).  The value read is put in the cache
    before the callback of the caller runs, over whatever has been cached
    since the read was started; a read that found nothing leaves no entry.
    A [get] served from the cache has no such step. *)
Definition OnyxUtils_getThen (key : string) (val : option value) (s : Store) : Store :=
  cacheSet key val s.

(** Modelled from the spec: [OnyxUtils.getAllKeys] ("fetch all keys"). *)
Definition getAllKeys (s : Store) : list string :=
  elements (dom (cache s) ∪ dom (storage s)).

(** Modelled from the spec: [OnyxUtils.remove], which by the comments at its
    call sites "removes the key from storage and cache and updates the
    subscriber". *)
Definition remove (key : string) (s : Store) : Store :=
  let prevValue := cache s !! key in
  Storage_removeItem key
    (emit (ScheduleSubscriberUpdate key None prevValue) (cacheDrop key s)).

(** Modelled from the spec: [OnyxUtils.removeNullValues] (section 4.4,
    step 6): a top-level [null] removes the key; any other value is
    normalised. *)
Definition removeNullValues (key : string) (v : option value) (s : Store)
  : option value * bool * Store :=
  match v with
  | Some VNull => (Some VNull, true, remove key s)
  | Some x => (Some (removeNestedNullValues x), false, s)
  | None => (None, false, s)
  end.

(** Modelled from the spec: [OnyxUtils.broadcastUpdate] (section 4.3,
    step 10): the cache is updated and the subscribers of the key are
    scheduled.  A value that has not changed is structurally the cached one,
    and the cache is then left as it is. *)
Definition broadcastUpdate (key : string) (v : option value) (hasChanged : bool)
  (s : Store) : Store :=
  let prevValue := cache s !! key in
  emit (ScheduleSubscriberUpdate key v prevValue)
    (if hasChanged then cacheSet key v s else s).

(** The entries of an object as pairs, with nested nulls stripped on
    request. *)
Definition keyValuePairs (data : object) (shouldRemoveNestedNulls : bool) : object :=
  map (fun kv => (kv.1, if shouldRemoveNestedNulls then removeNestedNullValues kv.2 else kv.2))
    data.

(** Modelled from the spec: [OnyxUtils.prepareKeyValuePairsForStorage], which
    is not under [src/]: the entries of the object as pairs, each through
    [removeNullValues] (section 4.4, step 6).  An entry whose value is [null]
    is removed from the cache and from storage on the spot and is left out of
    the pairs; the other values are normalised on request. *)
Definition prepareKeyValuePairsForStorage (data : object) (shouldRemoveNestedNulls : bool)
  (s : Store) : object * Store :=
  (keyValuePairs (filter (fun kv => isNull kv.2 = false) data) shouldRemoveNestedNulls,
   fold_left (fun s kv => if isNull kv.2 then remove kv.1 s else s) data s).

(** ** Promises *)

(** What a call has left to do once its synchronous prefix has run. *)
Inductive pending :=
  | PendingFold (key : string) (existingValue : option value)
      (** [OnyxUtils.get(key).then(...)] of [merge], with the value read *)
  | PendingMergeCollection (collectionKey : string) (resultCollection : object)
  | PendingSetCollection (collectionKey : string) (resultCollection : object)
  | PendingClear (keysToPreserve : list string).

(** The promise a call returns. *)
Inductive promise :=
  | Resolved                       (** [Promise.resolve()] *)
  | UpdatePromise                  (** settles with the subscriber update *)
  | StoragePromise                 (** settles with the storage call *)
  | MergeQueuePromise (key : string)   (** [mergeQueuePromise[key]], already created *)
  | Awaits (p : pending)           (** settles with a callback still to run *)
  | PromiseAll (ps : list promise)
  | Throws.                        (** no promise: the call throws *)

(** The entries of an [update] call ([OnyxUpdate]). *)
Inductive OnyxUpdate :=
  | UpdateSet (key : string) (v : value)
  | UpdateMerge (key : string) (v : value)
  | UpdateMergeCollection (key : string) (collection : value)
  | UpdateSetCollection (key : string) (collection : object)
  | UpdateMultiSet (data : value)
  | UpdateClear.

(** The deferred calls [update] collects ([() => Promise<void>]). *)
Inductive call :=
  | CallSet (key : string) (v : option value)
  | CallMerge (key : string) (changes : option value)
  | CallMergeCollection (collectionKey : string) (collection : value)
  | CallMultiSet (data : object)
  | CallSetCollection (collectionKey : string) (collection : object).

(** [updateQueue]: for each key, the operations queued for it, in the order
    the keys were first queued. *)
Abbreviation updateQueue := (list (string * list value)).

(** ** Configuration *)

(** What is fixed before the first write: the declared collection keys, the
    skippable member ids and the default key states, which [init] sets, and
    whether the process runs in development mode
    ([process.env.NODE_ENV === 'development']). *)
Record Config := {
  collectionKeys : list string;
  skippableCollectionMemberIDs : list string;
  defaultKeyStates : object;
  development : bool
}.

Section Onyx.

Variable cfg : Config.

(** Modelled from the spec: [OnyxUtils.getCollectionKey] (section 3): the
    declared prefix the key starts with, the longest one when there are
    several; [None] stands for the exception thrown when there is none. *)
Definition getCollectionKey (key : string) : option string :=
  fold_left
    (fun best ck =>
       if isKeyMatch ck key then
         match best with
         | Some b => if Nat.ltb (String.length b) (String.length ck) then Some ck else best
         | None => Some ck
         end
       else best)
    (collectionKeys cfg) None.

(** Modelled from the spec: [OnyxUtils.splitCollectionMemberKey] (section 3):
    the collection key and the member id of a key. *)
Definition splitCollectionMemberKey (key : string) (collectionKey : option string)
  : option (string * string) :=
  match collectionKey with
  | Some ck => if isKeyMatch ck key then Some (ck, memberID ck key) else None
  | None => (fun ck => (ck, memberID ck key)) <$> getCollectionKey key
  end.

(** The test the write operations share:
    [skippableCollectionMemberIDs.size] is non-zero, the key splits, and its
    member id is in the set. *)
Definition isSkippable (key : string) (collectionKey : option string) : bool :=
  match skippableCollectionMemberIDs cfg with
  | [] => false
  | ids =>
      match splitCollectionMemberKey key collectionKey with
      | Some (_, collectionMemberID) => bool_decide (collectionMemberID ∈ ids)
      | None => false
      end
  end.

(** The reducer [multiSet], [mergeCollection] and [setCollection] run over
    their input when skippable member ids are configured. *)
Definition skipMembers (collectionKey : option string) (data : object) : object :=
  match skippableCollectionMemberIDs cfg with
  | [] => data
  | _ =>
      fold_left
        (fun result kv =>
           objSet kv.1 (if isSkippable kv.1 collectionKey then VNull else kv.2) result)
        data []
  end.

(** Modelled from the spec: [OnyxUtils.isCollectionKey]: the key is one of
    the declared collection keys. *)
Definition isCollectionKey (key : string) : bool :=
  bool_decide (key ∈ collectionKeys cfg).

(** Modelled from the spec: [OnyxUtils.doAllCollectionItemsBelongToSameParent]
    (section 4.6, step 1), which is not under [src/].  A key belongs to a
    declared collection key when it starts with it, and to any other key when
    it is that key.  For every key that does not belong the check logs an
    alert; in development mode it throws instead, at the first such key.  The
    result is the verdict with the alerts logged; [None] stands for the
    exception. *)
Definition doAllCollectionItemsBelongToSameParent
  (collectionKey : string) (collectionKeys : list string) : option (bool * list event) :=
  let foreign :=
    filter
      (fun dataKey =>
         (if isCollectionKey collectionKey then isKeyMatch collectionKey dataKey
          else String.eqb collectionKey dataKey) = false)
      collectionKeys in
  match foreign with
  | [] => Some (true, [])
  | _ =>
      if development cfg then None
      else Some (false,
                 map (fun dataKey => LogAlert (CollectionWrongParent collectionKey dataKey))
                   foreign)
  end.

(** ** [Onyx.set] *)

Definition set (key : string) (v : option value) (s : Store) : promise * Store :=
  let s := dropPendingMerge key s in
  let v := if isSkippable key None then Some VNull else v in
  match v with
  | None => (Resolved, s)
  | Some x =>
      let existingValue := cache s !! key in
      if bool_decide (existingValue = None) && isNull x then (Resolved, s) else
      let c := checkCompatibilityWithExistingValue (Some x) existingValue in
      if negb (isCompatible c) then
        (Resolved,
         emit (LogAlert (IncompatibleUpdateAlert key "set"
                           (existingValueType c) (newValueType c))) s)
      else
        let '(valueAfterRemoving, wasRemoved, s) := removeNullValues key (Some x) s in
        if wasRemoved then (Resolved, emit (LogInfo (SetCalled key true)) s) else
        let hasChanged := hasValueChanged key valueAfterRemoving s in
        let s := emit (LogInfo (SetCalled key hasChanged)) s in
        let s := broadcastUpdate key valueAfterRemoving hasChanged s in
        if negb hasChanged then (UpdatePromise, s) else
        (StoragePromise,
         emit (SendActionToDevTools SET (Some key))
           (Storage_setItem key valueAfterRemoving s))
  end.

(** ** [Onyx.multiSet] *)

Definition multiSet (data : object) (s : Store) : promise * Store :=
  let newData := skipMembers None data in
  let '(keyValuePairsToSet, s) := prepareKeyValuePairsForStorage newData true s in
  let s :=
    fold_left
      (fun s kv =>
         let prevValue := cache s !! kv.1 in
         let s := dropPendingMerge kv.1 s in
         emit (ScheduleSubscriberUpdate kv.1 (Some kv.2) prevValue)
           (cacheSet kv.1 (Some kv.2) s))
      keyValuePairsToSet s in
  (StoragePromise,
   emit (SendActionToDevTools MULTI_SET None) (Storage_multiSet keyValuePairsToSet s)).

(** ** [Onyx.merge] *)

(** [mergeQueue[key].filter(...)]: the compatible changes, an alert being
    logged for each of the others. *)
Definition compatibleWith (existingValue : option value) (change : value) : bool :=
  isCompatible (checkCompatibilityWithExistingValue (Some change) existingValue).

Definition incompatibleAlerts (key : string) (existingValue : option value)
  (queue : list value) : list event :=
  omap
    (fun change =>
       let c := checkCompatibilityWithExistingValue (Some change) existingValue in
       if isCompatible c then None
       else Some (LogAlert (IncompatibleUpdateAlert key "merge"
                              (existingValueType c) (newValueType c))))
    queue.

(** [!existingValue || mergeQueue[key].includes(null)] *)
Definition shouldSetValue (existingValue : option value) (queue : list value) : bool :=
  negb (truthy existingValue) || existsb isNull queue.

(** The synchronous prefix of [merge]: the changes are queued, and the first
    call for a key starts the read. *)
Definition merge (key : string) (changes : option value) (s : Store) : promise * Store :=
  let changes := if isSkippable key None then None else changes in
  match changes with
  | None =>
      (match mergeQueue s !! key with
       | Some _ => MergeQueuePromise key
       | None => Resolved
       end, s)
  | Some change =>
      match mergeQueue s !! key with
      | Some queue =>
          (MergeQueuePromise key, withMergeQueue (<[key := queue ++ [change]]>) s)
      | None =>
          let s := withMergeQueue (<[key := [change]]>) s in
          let existingValue := getResult key s in
          let s := OnyxUtils_get key s in
          (Awaits (PendingFold key existingValue),
           withMergeQueuePromise (fun ps => {[key]} ∪ ps) s)
      end
  end.

(** The rest of the callback of [merge], from the point where the queue
    entry has been cleared: the batched delta is removed, or pre-merged,
    broadcast and handed to the storage driver. *)
Definition writeBatch (key : string) (existingValue : option value)
  (batchedDeltaChanges : option value) (shouldSet : bool) (s : Store) : promise * Store :=
  let '(_, wasRemoved, s) := removeNullValues key batchedDeltaChanges s in
  if wasRemoved then (Resolved, emit (LogInfo (MergeCalled key true)) s) else
  let preMergedValue :=
    applyMerge (if shouldSet then None else existingValue)
      (option_list batchedDeltaChanges) true in
  let hasChanged := hasValueChanged key preMergedValue s in
  let s := emit (LogInfo (MergeCalled key hasChanged)) s in
  let s := broadcastUpdate key preMergedValue hasChanged s in
  if negb hasChanged then (UpdatePromise, s) else
  (StoragePromise,
   emit (SendActionToDevTools MERGE (Some key))
     (Storage_mergeItem key batchedDeltaChanges preMergedValue shouldSet s)).

(** The callback of [OnyxUtils.get(key).then] in [merge]: the fold of the
    queue of a key over the value read. *)
Definition mergeFold (key : string) (existingValue : option value) (s : Store)
  : promise * Store :=
  match mergeQueue s !! key with
  | None => (Resolved, s)
  | Some queue =>
      let validChanges := filter (fun c => compatibleWith existingValue c = true) queue in
      let s := emitAll (incompatibleAlerts key existingValue queue) s in
      match validChanges with
      | [] => (Resolved, s)
      | _ =>
          let batchedDeltaChanges := applyMerge None validChanges false in
          let shouldSet := shouldSetValue existingValue queue in
          let s := withMergeQueuePromise (fun ps => ps ∖ {[key]})
                     (withMergeQueue (delete key) s) in
          writeBatch key existingValue batchedDeltaChanges shouldSet s
      end
  end.

(** ** [Onyx.mergeCollection] *)

Definition someValues (o : object) : list (string * option value) :=
  map (fun kv => (kv.1, Some kv.2)) o.

(** The synchronous prefix: the two guards and the skippable members. *)
Definition mergeCollection (collectionKey : string) (collection : value) (s : Store)
  : promise * Store :=
  if negb (isValidNonEmptyCollectionForMerge collection) then
    (Resolved, emit (LogInfo MergeCollectionSkipped) s)
  else
    let resultCollection := members collection in
    let resultCollectionKeys := objKeys resultCollection in
    match doAllCollectionItemsBelongToSameParent collectionKey resultCollectionKeys with
    | None => (Throws, s)
    | Some (false, alerts) => (Resolved, emitAll alerts s)
    | Some (true, _) =>
        let resultCollection := skipMembers (Some collectionKey) resultCollection in
        (Awaits (PendingMergeCollection collectionKey resultCollection), s)
    end.

(** The callback of [OnyxUtils.getAllKeys().then]. *)
Definition mergeCollectionThen (collectionKey : string) (resultCollection : object)
  (persistedKeys : list string) (s : Store) : promise * Store :=
  (* members set to null are removed; the others are the keys to write *)
  let s := fold_left (fun s kv => if isNull kv.2 then remove kv.1 s else s)
             resultCollection s in
  let keys := objKeys (filter (fun kv => isNull kv.2 = false) resultCollection) in
  let existingKeys := filter (fun key => key ∈ persistedKeys) keys in
  let cachedCollectionForExistingKeys := getCachedCollection existingKeys s in
  let checked key :=
    checkCompatibilityWithExistingValue
      (objGet key resultCollection) (objGet key cachedCollectionForExistingKeys) in
  let existingKeyCollection : object :=
    omap (fun key =>
            if isCompatible (checked key)
            then (fun v => (key, v)) <$> objGet key resultCollection
            else None)
      existingKeys in
  let s :=
    emitAll
      (omap (fun key =>
               let c := checked key in
               if isCompatible c then None
               else Some (LogAlert (IncompatibleUpdateAlert key "mergeCollection"
                                      (existingValueType c) (newValueType c))))
         existingKeys) s in
  let newCollection : object :=
    omap (fun key =>
            if bool_decide (key ∈ persistedKeys) then None
            else (fun v => (key, v)) <$> objGet key resultCollection)
      keys in
  let '(keyValuePairsForExistingCollection, s) :=
    prepareKeyValuePairsForStorage existingKeyCollection false s in
  let '(keyValuePairsForNewCollection, s) :=
    prepareKeyValuePairsForStorage newCollection true s in
  let previousCollection := map (fun key => (key, getResult key s)) existingKeys in
  let s := fold_left (fun s key => OnyxUtils_get key s) existingKeys s in
  let s := match keyValuePairsForExistingCollection with
           | [] => s
           | _ => Storage_multiMerge keyValuePairsForExistingCollection s
           end in
  let s := match keyValuePairsForNewCollection with
           | [] => s
           | _ => Storage_multiSet keyValuePairsForNewCollection s
           end in
  let finalMergedCollection := existingKeyCollection ++ newCollection in
  let s := cacheMerge finalMergedCollection s in
  let s := emit (ScheduleNotifyCollectionSubscribers collectionKey
                   (someValues finalMergedCollection) (Some previousCollection)) s in
  (StoragePromise, emit (SendActionToDevTools MERGE_COLLECTION None) s).

(** ** [Onyx.setCollection] *)

Definition setCollection (collectionKey : string) (collection : object) (s : Store)
  : promise * Store :=
  let resultCollectionKeys := objKeys collection in
  match doAllCollectionItemsBelongToSameParent collectionKey resultCollectionKeys with
  | None => (Throws, s)
  | Some (false, alerts) =>
      (Resolved, emit (LogAlert (SetCollectionWrongParent collectionKey)) (emitAll alerts s))
  | Some (true, _) =>
      let resultCollection := skipMembers (Some collectionKey) collection in
      (Awaits (PendingSetCollection collectionKey resultCollection), s)
  end.

Definition setCollectionThen (collectionKey : string) (resultCollection : object)
  (persistedKeys : list string) (s : Store) : promise * Store :=
  let resultCollectionKeys := objKeys resultCollection in
  let mutableCollection :=
    fold_left
      (fun m key =>
         if negb (String.prefix collectionKey key) then m
         else if bool_decide (key ∈ resultCollectionKeys) then m
         else objSet key VNull m)
      persistedKeys resultCollection in
  let '(keyValuePairs, s) := prepareKeyValuePairsForStorage mutableCollection true s in
  let previousCollection :=
    filter (fun kv => isKeyMatch collectionKey kv.1 = true) (map_to_list (cache s)) in
  let s := fold_left (fun s kv => cacheSet kv.1 (Some kv.2) s) keyValuePairs s in
  let s := emit (ScheduleNotifyCollectionSubscribers collectionKey
                   (someValues mutableCollection)
                   (Some (someValues previousCollection))) s in
  (StoragePromise,
   emit (SendActionToDevTools SET_COLLECTION None) (Storage_multiSet keyValuePairs s)).

(** ** [Onyx.clear] *)

(** [new Set([...cachedKeys, ...initialKeys])]: every key once, at its first
    position. *)
Fixpoint uniqueKeys (seen : list string) (keys : list string) : list string :=
  match keys with
  | [] => []
  | k :: keys' =>
      if bool_decide (k ∈ seen) then uniqueKeys seen keys'
      else k :: uniqueKeys (k :: seen) keys'
  end.

(** What the loop over [allKeys] builds. *)
Record clearState := {
  clearStore : Store;
  keysToBeClearedFromStorage : list string;
  keyValuesToResetAsCollection : list (string * list (string * option value));
  keyValuesToResetIndividually : list (string * option value)
}.

(** [newValue ?? undefined] *)
Definition nullToUndefined (v : value) : option value :=
  if isNull v then None else Some v.

Definition clearKey (keysToPreserve : list string) (st : clearState) (key : string)
  : clearState :=
  let isKeyToPreserve := bool_decide (key ∈ keysToPreserve) in
  let isDefaultKey := bool_decide (is_Some (objGet key (defaultKeyStates cfg))) in
  let st :=
    if isKeyToPreserve then st else
    let oldValue := cache (clearStore st) !! key in
    let newValue := default VNull (objGet key (defaultKeyStates cfg)) in
    if strictEqual (Some newValue) oldValue then st else
    let s := cacheSet key (Some newValue) (clearStore st) in
    match getCollectionKey key with
    | Some collectionKey =>
        if String.eqb collectionKey "" then
          {| clearStore := s;
             keysToBeClearedFromStorage := keysToBeClearedFromStorage st;
             keyValuesToResetAsCollection := keyValuesToResetAsCollection st;
             keyValuesToResetIndividually :=
               objSet key (nullToUndefined newValue) (keyValuesToResetIndividually st) |}
        else
          {| clearStore := s;
             keysToBeClearedFromStorage := keysToBeClearedFromStorage st;
             keyValuesToResetAsCollection :=
               objSet collectionKey
                 (objSet key (nullToUndefined newValue)
                    (default [] (objGet collectionKey (keyValuesToResetAsCollection st))))
                 (keyValuesToResetAsCollection st);
             keyValuesToResetIndividually := keyValuesToResetIndividually st |}
    | None =>
        {| clearStore := s;
           keysToBeClearedFromStorage := keysToBeClearedFromStorage st;
           keyValuesToResetAsCollection := keyValuesToResetAsCollection st;
           keyValuesToResetIndividually :=
             objSet key (nullToUndefined newValue) (keyValuesToResetIndividually st) |}
    end in
  if isKeyToPreserve || isDefaultKey then st
  else
    {| clearStore := clearStore st;
       keysToBeClearedFromStorage := keysToBeClearedFromStorage st ++ [key];
       keyValuesToResetAsCollection := keyValuesToResetAsCollection st;
       keyValuesToResetIndividually := keyValuesToResetIndividually st |}.

(** The synchronous prefix only asks for the keys. *)
Definition clear (keysToPreserve : list string) (s : Store) : promise * Store :=
  (Awaits (PendingClear keysToPreserve), s).

(** The callback of [OnyxUtils.getAllKeys().then], followed by the storage
    calls chained on it.  The bookkeeping of the cache that holds no value
    ([clearNullishStorageKeys], [captureTask]) is left out. *)
Definition clearThen (keysToPreserve : list string) (cachedKeys : list string) (s : Store)
  : promise * Store :=
  let initialKeys := objKeys (defaultKeyStates cfg) in
  let allKeys := uniqueKeys [] (cachedKeys ++ initialKeys) in
  let st :=
    fold_left (clearKey keysToPreserve) allKeys
      {| clearStore := s; keysToBeClearedFromStorage := [];
         keyValuesToResetAsCollection := []; keyValuesToResetIndividually := [] |} in
  let s := clearStore st in
  let s :=
    fold_left
      (fun s kv => emit (ScheduleSubscriberUpdate kv.1 kv.2 (cache s !! kv.1)) s)
      (keyValuesToResetIndividually st) s in
  let s :=
    fold_left
      (fun s kv => emit (ScheduleNotifyCollectionSubscribers kv.1 kv.2 None) s)
      (keyValuesToResetAsCollection st) s in
  let defaultKeyValuePairs :=
    filter (fun kv => kv.1 ∉ keysToPreserve) (defaultKeyStates cfg) in
  let s := fold_left (fun s key => cacheDrop key s) (keysToBeClearedFromStorage st) s in
  let s := Storage_removeItems (keysToBeClearedFromStorage st) s in
  let s := emit RefreshSessionID s in
  let s := Storage_multiSet defaultKeyValuePairs s in
  (UpdatePromise, emit (DevToolsClearState keysToPreserve) s).

(** ** [Onyx.update] *)

Definition enqueueSetOperation (key : string) (v : value) (q : updateQueue) : updateQueue :=
  objSet key [VNull; v] q.

Definition enqueueMergeOperation (key : string) (v : value) (q : updateQueue) : updateQueue :=
  if isNull v then objSet key [VNull] q
  else
    match objGet key q with
    | None => objSet key [v] q
    | Some operations => objSet key (operations ++ [v]) q
    end.

(** The first loop of [update]: the validation of the entries.  Methods and
    keys are well-formed by their types; what is left is the value of a
    [multiSet], which must have the type [object] and be no array: [null]
    passes. *)
Definition validUpdate (u : OnyxUpdate) : bool :=
  match u with
  | UpdateMultiSet (VObj _) => true
  | UpdateMultiSet VNull => true
  | UpdateMultiSet _ => false
  | _ => true
  end.

(** The entries whose handler throws in the second loop: a [multiSet] of
    [null], at [Object.entries], and a [mergeCollection] whose parent check
    throws. *)
Definition handlerThrows (u : OnyxUpdate) : bool :=
  match u with
  | UpdateMultiSet VNull => true
  | UpdateMergeCollection key collection =>
      isValidNonEmptyCollectionForMerge collection
      && bool_decide
           (doAllCollectionItemsBelongToSameParent key (objKeys (members collection))
            = None)
  | _ => false
  end.

(** What the second loop builds. *)
Record updateState := {
  queue : updateQueue;
  promises : list call;
  clears : nat;            (** how many times [clear()] was called *)
  logged : list event
}.

Definition handleUpdate (st : updateState) (u : OnyxUpdate) : updateState :=
  match u with
  | UpdateSet key v =>
      {| queue := enqueueSetOperation key v (queue st); promises := promises st;
         clears := clears st; logged := logged st |}
  | UpdateMerge key v =>
      {| queue := enqueueMergeOperation key v (queue st); promises := promises st;
         clears := clears st; logged := logged st |}
  | UpdateMergeCollection key collection =>
      if negb (isValidNonEmptyCollectionForMerge collection) then
        {| queue := queue st; promises := promises st; clears := clears st;
           logged := logged st ++ [LogInfo UpdateMergeCollectionSkipped] |}
      else
        let collectionKeys := objKeys (members collection) in
        match doAllCollectionItemsBelongToSameParent key collectionKeys with
        | Some (true, _) =>
            {| queue :=
                 fold_left (fun q kv => enqueueMergeOperation kv.1 kv.2 q)
                   (members collection) (queue st);
               promises := promises st; clears := clears st; logged := logged st |}
        | Some (false, alerts) =>
            {| queue := queue st; promises := promises st; clears := clears st;
               logged := logged st ++ alerts |}
        | None => st
        end
  | UpdateSetCollection key collection =>
      {| queue := queue st; promises := promises st ++ [CallSetCollection key collection];
         clears := clears st; logged := logged st |}
  | UpdateMultiSet data =>
      {| queue := fold_left (fun q kv => enqueueSetOperation kv.1 kv.2 q)
                    (members data) (queue st);
         promises := promises st; clears := clears st; logged := logged st |}
  | UpdateClear =>
      {| queue := queue st; promises := promises st; clears := S (clears st);
         logged := logged st |}
  end.

(** [MixedOperationsQueue] *)
Record mixedOperationsQueue := {
  mergePart : object;
  setPart : object
}.

(** The reducer over the queued keys of one collection.  [operations] is
    never empty, so [updatedValue] is never [undefined]. *)
Definition batchCollectionKey (acc : updateQueue * mixedOperationsQueue) (key : string)
  : updateQueue * mixedOperationsQueue :=
  let '(q, batched) := acc in
  let operations := default [] (objGet key q) in
  let q := objDelete key q in
  match applyMerge None operations false with
  | Some updatedValue =>
      match operations with
      | VNull :: _ =>
          (q, {| mergePart := mergePart batched;
                 setPart := objSet key updatedValue (setPart batched) |})
      | _ =>
          (q, {| mergePart := objSet key updatedValue (mergePart batched);
                 setPart := setPart batched |})
      end
  | None => (q, batched)
  end.

(** The body of the loop over the declared collection keys. *)
Definition collapseCollection (acc : updateQueue * list call) (collectionKey : string)
  : updateQueue * list call :=
  let '(q, ps) := acc in
  let collectionItemKeys := filter (fun key => isKeyMatch collectionKey key = true) (objKeys q) in
  if Nat.leb (length collectionItemKeys) 1 then (q, ps)
  else
    let '(q, batchedCollectionUpdates) :=
      fold_left batchCollectionKey collectionItemKeys
        (q, {| mergePart := []; setPart := [] |}) in
    let ps :=
      match mergePart batchedCollectionUpdates with
      | [] => ps
      | m => ps ++ [CallMergeCollection collectionKey (VObj m)]
      end in
    let ps :=
      match setPart batchedCollectionUpdates with
      | [] => ps
      | m => ps ++ [CallMultiSet m]
      end in
    (q, ps).

(** The loop over what is left of [updateQueue]. *)
Definition individualCall (kv : string * list value) : call :=
  let batchedChanges := applyMerge None kv.2 false in
  match kv.2 with
  | VNull :: _ => CallSet kv.1 batchedChanges
  | _ => CallMerge kv.1 batchedChanges
  end.

(** The snapshot updates come from [OnyxUtils.updateSnapshots], which is
    outside the write pipeline. *)
Variable updateSnapshots : list OnyxUpdate -> list call.

(** What the synchronous part of [update] hands to
    [clearPromise.then(...)]. *)
Record updatePlan := {
  planClears : nat;
  finalPromises : list call
}.

(** The synchronous part of [update]; [None] stands for an exception, of the
    validation or of the handler of an entry; what the entries before a
    throwing one have logged or started is not recorded. *)
Definition update (data : list OnyxUpdate) (s : Store) : option (updatePlan * Store) :=
  if negb (forallb validUpdate data) then None
  else if existsb handlerThrows data then None
  else
    let st :=
      fold_left handleUpdate data
        {| queue := []; promises := []; clears := 0; logged := [] |} in
    let '(q, ps) := fold_left collapseCollection (collectionKeys cfg) (queue st, promises st) in
    let ps := ps ++ map individualCall q in
    let snapshotPromises := updateSnapshots data in
    Some ({| planClears := clears st; finalPromises := snapshotPromises ++ ps |},
          emitAll (logged st) s).

(** [p()] for one deferred call: its synchronous prefix. *)
Definition invoke (c : call) (s : Store) : promise * Store :=
  match c with
  | CallSet key v => set key v s
  | CallMerge key changes => merge key changes s
  | CallMergeCollection collectionKey collection => mergeCollection collectionKey collection s
  | CallMultiSet data => multiSet data s
  | CallSetCollection collectionKey collection => setCollection collectionKey collection s
  end.

Definition isThrows (p : promise) : bool :=
  match p with Throws => true | _ => false end.

Definition hasThrown (ps : list promise) : bool := existsb isThrows ps.

(** [finalPromises.map((p) => p())]: the calls are made one after the other.
    A call that throws ends the pass: the calls after it are not made, and
    the list, which then ends with [Throws], stands for the rejection of the
    promise of the [update]. *)
Definition invokeAll (cs : list call) (s : Store) : list promise * Store :=
  fold_left
    (fun acc c =>
       if hasThrown acc.1 then acc
       else let '(p, s) := invoke c acc.2 in (acc.1 ++ [p], s))
    cs ([], s).

(** The callback of [clearPromise.then]: it runs once the clear, if there is
    one, has completed. *)
Definition updateThen (plan : updatePlan) (s : Store) : promise * Store :=
  let s := Nat.iter (planClears plan) (fun s => (clearThen [] (getAllKeys s) s).2) s in
  let '(ps, s) := invokeAll (finalPromises plan) s in
  (PromiseAll ps, s).

(** Running what a call left pending, on the store as it is by then; for a
    fold whose read went to storage, that is the store [OnyxUtils_getThen]
    leaves. *)
Definition resume (p : pending) (s : Store) : promise * Store :=
  match p with
  | PendingFold key existingValue => mergeFold key existingValue s
  | PendingMergeCollection collectionKey resultCollection =>
      mergeCollectionThen collectionKey resultCollection (getAllKeys s) s
  | PendingSetCollection collectionKey resultCollection =>
      setCollectionThen collectionKey resultCollection (getAllKeys s) s
  | PendingClear keysToPreserve => clearThen keysToPreserve (getAllKeys s) s
  end.

End Onyx.

(** ** Counting storage calls *)

Definition isStorageRead (e : event) : bool :=
  match e with
  | StorageGetItem _ => true
  | _ => false
  end.

Definition isStorageWrite (e : event) : bool :=
  match e with
  | StorageSetItem _ _ | StorageMergeItem _ _ _ _ | StorageRemoveItem _
  | StorageRemoveItems _ | StorageMultiSet _ | StorageMultiMerge _ => true
  | _ => false
  end.

Definition countEvents (p : event -> bool) (es : list event) : nat :=
  length (filter (fun e => p e = true) es).

(** [s'] comes after [s]: its trace continues the trace of [s]. *)
Definition extends (s s' : Store) : Prop :=
  trace s `prefix_of` trace s'.

(** ** The keys of a deferred call *)

(** The keys a deferred call of [update] writes: the key of a [set] or a
    [merge], the members of a collection or of the data of a [multiSet]. *)
Definition callKeys (c : call) : list string :=
  match c with
  | CallSet key _ => [key]
  | CallMerge key _ => [key]
  | CallMergeCollection _ collection => objKeys (members collection)
  | CallMultiSet data => objKeys data
  | CallSetCollection _ collection => objKeys collection
  end.

(** * Scenarios *)

Definition emptyStore : Store :=
  {| cache := ∅; storage := ∅; mergeQueue := ∅; mergeQueuePromise := ∅; trace := [] |}.

(** A store holding the same values in cache and storage. *)
Definition storeOf (data : object) : Store :=
  {| cache := list_to_map data; storage := list_to_map data;
     mergeQueue := ∅; mergeQueuePromise := ∅; trace := [] |}.

(** One collection, [r_], no skippable member, no default. *)
Definition cfgReports : Config :=
  {| collectionKeys := ["r_"]; skippableCollectionMemberIDs := [];
     defaultKeyStates := []; development := false |}.

(** The collection [r_] with the skippable member id [42]. *)
Definition cfgSkip42 : Config :=
  {| collectionKeys := ["r_"]; skippableCollectionMemberIDs := ["42"];
     defaultKeyStates := []; development := false |}.

(** The collection [r_] in development mode. *)
Definition cfgDevelopment : Config :=
  {| collectionKeys := ["r_"]; skippableCollectionMemberIDs := [];
     defaultKeyStates := []; development := true |}.

(** The default key state [lang = "en"]. *)
Definition cfgLang : Config :=
  {| collectionKeys := []; skippableCollectionMemberIDs := [];
     defaultKeyStates := [("lang", VStr "en")];
     development := false |}.

Definition noSnapshots (data : list OnyxUpdate) : list call := [].

(** [merge(key, d)] called for each delta of a list, in order. *)
Definition merges (cfg : Config) (key : string) (ds : list value) (s : Store) : Store :=
  fold_left (fun st d => (merge cfg key (Some d) st).2) ds s.

(** The three synchronous merges of scenario S1, then the fold over what the
    read of the empty store delivers. *)
Definition scenarioS1 : promise * Store :=
  let deltas := [VObj [("x", VNum 1)]; VObj [("y", VNum 2)]; VObj [("x", VNum 3)]] in
  mergeFold "a" (getResult "a" emptyStore) (merges cfgReports "a" deltas emptyStore).

(** Scenario S4: [clear(["pref"])] with the default [lang = "en"]. *)
Definition storeS4 : Store :=
  storeOf [("lang", VStr "fr"); ("session", VStr "t"); ("pref", VStr "dark")].


(** The value [clear] gives a key it does not preserve. *)
Definition resetValue (cfg : Config) (key : string) : value :=
  default VNull (objGet key (defaultKeyStates cfg)).

(** Scenario S5: two merges and a set on members of the collection [r_]. *)
Definition updateS5 : list OnyxUpdate :=
  [UpdateMerge "r_1" (VObj [("a", VNum 1)]);
   UpdateMerge "r_2" (VObj [("a", VNum 2)]);
   UpdateSet "r_1" (VObj [("a", VNum 9)])].

(** The members of a collapsed collection, by the first operation queued for
    them: the batched value of every key whose first operation is not
    [null], and of every key whose first operation is [null]. *)
Definition membersToMerge (q : updateQueue) (keys : list string) : object :=
  omap
    (fun k =>
       match objGet k q with
       | Some (VNull :: _) => None
       | Some operations => (fun v => (k, v)) <$> applyMerge None operations false
       | None => None
       end)
    keys.

Definition membersToSet (q : updateQueue) (keys : list string) : object :=
  omap
    (fun k =>
       match objGet k q with
       | Some (VNull :: operations) =>
           (fun v => (k, v)) <$> applyMerge None (VNull :: operations) false
       | _ => None
       end)
    keys.

(** The collapse of the collections of an [update], in the words of its
    description.  [collapsedKeys]: the queued keys a declared collection key
    takes, which are those that match it when there are two or more.
    [collapsedCalls]: the calls made for them, one [mergeCollection] with the
    keys whose first operation is not [null] and one [multiSet] with the
    others, each left out when it has no key.  [collapseSpec]: the declared
    collection keys are taken in the order of their declaration, each on the
    keys the earlier ones have left in the queue; the result is the calls
    made and the queue left. *)
Definition collapsedKeys (q : updateQueue) (collectionKey : string) : list string :=
  let matching := filter (fun key => isKeyMatch collectionKey key = true) (objKeys q) in
  if Nat.leb (length matching) 1 then [] else matching.

Definition collapsedCalls (q : updateQueue) (collectionKey : string) : list call :=
  let keys := collapsedKeys q collectionKey in
  match membersToMerge q keys with
  | [] => []
  | m => [CallMergeCollection collectionKey (VObj m)]
  end
  ++ match membersToSet q keys with
     | [] => []
     | m => [CallMultiSet m]
     end.

Fixpoint collapseSpec (collectionKeys : list string) (q : updateQueue)
  : list call * updateQueue :=
  match collectionKeys with
  | [] => ([], q)
  | collectionKey :: collectionKeys' =>
      let left := filter (fun kv => kv.1 ∉ collapsedKeys q collectionKey) q in
      let rest := collapseSpec collectionKeys' left in
      (collapsedCalls q collectionKey ++ rest.1, rest.2)
  end.

(** Two declared collection keys, one a prefix of the other. *)
Definition cfgNested : Config :=
  {| collectionKeys := ["r_"; "r_x_"]; skippableCollectionMemberIDs := [];
     defaultKeyStates := []; development := false |}.

(** An [update] with one set, whose snapshot update is one merge. *)
Definition snapshotOfK (data : list OnyxUpdate) : list call :=
  [CallMerge "snapshot_k" (Some (VObj [("x", VNum 1)]))].

Definition updateK : list OnyxUpdate := [UpdateSet "k" (VNum 1)].

(** * Properties *)

(** ** Basic facts *)

Lemma isSkippable_no_ids cfg key ck :
  skippableCollectionMemberIDs cfg = [] -> isSkippable cfg key ck = false.
Proof. unfold isSkippable. by intros ->. Qed.

Lemma hasPendingMergeForKey_true key s :
  hasPendingMergeForKey key s = true <-> is_Some (mergeQueue s !! key).
Proof. unfold hasPendingMergeForKey. by rewrite bool_decide_eq_true. Qed.

Lemma hasPendingMergeForKey_false key s :
  hasPendingMergeForKey key s = false <-> mergeQueue s !! key = None.
Proof.
  unfold hasPendingMergeForKey. rewrite bool_decide_eq_false.
  by rewrite eq_None_not_Some.
Qed.

Lemma dropPendingMerge_queue key s :
  mergeQueue (dropPendingMerge key s) = delete key (mergeQueue s).
Proof.
  unfold dropPendingMerge.
  destruct (hasPendingMergeForKey key s) eqn:E; [done|].
  apply hasPendingMergeForKey_false in E. by rewrite delete_id.
Qed.

Lemma dropPendingMerge_frame key s :
  cache (dropPendingMerge key s) = cache s
  /\ storage (dropPendingMerge key s) = storage s
  /\ mergeQueuePromise (dropPendingMerge key s) = mergeQueuePromise s
  /\ trace (dropPendingMerge key s) = trace s.
Proof. unfold dropPendingMerge. by destruct (hasPendingMergeForKey key s). Qed.

Lemma set_undefined cfg key s :
  isSkippable cfg key None = false ->
  set cfg key None s = (Resolved, dropPendingMerge key s).
Proof. intros Hskip. unfold set. by rewrite Hskip. Qed.

(** ** The model on the scenarios of the specification *)

Example applyMerge_batches_in_order :
  applyMerge None
    [VObj [("x", VNum 1)]; VObj [("y", VNum 2)]; VObj [("x", VNum 3)]] false
  = Some (VObj [("x", VNum 3); ("y", VNum 2)]).
Proof. reflexivity. Qed.

Example applyMerge_null_then_object :
  applyMerge None [VNull; VObj [("a", VNum 9)]] false = Some (VObj [("a", VNum 9)]).
Proof. reflexivity. Qed.

(** Scenario S2: a nested [null] deletes the field in the cached value, and
    storage receives the delta with its [null]. *)
Example nested_delete_S2 :
  let s := storeOf [("u", VObj [("a", VNum 1); ("b", VNum 2)])] in
  let queued := merge cfgReports "u" (Some (VObj [("a", VNull)])) s in
  let r := mergeFold "u" (getResult "u" s) queued.2 in
  cache r.2 !! "u" = Some (VObj [("b", VNum 2)])
  /\ filter (fun e => isStorageWrite e = true) (trace r.2)
     = [StorageMergeItem "u" (Some (VObj [("a", VNull)]))
          (Some (VObj [("b", VNum 2)])) false].
Proof. by vm_compute. Qed.

(** Scenario S3: a [set] between a [merge] and its fold.  The merge is on an
    uncached key, so its read goes to storage; the read completes after the
    [set] and leaves the cache with what it found, here nothing, while
    storage holds what the [set] wrote. *)
Example set_cancels_merge_S3 :
  let queued := merge cfgReports "k" (Some (VObj [("x", VNum 1)])) emptyStore in
  let written := set cfgReports "k" (Some (VObj [("z", VNum 9)])) queued.2 in
  let read := OnyxUtils_getThen "k" None written.2 in
  let r := mergeFold "k" None read in
  cache written.2 !! "k" = Some (VObj [("z", VNum 9)])
  /\ r = (Resolved, read)
  /\ cache r.2 !! "k" = None
  /\ storage r.2 !! "k" = Some (VObj [("z", VNum 9)])
  /\ filter (fun e => isStorageWrite e = true) (trace r.2)
     = [StorageSetItem "k" (Some (VObj [("z", VNum 9)]))].
Proof. by vm_compute. Qed.

(** ** C9: [set(K, undefined)] *)

(** C9, as stated, fails on a skippable member: with the skippable id [42]
    and [r_42] cached, [set("r_42", undefined)] is turned into a [set] of
    [null] before the [undefined] test; it removes the key from cache and
    storage and schedules a subscriber update. *)
Lemma set_undefined_skippable_removes :
  let s := storeOf [("r_42", VObj [("a", VNum 1)])] in
  let r := set cfgSkip42 "r_42" None s in
  cache s !! "r_42" = Some (VObj [("a", VNum 1)])
  /\ cache r.2 !! "r_42" = None
  /\ storage r.2 !! "r_42" = None
  /\ cache r.2 <> cache s
  /\ trace r.2 =
       [ScheduleSubscriberUpdate "r_42" None (Some (VObj [("a", VNum 1)]));
        StorageRemoveItem "r_42"; LogInfo (SetCalled "r_42" true)].
Proof.
  cbv zeta. split; [by vm_compute|]. split; [by vm_compute|].
  split; [by vm_compute|]. split; [|by vm_compute].
  intros H. apply (f_equal (fun m => m !! "r_42")) in H. by vm_compute in H.
Qed.

(** C9 (amended): for every key that is not a skippable collection member,
    [set(K, undefined)] returns a resolved promise, leaves the cache and the
    storage of every key as they are and calls nothing (no subscriber update,
    no storage call, no log); the one thing it does is drop the merge-queue
    entry of the key. *)
Theorem set_undefined_is_noop cfg key s :
  isSkippable cfg key None = false ->
  let r := set cfg key None s in
  r.1 = Resolved
  /\ cache r.2 = cache s
  /\ storage r.2 = storage s
  /\ trace r.2 = trace s
  /\ mergeQueue r.2 = delete key (mergeQueue s).
Proof.
  intros Hskip. cbv zeta. rewrite (set_undefined _ _ _ Hskip). cbn [fst snd].
  destruct (dropPendingMerge_frame key s) as (Hc & Hs & _ & Ht).
  by rewrite dropPendingMerge_queue.
Qed.

Lemma set_undefined_is_noop_witness :
  let s := storeOf [("r_7", VObj [("a", VNum 1)])] in
  let r := set cfgSkip42 "r_7" None s in
  isSkippable cfgSkip42 "r_7" None = false
  /\ r.1 = Resolved /\ cache r.2 = cache s /\ storage r.2 = storage s
  /\ trace r.2 = trace s /\ mergeQueue r.2 = delete "r_7" (mergeQueue s).
Proof.
  split; [reflexivity|].
  apply (set_undefined_is_noop cfgSkip42 "r_7"). reflexivity.
Defined.

(** ** [set] of [null] *)

Lemma set_null_removes cfg key s :
  let r := set cfg key (Some VNull) s in
  cache r.2 !! key = None
  /\ (is_Some (cache s !! key) -> storage r.2 !! key = None).
Proof.
  cbv zeta. unfold set.
  replace (if isSkippable cfg key None then Some VNull else Some VNull)
    with (Some VNull) by (by destruct (isSkippable cfg key None)).
  destruct (dropPendingMerge_frame key s) as (Hc & Hs & _ & _).
  rewrite Hc. destruct (cache s !! key) as [e|] eqn:He.
  - rewrite bool_decide_eq_false_2 by done. cbn [andb].
    assert (isCompatible (checkCompatibilityWithExistingValue (Some VNull) (Some e)) = true)
      as -> by (by destruct e).
    cbn. rewrite !lookup_delete_eq. by split.
  - rewrite bool_decide_eq_true_2 by done. cbn.
    rewrite Hc, He. split; [done|]. by intros [? ?].
Qed.

(** ** Frame facts for [set] and [merge] *)

Lemma removeNestedNullValues_not_null x :
  isNull x = false -> isNull (removeNestedNullValues x) = false.
Proof. by destruct x. Qed.

Lemma merge_frame cfg key changes s :
  cache (merge cfg key changes s).2 = cache s
  /\ storage (merge cfg key changes s).2 = storage s.
Proof.
  unfold merge, OnyxUtils_get.
  destruct (if isSkippable cfg key None then None else changes); cbn;
    destruct (mergeQueue s !! key); cbn; try done.
  by destruct (cache s !! key).
Qed.

Lemma set_mergeQueue cfg key v s :
  mergeQueue (set cfg key v s).2 = delete key (mergeQueue s).
Proof.
  rewrite <- dropPendingMerge_queue. unfold set.
  generalize (dropPendingMerge key s). intros s0.
  destruct (if isSkippable cfg key None then Some VNull else v) as [x|]; [|done].
  destruct (bool_decide (cache s0 !! key = None) && isNull x); [done|].
  destruct (negb _); [done|].
  destruct x; cbn; try done;
    match goal with |- context [hasValueChanged ?k ?w ?st] =>
      destruct (hasValueChanged k w st) end; done.
Qed.

(** The cache and the storage [set] leaves depend on the cache and the
    storage it starts from only. *)
Lemma set_cache_storage_ext cfg key v s s' :
  cache s = cache s' -> storage s = storage s' ->
  (set cfg key v s).1 = (set cfg key v s').1
  /\ cache (set cfg key v s).2 = cache (set cfg key v s').2
  /\ storage (set cfg key v s).2 = storage (set cfg key v s').2.
Proof.
  intros Hc Hs. unfold set.
  destruct (dropPendingMerge_frame key s) as (Hc1 & Hs1 & _ & _).
  destruct (dropPendingMerge_frame key s') as (Hc2 & Hs2 & _ & _).
  rewrite <- Hc1 in Hc. rewrite <- Hc2 in Hc.
  rewrite <- Hs1 in Hs. rewrite <- Hs2 in Hs.
  generalize dependent (dropPendingMerge key s').
  generalize dependent (dropPendingMerge key s).
  intros s0 _ _ t0 Hc Hs _ _.
  destruct (if isSkippable cfg key None then Some VNull else v) as [x|]; [|done].
  rewrite <- Hc.
  destruct (bool_decide (cache s0 !! key = None) && isNull x); [done|].
  destruct (negb _); [done|].
  assert (Hhc : forall w, hasValueChanged key w s0 = hasValueChanged key w t0).
  { intros w. unfold hasValueChanged. by rewrite Hc. }
  destruct x; cbn; rewrite <- ?Hhc, <- ?Hc, <- ?Hs; try done;
    match goal with |- context [hasValueChanged ?k ?w ?st] =>
      destruct (hasValueChanged k w st) end; cbn; rewrite <- ?Hc, <- ?Hs; done.
Qed.

(** A [set] that goes through: the value, with its nested nulls removed, is
    what the cache and the storage hold afterwards. *)
Lemma set_writes cfg key x s :
  isSkippable cfg key None = false ->
  isNull x = false ->
  isCompatible (checkCompatibilityWithExistingValue (Some x) (cache s !! key)) = true ->
  hasValueChanged key (Some (removeNestedNullValues x)) s = true ->
  let r := set cfg key (Some x) s in
  r.1 = StoragePromise
  /\ cache r.2 !! key = Some (removeNestedNullValues x)
  /\ storage r.2 !! key = Some (removeNestedNullValues x).
Proof.
  intros Hskip Hnull Hcompat Hchanged. cbv zeta. unfold set. rewrite Hskip.
  destruct (dropPendingMerge_frame key s) as (Hc & Hs & _ & _).
  assert (Hhc : hasValueChanged key (Some (removeNestedNullValues x))
                  (dropPendingMerge key s) = true).
  { unfold hasValueChanged in *. by rewrite Hc. }
  generalize dependent (dropPendingMerge key s). intros s0 Hc _ Hhc.
  rewrite Hc, Hnull, andb_false_r, Hcompat. cbn [negb].
  pose proof (removeNestedNullValues_not_null x Hnull) as Hnn.
  destruct x; try discriminate Hnull; cbn [removeNullValues];
    rewrite Hhc; cbn; unfold storePut; try rewrite Hnn; cbn;
    by rewrite !lookup_insert_eq.
Qed.

(** ** C2: a [set] after a queued [merge] *)

(** C2, as stated, fails on its last clause: with [{a: 1}] cached for [k],
    [merge("k", {b: 2})] followed by [set("k", [1])] drops the queue entry,
    but the [set] itself is incompatible with the cached object and is
    dropped; once the fold has run, the stored value is still [{a: 1}], not
    the array. *)
Lemma set_after_merge_not_stored :
  let s := storeOf [("k", VObj [("a", VNum 1)])] in
  let s1 := (merge cfgReports "k" (Some (VObj [("b", VNum 2)])) s).2 in
  let s2 := (set cfgReports "k" (Some (VArr [VNum 1])) s1).2 in
  let s3 := (mergeFold "k" (Some (VObj [("a", VNum 1)])) s2).2 in
  mergeQueue s1 !! "k" = Some [VObj [("b", VNum 2)]]
  /\ mergeQueue s2 !! "k" = None
  /\ storage s3 !! "k" = Some (VObj [("a", VNum 1)])
  /\ storage s3 !! "k" <> Some (VArr [VNum 1]).
Proof. vm_compute. repeat split; done. Qed.

(** C2 (amended): a [set(K, v)] issued after [merge(K, d1)] was queued and
    before its fold has run deletes the merge-queue entry of K; the fold,
    finding no entry after its read, resolves and does nothing: no cache
    update, no subscriber broadcast, no storage write.  This holds whether
    the read of the merge was served from the cache or went to storage, and
    whether a storage read completed before or after the [set].  The final
    stored value of K is [v] (its nested nulls removed) when K is not a
    skippable member and [v] is defined, not [null], compatible with the
    value cached when the [set] runs and different from it. *)
Theorem set_cancels_queued_merge cfg key d1 v val (before after : bool) s :
  let s1 := (merge cfg key (Some d1) s).2 in
  let s1' := if before then OnyxUtils_getThen key val s1 else s1 in
  let s2 := (set cfg key v s1').2 in
  let s3 := if after then OnyxUtils_getThen key val s2 else s2 in
  mergeQueue s2 !! key = None
  /\ mergeFold key val s3 = (Resolved, s3)
  /\ storage s3 = storage s2
  /\ trace s3 = trace s2
  /\ (forall x,
        v = Some x ->
        isSkippable cfg key None = false ->
        isNull x = false ->
        isCompatible (checkCompatibilityWithExistingValue (Some x) (cache s1' !! key)) = true ->
        hasValueChanged key (Some (removeNestedNullValues x)) s1' = true ->
        storage (mergeFold key val s3).2 !! key = Some (removeNestedNullValues x)).
Proof.
  cbv zeta.
  set (s1' := if before then _ else _).
  set (s2 := (set cfg key v s1').2).
  set (s3 := if after then _ else _).
  assert (Hq : mergeQueue s2 !! key = None).
  { subst s2. by rewrite set_mergeQueue, lookup_delete_eq. }
  assert (Hs3 : mergeQueue s3 = mergeQueue s2 /\ storage s3 = storage s2
                /\ trace s3 = trace s2).
  { subst s3. by destruct after. }
  destruct Hs3 as (Hq3 & Hst3 & Htr3).
  assert (Hfold : mergeFold key val s3 = (Resolved, s3)).
  { unfold mergeFold. by rewrite Hq3, Hq. }
  repeat split; try done.
  intros x -> Hskip Hnull Hcompat Hchanged.
  rewrite Hfold. cbn [snd]. rewrite Hst3. subst s2.
  by apply set_writes.
Qed.

Lemma set_cancels_queued_merge_witness :
  let s := {| cache := ∅; storage := {["k" := VObj [("a", VNum 1)]]};
              mergeQueue := ∅; mergeQueuePromise := ∅; trace := [] |} in
  let v := VObj [("z", VNum 9)] in
  let read := Some (VObj [("a", VNum 1)]) in
  let s2 := (set cfgReports "k" (Some v) (merge cfgReports "k" (Some (VObj [("x", VNum 1)])) s).2).2 in
  let s3 := OnyxUtils_getThen "k" read s2 in
  mergeQueue s2 !! "k" = None
  /\ mergeFold "k" read s3 = (Resolved, s3)
  /\ storage (mergeFold "k" read s3).2 !! "k" = Some v.
Proof.
  destruct (set_cancels_queued_merge cfgReports "k" (VObj [("x", VNum 1)])
              (Some (VObj [("z", VNum 9)])) (Some (VObj [("a", VNum 1)])) false true
              {| cache := ∅; storage := {["k" := VObj [("a", VNum 1)]]};
                 mergeQueue := ∅; mergeQueuePromise := ∅; trace := [] |})
    as (Hq & Hfold & _ & _ & Hstored).
  cbv zeta. split; [exact Hq|]. split; [exact Hfold|].
  apply (Hstored (VObj [("z", VNum 9)])); reflexivity.
Defined.

(** ** The fold of a merge queue *)

Lemma applyMerge_single_not_null base b :
  isNull b = false ->
  exists p, applyMerge base [b] true = Some p /\ isNull p = false.
Proof.
  intros Hb. unfold applyMerge. cbn [fold_left].
  destruct b; try discriminate Hb; cbn; eauto.
Qed.

Lemma applyMerge_nonempty (changes : list value) base strip :
  changes <> [] -> is_Some (applyMerge base changes strip).
Proof.
  unfold applyMerge. revert base.
  induction changes as [|c cs IH]; intros base Hne; [done|].
  cbn [fold_left]. destruct cs as [|c' cs].
  - cbn. destruct c; cbn; eauto.
  - apply IH. done.
Qed.

Lemma incompatibleAlerts_are_logs key existingValue queue :
  Forall (fun e => isStorageRead e = false /\ isStorageWrite e = false)
    (incompatibleAlerts key existingValue queue).
Proof.
  unfold incompatibleAlerts. induction queue as [|c cs IH]; cbn; [constructor|].
  destruct (isCompatible (checkCompatibilityWithExistingValue (Some c) existingValue));
    cbn; [done|]. by constructor.
Qed.

Lemma countEvents_app p es es' :
  countEvents p (es ++ es') = countEvents p es + countEvents p es'.
Proof. unfold countEvents. by rewrite filter_app, length_app. Qed.

Lemma countEvents_none p es :
  Forall (fun e => p e = false) es -> countEvents p es = 0.
Proof.
  unfold countEvents. induction 1 as [|e es He _ IH]; [done|].
  rewrite filter_cons. destruct (decide (p e = true)) as [Hp|_]; [congruence|done].
Qed.

(** What the fold of a queue adds to the trace: the alerts, then no storage
    read and at most one storage write, which is the removal of the key or
    the [mergeItem] of the batched delta. *)
Lemma mergeFold_calls key existingValue s queue :
  mergeQueue s !! key = Some queue ->
  let valid := filter (fun c => compatibleWith existingValue c = true) queue in
  let batched := applyMerge None valid false in
  let shouldSet := shouldSetValue existingValue queue in
  let preMerged :=
    applyMerge (if shouldSet then None else existingValue) (option_list batched) true in
  exists es,
    trace (mergeFold key existingValue s).2
    = trace s ++ incompatibleAlerts key existingValue queue ++ es
    /\ countEvents isStorageRead es = 0
    /\ (filter (fun e => isStorageWrite e = true) es = []
        \/ filter (fun e => isStorageWrite e = true) es = [StorageRemoveItem key]
        \/ filter (fun e => isStorageWrite e = true) es
           = [StorageMergeItem key batched preMerged shouldSet]).
Proof.
  intros Hq. cbv zeta. unfold mergeFold, writeBatch. rewrite Hq.
  destruct (filter _ queue) as [|c cs] eqn:Hvalid.
  { exists []. cbn. rewrite app_nil_r. split; [done|]. split; [done|]. by left. }
  destruct (applyMerge_nonempty (c :: cs) None false) as [b Hb]; [done|].
  rewrite Hb. destruct (isNull b) eqn:Hnull.
  { destruct b; try discriminate Hnull. cbn.
    eexists. rewrite <- !app_assoc. split; [reflexivity|].
    split; [done|]. right. by left. }
  assert (Hrem : forall st, removeNullValues key (Some b) st
                            = (Some (removeNestedNullValues b), false, st)).
  { intros st. by destruct b. }
  rewrite Hrem.
  match goal with |- context [hasValueChanged ?k ?w ?st] =>
    destruct (hasValueChanged k w st) end; cbn;
    eexists; rewrite <- !app_assoc; (split; [reflexivity|]);
    (split; [done|]); [right; right | left]; done.
Qed.

(** ** C1: merge coalescing *)

Lemma merge_first cfg key d s :
  isSkippable cfg key None = false ->
  mergeQueue s !! key = None ->
  let r := merge cfg key (Some d) s in
  r.1 = Awaits (PendingFold key (getResult key s))
  /\ mergeQueue r.2 = <[key := [d]]> (mergeQueue s)
  /\ trace r.2 = trace (OnyxUtils_get key s)
  /\ cache r.2 = cache s /\ storage r.2 = storage s.
Proof.
  intros Hskip Hq. cbv zeta. unfold merge. rewrite Hskip, Hq. cbn.
  unfold OnyxUtils_get. cbn. by destruct (cache s !! key).
Qed.

Lemma merge_append cfg key d s queue :
  isSkippable cfg key None = false ->
  mergeQueue s !! key = Some queue ->
  merge cfg key (Some d) s
  = (MergeQueuePromise key, withMergeQueue (<[key := queue ++ [d]]>) s).
Proof. intros Hskip Hq. unfold merge. by rewrite Hskip, Hq. Qed.

Lemma merges_append cfg key ds : forall s queue,
  isSkippable cfg key None = false ->
  mergeQueue s !! key = Some queue ->
  mergeQueue (merges cfg key ds s) !! key = Some (queue ++ ds)
  /\ trace (merges cfg key ds s) = trace s
  /\ cache (merges cfg key ds s) = cache s
  /\ storage (merges cfg key ds s) = storage s.
Proof.
  induction ds as [|d ds IH]; intros s queue Hskip Hq; cbn.
  - by rewrite app_nil_r.
  - rewrite (merge_append _ _ _ _ _ Hskip Hq). cbn [snd].
    destruct (IH (withMergeQueue (<[key := queue ++ [d]]>) s) (queue ++ [d]) Hskip)
      as (Hq' & Ht & Hc & Hs).
    { cbn. by rewrite lookup_insert_eq. }
    by rewrite <- app_assoc in Hq'.
Qed.

Lemma OnyxUtils_get_reads key s :
  exists reads,
    trace (OnyxUtils_get key s) = trace s ++ reads
    /\ countEvents isStorageRead reads <= 1
    /\ countEvents isStorageWrite reads = 0.
Proof.
  unfold OnyxUtils_get. destruct (cache s !! key).
  - exists []. rewrite app_nil_r. repeat split; cbn; lia.
  - exists [StorageGetItem key]. repeat split; vm_compute; lia.
Qed.

(** C1: merges of one key made while its fold is pending go to one queue, in
    program order: from a store with no queue entry for K, the first
    [merge(K, d1)] starts the single read and every later [merge(K, d)]
    only appends, so the queue is [d1; d2; ...]; the whole fold makes at most
    one storage read and at most one storage write, and a [mergeItem] it
    issues carries the in-order fold of the compatible deltas against the
    one value read.  In scenario S1 the trace holds exactly one
    [Storage.mergeItem], with delta [{x: 3, y: 2}], and the cached value is
    [{x: 3, y: 2}]. *)
Theorem merge_coalescing cfg key d1 ds existingValue s :
  isSkippable cfg key None = false ->
  mergeQueue s !! key = None ->
  let first := merge cfg key (Some d1) s in
  let queued := merges cfg key ds first.2 in
  let r := mergeFold key existingValue queued in
  let valid := filter (fun c => compatibleWith existingValue c = true) (d1 :: ds) in
  let batched := applyMerge None valid false in
  let shouldSet := shouldSetValue existingValue (d1 :: ds) in
  let preMerged :=
    applyMerge (if shouldSet then None else existingValue) (option_list batched) true in
  first.1 = Awaits (PendingFold key (getResult key s))
  /\ mergeQueue queued !! key = Some (d1 :: ds)
  /\ (exists reads es,
        trace queued = trace s ++ reads
        /\ trace r.2 = trace s ++ reads ++ es
        /\ countEvents isStorageRead (reads ++ es) <= 1
        /\ countEvents isStorageWrite (reads ++ es) <= 1
        /\ forall k delta pre b,
             StorageMergeItem k delta pre b ∈ reads ++ es ->
             k = key /\ delta = batched /\ pre = preMerged /\ b = shouldSet)
  /\ (scenarioS1.1 = StoragePromise
      /\ filter (fun e => isStorageWrite e = true) (trace scenarioS1.2)
         = [StorageMergeItem "a"
              (Some (VObj [("x", VNum 3); ("y", VNum 2)]))
              (Some (VObj [("x", VNum 3); ("y", VNum 2)])) true]
      /\ countEvents isStorageRead (trace scenarioS1.2) = 1
      /\ cache scenarioS1.2 !! "a" = Some (VObj [("x", VNum 3); ("y", VNum 2)])).
Proof.
  intros Hskip Hq. cbv zeta.
  destruct (merge_first cfg key d1 s Hskip Hq) as (Hp & Hq1 & Ht1 & _ & _).
  destruct (merges_append cfg key ds (merge cfg key (Some d1) s).2 [d1] Hskip)
    as (HqN & HtN & _ & _).
  { by rewrite Hq1, lookup_insert_eq. }
  cbn [app] in HqN.
  destruct (OnyxUtils_get_reads key s) as (reads & Hreads & Hr1 & Hr0).
  destruct (mergeFold_calls key existingValue _ _ HqN) as (es & Hes & Hes0 & Hes1).
  split; [done|]. split; [done|]. split; [|by vm_compute].
  exists reads, (incompatibleAlerts key existingValue (d1 :: ds) ++ es).
  rewrite Hes, HtN, Ht1, Hreads.
  pose proof (incompatibleAlerts_are_logs key existingValue (d1 :: ds)) as Hlogs.
  assert (Hlr : countEvents isStorageRead (incompatibleAlerts key existingValue (d1 :: ds)) = 0).
  { apply countEvents_none. eapply Forall_impl; [exact Hlogs|]. by intros ? [? ?]. }
  assert (Hlw : countEvents isStorageWrite (incompatibleAlerts key existingValue (d1 :: ds)) = 0).
  { apply countEvents_none. eapply Forall_impl; [exact Hlogs|]. by intros ? [? ?]. }
  split; [done|]. split; [by rewrite <- !app_assoc|].
  rewrite !countEvents_app, Hlr, Hlw, Hes0, Hr0.
  split; [lia|]. split.
  { assert (countEvents isStorageWrite es <= 1); [|lia].
    unfold countEvents. destruct Hes1 as [H|[H|H]]; rewrite H; cbn; lia. }
  intros k delta pre b Hin.
  assert (Hw : StorageMergeItem k delta pre b
               ∈ filter (fun e => isStorageWrite e = true) es).
  { apply list_elem_of_filter. split; [done|].
    apply elem_of_app in Hin as [Hin|Hin].
    - exfalso. assert (Hc : 0 < countEvents isStorageWrite reads); [|lia].
      unfold countEvents.
      assert (Hf : StorageMergeItem k delta pre b
                   ∈ filter (fun e => isStorageWrite e = true) reads)
        by (by apply list_elem_of_filter).
      destruct (filter _ reads); [by apply elem_of_nil in Hf | cbn; lia].
    - apply elem_of_app in Hin as [Hin|Hin]; [|done].
      exfalso. rewrite Forall_forall in Hlogs.
      destruct (Hlogs _ Hin) as [_ Hw]. done. }
  destruct Hes1 as [H|[H|H]]; rewrite H in Hw.
  - by apply elem_of_nil in Hw.
  - apply list_elem_of_singleton in Hw. done.
  - apply list_elem_of_singleton in Hw. by injection Hw as -> -> -> ->.
Qed.

Lemma merge_coalescing_witness :
  mergeQueue (merges cfgReports "a" [VObj [("y", VNum 2)]; VObj [("x", VNum 3)]]
                (merge cfgReports "a" (Some (VObj [("x", VNum 1)])) emptyStore).2) !! "a"
  = Some [VObj [("x", VNum 1)]; VObj [("y", VNum 2)]; VObj [("x", VNum 3)]].
Proof.
  apply (merge_coalescing cfgReports "a" (VObj [("x", VNum 1)])
           [VObj [("y", VNum 2)]; VObj [("x", VNum 3)]] None emptyStore);
    reflexivity.
Defined.

(** ** C4: [shouldSetValue] *)

Lemma existsb_isNull (queue : list value) :
  existsb isNull queue = true <-> VNull ∈ queue.
Proof.
  rewrite existsb_exists. split.
  - intros (x & Hin & Hx). destruct x; try discriminate Hx.
    by apply list_elem_of_In.
  - intros Hin. exists VNull. split; [by apply list_elem_of_In|done].
Qed.

(** C4, as stated, fails on "absent": the flag is
    [!existingValue || mergeQueue[key].includes(null)], and [!existingValue]
    holds for every falsy value.  With [0] read for [k] and the one delta
    [{a: 1}] queued, the value read is not absent and no delta is [null], yet
    [Storage.mergeItem] is passed [shouldSetValue = true]. *)
Lemma fold_shouldSetValue_falsy_scalar :
  let queue := [VObj [("a", VNum 1)]] in
  let existingValue := Some (VNum 0) in
  let s := withMergeQueue (<["k" := queue]>) (storeOf [("k", VNum 0)]) in
  let r := mergeFold "k" existingValue s in
  isAbsent existingValue = false
  /\ existsb isNull queue = false
  /\ filter (fun e => isStorageWrite e = true) (trace r.2)
     = [StorageMergeItem "k" (Some (VObj [("a", VNum 1)]))
          (Some (VObj [("a", VNum 1)])) true].
Proof. vm_compute. done. Qed.

(** C4 (amended): in the fold of a merge queue that has a valid change and
    whose batched delta is not [null], the flag [shouldSetValue] that
    [Storage.mergeItem] is passed is true iff the value read is falsy
    ([undefined], [null], [false], [0] or the empty string) or some queued
    delta is the top-level [null]; the pre-merged value is
    [applyMerge(shouldSetValue ? undefined : existing, [batchedDelta], true)],
    so it starts from scratch when the flag is set; when the value has
    changed, it is what the cache and the storage hold afterwards, and the
    only storage call is
    [Storage.mergeItem(key, batchedDelta, preMerged, shouldSetValue)]. *)
Theorem fold_shouldSetValue key existingValue s queue :
  mergeQueue s !! key = Some queue ->
  let valid := filter (fun c => compatibleWith existingValue c = true) queue in
  valid <> [] ->
  let batched := applyMerge None valid false in
  batched <> Some VNull ->
  let r := mergeFold key existingValue s in
  exists flag : bool,
    (flag = true <-> truthy existingValue = false \/ VNull ∈ queue)
    /\ let preMerged :=
         applyMerge (if flag then None else existingValue) (option_list batched) true in
       hasValueChanged key preMerged s = true ->
       r.1 = StoragePromise
       /\ cache r.2 !! key = preMerged
       /\ storage r.2 !! key = preMerged
       /\ exists es,
            trace r.2 = trace s ++ es
            /\ filter (fun e => isStorageWrite e = true) es
               = [StorageMergeItem key batched preMerged flag].
Proof.
  intros Hq valid Hvalid batched Hbatch r.
  exists (shouldSetValue existingValue queue). split.
  - unfold shouldSetValue. rewrite orb_true_iff, existsb_isNull, negb_true_iff. done.
  - set (shouldSet := shouldSetValue existingValue queue).
    intros preMerged Hchanged. subst r. unfold mergeFold, writeBatch. rewrite Hq.
    fold valid. destruct valid as [|c cs] eqn:Hv; [done|].
    fold batched. fold shouldSet.
    destruct (applyMerge_nonempty (c :: cs) None false) as [b Hb]; [done|].
    fold batched in Hb.
    assert (Hnull : isNull b = false).
    { destruct b; done. }
    assert (Hrem : forall st, removeNullValues key batched st
                              = (Some (removeNestedNullValues b), false, st)).
    { intros st. rewrite Hb. by destruct b. }
    rewrite Hrem. fold preMerged.
    assert (Hhc : forall st, cache st = cache s ->
                             hasValueChanged key preMerged st = true).
    { intros st Hst. unfold hasValueChanged in *. by rewrite Hst. }
    rewrite Hhc by done. cbn [negb].
    destruct (applyMerge_single_not_null
                (if shouldSet then None else existingValue) b Hnull) as (p & Hp & Hpn).
    assert (HpM : preMerged = Some p).
    { subst preMerged. by rewrite Hb. }
    cbn. rewrite HpM. cbn. unfold storePut. rewrite Hpn.
    rewrite !lookup_insert_eq. repeat split.
    eexists. rewrite <- !app_assoc. split; [reflexivity|].
    rewrite filter_app.
    assert (Hal : filter (fun e => isStorageWrite e = true)
                    (incompatibleAlerts key existingValue queue) = []).
    { pose proof (incompatibleAlerts_are_logs key existingValue queue) as Hlogs.
      induction Hlogs as [|e es [_ He] _ IH]; [done|].
      rewrite filter_cons. destruct (decide (isStorageWrite e = true)); [congruence|done]. }
    by rewrite Hal.
Qed.

Lemma fold_shouldSetValue_witness :
  let queue := [VObj [("x", VNum 1)]; VNull; VObj [("y", VNum 2)]] in
  let existingValue := Some (VObj [("w", VNum 0)]) in
  let s := (withMergeQueue (<["a" := queue]>) (storeOf [("a", VObj [("w", VNum 0)])])) in
  let r := mergeFold "a" existingValue s in
  cache r.2 !! "a" = Some (VObj [("y", VNum 2)])
  /\ filter (fun e => isStorageWrite e = true) (trace r.2)
     = [StorageMergeItem "a" (Some (VObj [("y", VNum 2)])) (Some (VObj [("y", VNum 2)])) true].
Proof.
  cbv zeta.
  destruct (fold_shouldSetValue "a" (Some (VObj [("w", VNum 0)]))
              (withMergeQueue
                 (<["a" := [VObj [("x", VNum 1)]; VNull; VObj [("y", VNum 2)]]]>)
                 (storeOf [("a", VObj [("w", VNum 0)])]))
              [VObj [("x", VNum 1)]; VNull; VObj [("y", VNum 2)]])
    as (flag & Hiff & Hwrite); [reflexivity | by vm_compute | by vm_compute |].
  assert (Hflag : flag = true).
  { apply Hiff. right. apply list_elem_of_In. cbn. tauto. }
  subst flag. cbv zeta in Hwrite.
  destruct Hwrite as (_ & Hc & _ & es & Ht & Hes); [reflexivity|].
  split; [exact Hc|]. rewrite Ht. exact Hes.
Defined.

(** ** C7: incompatible updates *)

Lemma shapeMismatch_incompatible x e :
  shapeMismatch x e = true ->
  isCompatible (checkCompatibilityWithExistingValue (Some x) (Some e)) = false
  /\ isNull x = false.
Proof. by destruct x, e. Qed.

Lemma set_incompatible cfg key x s :
  isSkippable cfg key None = false ->
  isCompatible (checkCompatibilityWithExistingValue (Some x) (cache s !! key)) = false ->
  set cfg key (Some x) s
  = (Resolved,
     emit (LogAlert (IncompatibleUpdateAlert key "set"
                       (valueType (cache s !! key)) (valueType (Some x))))
       (dropPendingMerge key s)).
Proof.
  intros Hskip Hcompat. unfold set. rewrite Hskip.
  destruct (dropPendingMerge_frame key s) as (Hc & _).
  rewrite Hc, Hcompat.
  destruct (cache s !! key) as [e|] eqn:He.
  - by rewrite bool_decide_eq_false_2.
  - by destruct x.
Qed.

Lemma writeBatch_ext key existingValue batched shouldSet s s' :
  cache s = cache s' -> storage s = storage s' ->
  (writeBatch key existingValue batched shouldSet s).1
  = (writeBatch key existingValue batched shouldSet s').1
  /\ cache (writeBatch key existingValue batched shouldSet s).2
     = cache (writeBatch key existingValue batched shouldSet s').2
  /\ storage (writeBatch key existingValue batched shouldSet s).2
     = storage (writeBatch key existingValue batched shouldSet s').2.
Proof.
  intros Hc Hs. unfold writeBatch.
  assert (Hhc : forall w, hasValueChanged key w s = hasValueChanged key w s').
  { intros w. unfold hasValueChanged. by rewrite Hc. }
  destruct batched as [[]|]; cbn; rewrite <- ?Hhc, <- ?Hc, <- ?Hs; try done;
    match goal with |- context [hasValueChanged ?k ?w ?st] =>
      destruct (hasValueChanged k w st) end; cbn; rewrite <- ?Hc, <- ?Hs; done.
Qed.

(** The fold of a queue leaves the cache and the storage the fold of its
    compatible changes leaves. *)
Lemma mergeFold_filter key existingValue s queue queue' :
  mergeQueue s !! key = Some queue ->
  filter (fun c => compatibleWith existingValue c = true) queue'
  = filter (fun c => compatibleWith existingValue c = true) queue ->
  existsb isNull queue' = existsb isNull queue ->
  let r := mergeFold key existingValue s in
  let r' := mergeFold key existingValue (withMergeQueue (<[key := queue']>) s) in
  r.1 = r'.1 /\ cache r.2 = cache r'.2 /\ storage r.2 = storage r'.2.
Proof.
  intros Hq Hfilter Hnull. cbv zeta. unfold mergeFold. rewrite Hq. cbn [mergeQueue withMergeQueue].
  rewrite lookup_insert_eq, Hfilter.
  destruct (filter _ queue) as [|c cs]; [done|].
  unfold shouldSetValue. rewrite Hnull.
  by apply writeBatch_ext.
Qed.

Lemma mergeFold_all_incompatible key existingValue s queue :
  mergeQueue s !! key = Some queue ->
  Forall (fun c => compatibleWith existingValue c = false) queue ->
  mergeFold key existingValue s
  = (Resolved, emitAll (incompatibleAlerts key existingValue queue) s).
Proof.
  intros Hq Hall. unfold mergeFold. rewrite Hq.
  assert (filter (fun c => compatibleWith existingValue c = true) queue = []) as ->; [|done].
  clear Hq. induction Hall as [|c cs Hc _ IH]; [done|].
  rewrite filter_cons. destruct (decide (compatibleWith existingValue c = true));
    [congruence|done].
Qed.

Lemma incompatibleAlerts_elem key existingValue queue c :
  c ∈ queue ->
  compatibleWith existingValue c = false ->
  LogAlert (IncompatibleUpdateAlert key "merge"
              (valueType existingValue) (valueType (Some c)))
  ∈ incompatibleAlerts key existingValue queue.
Proof.
  intros Hin Hc. unfold incompatibleAlerts. apply list_elem_of_omap.
  exists c. split; [done|]. unfold compatibleWith in Hc. by rewrite Hc.
Qed.

(** *** Records with one entry per key *)

Lemma objGet_elem {A} k (v : A) (o : list (string * A)) :
  objGet k o = Some v -> (k, v) ∈ o.
Proof.
  induction o as [|[k' v'] o IH]; cbn; [done|].
  destruct (String.eqb k k') eqn:E.
  - apply String.eqb_eq in E as <-. intros [= <-]. left.
  - intros H. right. by apply IH.
Qed.

Lemma objKeys_elem {A} k (v : A) (o : list (string * A)) :
  (k, v) ∈ o -> k ∈ objKeys o.
Proof.
  intros Hin. unfold objKeys. apply list_elem_of_In, in_map_iff.
  exists (k, v). split; [done|]. by apply list_elem_of_In.
Qed.

Lemma objKeys_elem_inv {A} k (o : list (string * A)) :
  k ∈ objKeys o -> exists v, (k, v) ∈ o.
Proof.
  unfold objKeys. intros Hin. apply list_elem_of_In, in_map_iff in Hin.
  destruct Hin as ([k' v] & <- & Hin). exists v. by apply list_elem_of_In.
Qed.

Lemma objGet_None {A} k (o : list (string * A)) :
  k ∉ objKeys o -> objGet k o = None.
Proof.
  induction o as [|[k' v'] o IH]; cbn; [done|].
  intros Hnin. destruct (String.eqb k k') eqn:E.
  - apply String.eqb_eq in E as <-. exfalso. apply Hnin. left.
  - apply IH. intros Hin. apply Hnin. by right.
Qed.

Lemma objGet_NoDup {A} k (v : A) (o : list (string * A)) :
  NoDup (objKeys o) -> (k, v) ∈ o -> objGet k o = Some v.
Proof.
  induction o as [|[k' v'] o IH]; cbn; intros Hnd Hin.
  - by apply elem_of_nil in Hin.
  - apply NoDup_cons in Hnd as [Hk' Hnd].
    apply elem_of_cons in Hin as [[= <- <-]|Hin].
    + by rewrite String.eqb_refl.
    + destruct (String.eqb k k') eqn:E; [|by apply IH].
      apply String.eqb_eq in E as <-. exfalso. apply Hk'.
      by eapply objKeys_elem.
Qed.

(** A fold over the pairs of a record leaves the entry of a key that is not
    among them as it was. *)
Lemma fold_pairs_frame {A B}
  (f : gmap string A -> string * B -> gmap string A) (pairs : list (string * B)) key :
  (forall m kv, kv.1 <> key -> f m kv !! key = m !! key) ->
  key ∉ objKeys pairs ->
  forall m, fold_left f pairs m !! key = m !! key.
Proof.
  intros Hf. induction pairs as [|[k v] pairs IH]; cbn; intros Hnin m; [done|].
  rewrite IH.
  - apply Hf. cbn. intros ->. apply Hnin. left.
  - intros Hin. apply Hnin. by right.
Qed.

Lemma storePut_ne key k v (m : gmap string value) :
  k <> key -> storePut k v m !! key = m !! key.
Proof.
  intros Hne. unfold storePut.
  destruct (isNull v); [by rewrite lookup_delete_ne | by rewrite lookup_insert_ne].
Qed.

Lemma storePutOpt_ne key k v (m : gmap string value) :
  k <> key -> storePutOpt k v m !! key = m !! key.
Proof. intros Hne. destruct v; cbn; [by apply storePut_ne | done]. Qed.

Lemma Storage_multiSet_frame pairs key s :
  key ∉ objKeys pairs ->
  storage (Storage_multiSet pairs s) !! key = storage s !! key
  /\ cache (Storage_multiSet pairs s) = cache s.
Proof.
  intros Hnin. split; [|done]. cbn.
  apply fold_pairs_frame; [|done]. intros m kv Hne. by apply storePut_ne.
Qed.

Lemma Storage_multiMerge_frame pairs key s :
  key ∉ objKeys pairs ->
  storage (Storage_multiMerge pairs s) !! key = storage s !! key
  /\ cache (Storage_multiMerge pairs s) = cache s.
Proof.
  intros Hnin. split; [|done]. cbn.
  apply fold_pairs_frame; [|done]. intros m kv Hne. by apply storePutOpt_ne.
Qed.

Lemma cacheMerge_frame data key s :
  key ∉ objKeys data ->
  cache (cacheMerge data s) !! key = cache s !! key
  /\ storage (cacheMerge data s) = storage s.
Proof.
  intros Hnin. split; [|done]. cbn.
  apply fold_pairs_frame; [|done]. intros m kv Hne.
  destruct (applyMergeStep true (m !! kv.1) kv.2); [by rewrite lookup_insert_ne | done].
Qed.

Lemma keyValuePairs_keys data b :
  objKeys (keyValuePairs data b) = objKeys data.
Proof.
  unfold keyValuePairs, objKeys. rewrite map_map. by apply map_ext.
Qed.

Lemma getCachedCollection_get key keys s :
  objGet key (getCachedCollection keys s)
  = if decide (key ∈ keys) then cache s !! key else None.
Proof.
  unfold getCachedCollection. induction keys as [|k keys IH]; cbn.
  - by rewrite decide_False by apply not_elem_of_nil.
  - destruct (cache s !! k) as [v|] eqn:Hk; cbn.
    + destruct (String.eqb key k) eqn:E.
      * apply String.eqb_eq in E as ->. rewrite decide_True by left. done.
      * apply String.eqb_neq in E. rewrite IH.
        destruct (decide (key ∈ keys)) as [Hin|Hnin].
        -- by rewrite decide_True by (by right).
        -- rewrite decide_False; [done|]. by intros [?|?]%elem_of_cons.
    + rewrite IH. destruct (decide (key ∈ keys)) as [Hin|Hnin].
      * by rewrite decide_True by (by right).
      * destruct (decide (key ∈ k :: keys)) as [[->|?]%elem_of_cons|]; done.
Qed.

(** *** Traces only grow *)

Lemma extends_refl s : extends s s.
Proof. by unfold extends. Qed.

Lemma extends_trans s1 s2 s3 : extends s1 s2 -> extends s2 s3 -> extends s1 s3.
Proof. unfold extends. by etrans. Qed.

Lemma extends_same_trace s s' : trace s' = trace s -> extends s s'.
Proof. unfold extends. by intros ->. Qed.

Lemma extends_emit e s : extends s (emit e s).
Proof. unfold extends. cbn. by apply prefix_app_r. Qed.

Lemma extends_emitAll es s : extends s (emitAll es s).
Proof. unfold extends. cbn. by apply prefix_app_r. Qed.

Lemma extends_elem e s s' : extends s s' -> e ∈ trace s -> e ∈ trace s'.
Proof. intros [k ->] Hin. apply elem_of_app. by left. Qed.

Lemma extends_fold {A} (f : Store -> A -> Store) (l : list A) :
  (forall s a, extends s (f s a)) ->
  forall s, extends s (fold_left f l s).
Proof.
  intros Hf. induction l as [|a l IH]; intros s; cbn; [apply extends_refl|].
  eapply extends_trans; [apply Hf | apply IH].
Qed.

Lemma extends_remove key s : extends s (remove key s).
Proof. unfold extends. cbn. rewrite <- app_assoc. by apply prefix_app_r. Qed.

Lemma extends_OnyxUtils_get key s : extends s (OnyxUtils_get key s).
Proof.
  unfold OnyxUtils_get. destruct (cache s !! key);
    [apply extends_refl | apply extends_emit].
Qed.

Lemma extends_dropPendingMerge key s : extends s (dropPendingMerge key s).
Proof. apply extends_same_trace. apply dropPendingMerge_frame. Qed.

Lemma extends_writeBatch key existingValue batched shouldSet s :
  extends s (writeBatch key existingValue batched shouldSet s).2.
Proof.
  unfold writeBatch, extends.
  destruct batched as [[]|]; cbn;
    try match goal with |- context [hasValueChanged ?k ?w ?st] =>
      destruct (hasValueChanged k w st) end; cbn;
    rewrite <- ?app_assoc; by apply prefix_app_r.
Qed.

Lemma extends_set cfg key v s : extends s (set cfg key v s).2.
Proof.
  unfold set. eapply extends_trans; [apply (extends_dropPendingMerge key)|].
  generalize (dropPendingMerge key s). intros s0.
  destruct (if isSkippable cfg key None then Some VNull else v) as [x|];
    [|apply extends_refl].
  destruct (bool_decide (cache s0 !! key = None) && isNull x); [apply extends_refl|].
  destruct (negb _); [apply extends_emit|].
  unfold extends.
  destruct x; cbn;
    try match goal with |- context [hasValueChanged ?k ?w ?st] =>
      destruct (hasValueChanged k w st) end; cbn;
    rewrite <- ?app_assoc; by apply prefix_app_r.
Qed.

Lemma extends_merge cfg key changes s : extends s (merge cfg key changes s).2.
Proof.
  unfold merge.
  unfold extends, OnyxUtils_get.
  destruct (if isSkippable cfg key None then None else changes);
    destruct (mergeQueue s !! key); cbn; try done.
  destruct (cache s !! key); cbn; [done | by apply prefix_app_r].
Qed.

Lemma extends_mergeFold key existingValue s : extends s (mergeFold key existingValue s).2.
Proof.
  unfold mergeFold. destruct (mergeQueue s !! key) as [queue|]; [|apply extends_refl].
  destruct (filter _ queue); [apply extends_emitAll|].
  eapply extends_trans; [|apply extends_writeBatch].
  apply (extends_emitAll (incompatibleAlerts key existingValue queue)).
Qed.

Lemma extends_Storage_multiSet pairs s : extends s (Storage_multiSet pairs s).
Proof. unfold extends. cbn. by apply prefix_app_r. Qed.

Lemma extends_Storage_multiMerge pairs s : extends s (Storage_multiMerge pairs s).
Proof. unfold extends. cbn. by apply prefix_app_r. Qed.

Lemma extends_removes (data : object) s :
  extends s (fold_left (fun s kv => if isNull kv.2 then remove kv.1 s else s) data s).
Proof.
  apply extends_fold. intros st kv.
  destruct (isNull kv.2); [apply extends_remove | apply extends_refl].
Qed.

(** Without a [null] entry, the pairs are the entries and nothing is
    removed. *)
Lemma prepare_no_null (data : object) b s :
  Forall (fun kv => isNull kv.2 = false) data ->
  prepareKeyValuePairsForStorage data b s = (keyValuePairs data b, s).
Proof.
  intros Hall. unfold prepareKeyValuePairsForStorage. f_equal.
  - f_equal. revert Hall. induction 1 as [|kv l Hkv Hl IH]; [done|].
    rewrite filter_cons, decide_True by done. by rewrite IH.
  - revert s. induction Hall as [|kv l Hkv Hl IH]; intros s; cbn [fold_left]; [done|].
    by rewrite Hkv.
Qed.

Lemma extends_multiSet cfg data s : extends s (multiSet cfg data s).2.
Proof.
  unfold multiSet, prepareKeyValuePairsForStorage. cbn [snd].
  eapply extends_trans; [|apply extends_emit].
  eapply extends_trans; [|apply extends_Storage_multiSet].
  eapply extends_trans; [apply extends_removes|].
  apply extends_fold. intros st kv.
  eapply extends_trans; [|apply extends_emit].
  eapply extends_trans; [apply (extends_dropPendingMerge kv.1)|].
  by apply extends_same_trace.
Qed.

Lemma extends_mergeCollection cfg ck collection s :
  extends s (mergeCollection cfg ck collection s).2.
Proof.
  unfold mergeCollection.
  destruct (negb (isValidNonEmptyCollectionForMerge collection)); [apply extends_emit|].
  destruct (doAllCollectionItemsBelongToSameParent cfg ck _) as [[[] alerts]|];
    [apply extends_refl | apply extends_emitAll | apply extends_refl].
Qed.

Lemma extends_setCollection cfg ck collection s :
  extends s (setCollection cfg ck collection s).2.
Proof.
  unfold setCollection.
  destruct (doAllCollectionItemsBelongToSameParent cfg ck _) as [[[] alerts]|];
    [apply extends_refl | | apply extends_refl].
  eapply extends_trans; [apply extends_emitAll | apply extends_emit].
Qed.

Lemma extends_invoke cfg c s : extends s (invoke cfg c s).2.
Proof.
  destruct c; cbn [invoke].
  - apply extends_set.
  - apply extends_merge.
  - apply extends_mergeCollection.
  - apply extends_multiSet.
  - apply extends_setCollection.
Qed.

(** *** [mergeCollection] *)

Lemma objKeys_filter_elem {A} (P : string * A -> Prop) `{!forall kv, Decision (P kv)}
  (o : list (string * A)) k :
  NoDup (objKeys o) ->
  k ∈ objKeys (filter P o) <-> exists v, objGet k o = Some v /\ P (k, v).
Proof.
  intros Hnd. split.
  - intros [v Hv]%objKeys_elem_inv. apply list_elem_of_filter in Hv as [HP Hin].
    exists v. split; [by apply objGet_NoDup|done].
  - intros (v & Hv & HP). apply (objKeys_elem k v).
    apply list_elem_of_filter. split; [done|by apply objGet_elem].
Qed.

(** The members kept for the writes of a collection are not [null]. *)
Lemma omap_members_not_null (rc : object) (f : string -> option (string * value))
  (ks : list string) :
  NoDup (objKeys rc) ->
  (forall k, k ∈ ks -> k ∈ objKeys (filter (fun kv => isNull kv.2 = false) rc)) ->
  (forall k p, f k = Some p -> p.1 = k /\ objGet k rc = Some p.2) ->
  Forall (fun kv => isNull kv.2 = false) (omap f ks).
Proof.
  intros Hnd Hks Hf. apply Forall_forall. intros [k v] Hin.
  apply list_elem_of_omap in Hin as (k0 & Hk0 & Hfk).
  destruct (Hf _ _ Hfk) as [Hk Hv]. cbn in Hk, Hv. subst k0.
  apply Hks in Hk0.
  apply (objKeys_filter_elem (fun kv => isNull kv.2 = false) rc k Hnd) in Hk0
    as (w & Hw & Hnull).
  cbn in *. congruence.
Qed.

Lemma remove_members_frame key (rc : object) : forall s,
  (forall v, (key, v) ∈ rc -> isNull v = false) ->
  let s' := fold_left (fun s kv => if isNull kv.2 then remove kv.1 s else s) rc s in
  cache s' !! key = cache s !! key
  /\ storage s' !! key = storage s !! key
  /\ extends s s'.
Proof.
  induction rc as [|[k v] rc IH]; intros s Hkey; cbn [fold_left].
  - repeat split. apply extends_refl.
  - destruct (IH (if isNull v then remove k s else s)) as (Hc & Hs & He).
    { intros w Hw. apply Hkey. by right. }
    cbv zeta in *. cbn [fst snd] in *. rewrite Hc, Hs.
    destruct (isNull v) eqn:Hv.
    + assert (k <> key).
      { intros ->. specialize (Hkey v). rewrite Hkey in Hv; [done|left]. }
      cbn. rewrite !lookup_delete_ne by done. repeat split.
      eapply extends_trans; [apply (extends_remove k)|done].
    + done.
Qed.

Lemma gets_frame keys : forall s,
  let s' := fold_left (fun s key => OnyxUtils_get key s) keys s in
  cache s' = cache s /\ storage s' = storage s /\ extends s s'.
Proof.
  induction keys as [|k keys IH]; intros s; cbn [fold_left].
  - repeat split. apply extends_refl.
  - destruct (IH (OnyxUtils_get k s)) as (Hc & Hs & He). cbv zeta in *.
    rewrite Hc, Hs.
    assert (cache (OnyxUtils_get k s) = cache s /\ storage (OnyxUtils_get k s) = storage s)
      as [-> ->] by (unfold OnyxUtils_get; by destruct (cache s !! k)).
    repeat split.
    eapply extends_trans; [apply (extends_OnyxUtils_get k)|done].
Qed.

(** A member of a merged collection whose value does not fit the cached one
    is left out of every write. *)
Lemma mergeCollectionThen_incompatible ck (rc : object) persistedKeys s key x e :
  NoDup (objKeys rc) ->
  objGet key rc = Some x ->
  key ∈ persistedKeys ->
  cache s !! key = Some e ->
  shapeMismatch x e = true ->
  let r := mergeCollectionThen ck rc persistedKeys s in
  r.1 = StoragePromise
  /\ cache r.2 !! key = Some e
  /\ storage r.2 !! key = storage s !! key
  /\ LogAlert (IncompatibleUpdateAlert key "mergeCollection"
                 (valueType (Some e)) (valueType (Some x))) ∈ trace r.2.
Proof.
  intros Hnd Hx Hpers He Hshape.
  destruct (shapeMismatch_incompatible x e Hshape) as [Hincompat Hnull].
  pose proof (objGet_elem _ _ _ Hx) as Hin.
  unfold mergeCollectionThen. cbv zeta.
  destruct (remove_members_frame key rc s) as (Hc1 & Hs1 & He1).
  { intros v Hv. rewrite (objGet_NoDup _ _ _ Hnd Hv) in Hx. by injection Hx as ->. }
  cbv zeta in Hc1, Hs1, He1.
  set (s1 := fold_left (fun s kv => if isNull kv.2 then remove kv.1 s else s) rc s) in *.
  set (keys := objKeys (filter (fun kv => isNull kv.2 = false) rc)).
  set (existingKeys := filter (fun key => key ∈ persistedKeys) keys).
  assert (Hkeys : key ∈ keys).
  { apply (objKeys_elem key x). by apply list_elem_of_filter. }
  assert (Hexisting : key ∈ existingKeys) by (by apply list_elem_of_filter).
  assert (Hcached : objGet key (getCachedCollection existingKeys s1) = Some e).
  { rewrite getCachedCollection_get, decide_True by done. by rewrite Hc1. }
  assert (Hchecked :
            isCompatible
              (checkCompatibilityWithExistingValue (objGet key rc)
                 (objGet key (getCachedCollection existingKeys s1))) = false).
  { by rewrite Hx, Hcached. }
  set (existingKeyCollection :=
         omap (fun k =>
                 if isCompatible
                      (checkCompatibilityWithExistingValue (objGet k rc)
                         (objGet k (getCachedCollection existingKeys s1)))
                 then (fun v => (k, v)) <$> objGet k rc else None) existingKeys).
  set (newCollection :=
         omap (fun k => if bool_decide (k ∈ persistedKeys) then None
                        else (fun v => (k, v)) <$> objGet k rc) keys).
  assert (Hnot_existing : key ∉ objKeys existingKeyCollection).
  { intros [v Hv]%objKeys_elem_inv.
    apply list_elem_of_omap in Hv as (k & _ & Hk).
    assert (k = key) as ->.
    { destruct (isCompatible _) in Hk; [|done].
      destruct (objGet k rc); [by injection Hk|done]. }
    by rewrite Hchecked in Hk. }
  assert (Hnot_new : key ∉ objKeys newCollection).
  { intros [v Hv]%objKeys_elem_inv.
    apply list_elem_of_omap in Hv as (k & _ & Hk).
    destruct (bool_decide (k ∈ persistedKeys)) eqn:Hkp; [done|].
    apply bool_decide_eq_false in Hkp.
    destruct (objGet k rc); [|done]. injection Hk as Hk _. by subst k. }
  assert (Hnot_final : key ∉ objKeys (existingKeyCollection ++ newCollection)).
  { unfold objKeys. rewrite map_app. intros [?|?]%elem_of_app; done. }
  assert (HEnn : Forall (fun kv => isNull kv.2 = false) existingKeyCollection).
  { apply (omap_members_not_null rc); [done| |].
    - intros k [_ Hk]%list_elem_of_filter. exact Hk.
    - intros k p.
      destruct (isCompatible (checkCompatibilityWithExistingValue (objGet k rc) _)); [|done].
      destruct (objGet k rc); [|done]. by intros [= <-]. }
  assert (HNnn : Forall (fun kv => isNull kv.2 = false) newCollection).
  { apply (omap_members_not_null rc); [done| |].
    - intros k Hk. exact Hk.
    - intros k p. destruct (bool_decide (k ∈ persistedKeys)); [done|].
      destruct (objGet k rc); [|done]. by intros [= <-]. }
  set (alerts := omap _ existingKeys).
  assert (Halert : LogAlert (IncompatibleUpdateAlert key "mergeCollection"
                               (valueType (Some e)) (valueType (Some x))) ∈ alerts).
  { apply list_elem_of_omap. exists key. split; [done|].
    rewrite Hchecked. by rewrite Hx, Hcached. }
  set (s2 := emitAll alerts s1).
  rewrite (prepare_no_null existingKeyCollection false s2 HEnn). cbv beta iota.
  rewrite (prepare_no_null newCollection true s2 HNnn). cbv beta iota.
  destruct (gets_frame existingKeys s2) as (Hc3 & Hs3 & He3). cbv zeta in Hc3, Hs3, He3.
  set (s3 := fold_left (fun s key => OnyxUtils_get key s) existingKeys s2) in *.
  set (pairsExisting := keyValuePairs existingKeyCollection false).
  set (pairsNew := keyValuePairs newCollection true).
  set (s4 := match pairsExisting with [] => s3 | _ => Storage_multiMerge pairsExisting s3 end).
  assert (H4 : cache s4 = cache s3 /\ storage s4 !! key = storage s3 !! key /\ extends s3 s4).
  { subst s4. destruct pairsExisting eqn:Hp; [repeat split; apply extends_refl|].
    rewrite <- Hp. destruct (Storage_multiMerge_frame pairsExisting key s3) as [? ?].
    { subst pairsExisting. by rewrite keyValuePairs_keys. }
    repeat split; try done. apply extends_Storage_multiMerge. }
  destruct H4 as (Hc4 & Hs4 & He4).
  set (s5 := match pairsNew with [] => s4 | _ => Storage_multiSet pairsNew s4 end).
  assert (H5 : cache s5 = cache s4 /\ storage s5 !! key = storage s4 !! key /\ extends s4 s5).
  { subst s5. destruct pairsNew eqn:Hp; [repeat split; apply extends_refl|].
    rewrite <- Hp. destruct (Storage_multiSet_frame pairsNew key s4) as [? ?].
    { subst pairsNew. by rewrite keyValuePairs_keys. }
    repeat split; try done. apply extends_Storage_multiSet. }
  destruct H5 as (Hc5 & Hs5 & He5).
  destruct (cacheMerge_frame (existingKeyCollection ++ newCollection) key s5 Hnot_final)
    as [Hc6 Hs6].
  cbn [fst snd]. split; [done|].
  cbn [cache storage emit].
  rewrite Hc6, Hs6, Hc5, Hs5, Hc4, Hs4, Hc3, Hs3. cbn [cache storage emitAll s2].
  split; [by rewrite Hc1|]. split; [done|].
  cbn [trace emit cacheMerge withCache].
  apply elem_of_app. left. apply elem_of_app. left.
  eapply extends_elem; [exact He5|]. eapply extends_elem; [exact He4|].
  eapply extends_elem; [exact He3|].
  cbn. apply elem_of_app. by right.
Qed.

Lemma existsb_isNull_filter e (queue : list value) :
  existsb isNull (filter (fun c => shapeMismatch c e = false) queue)
  = existsb isNull queue.
Proof.
  induction queue as [|c cs IH]; [done|].
  rewrite filter_cons. destruct (decide (shapeMismatch c e = false)) as [Hc|Hc]; cbn.
  - by rewrite IH.
  - rewrite IH. by destruct c.
Qed.

(** C7, as stated, fails for [set]: the value [set] checks is the cached
    one.  With the object [{a: 1}] held by storage only, [set("k", [1])]
    writes the array to the cache and to storage and logs no alert, where
    the fold of [merge("k", [1])], which checks the value read, logs the
    alert and drops the array.  On a skippable member the value is [null] by
    the time of the check: [set("r_42", [1])] over a cached object removes
    the key. *)
Lemma set_over_stored_object_is_written :
  let s := {| cache := ∅; storage := {["k" := VObj [("a", VNum 1)]]};
              mergeQueue := ∅; mergeQueuePromise := ∅; trace := [] |} in
  shapeMismatch (VArr [VNum 1]) (VObj [("a", VNum 1)]) = true
  /\ (let r := set cfgReports "k" (Some (VArr [VNum 1])) s in
      r.1 = StoragePromise
      /\ cache r.2 !! "k" = Some (VArr [VNum 1])
      /\ storage r.2 !! "k" = Some (VArr [VNum 1])
      /\ trace r.2
         = [LogInfo (SetCalled "k" true);
            ScheduleSubscriberUpdate "k" (Some (VArr [VNum 1])) None;
            StorageSetItem "k" (Some (VArr [VNum 1]));
            SendActionToDevTools SET (Some "k")])
  /\ (let queued := merge cfgReports "k" (Some (VArr [VNum 1])) s in
      let read := Some (VObj [("a", VNum 1)]) in
      let r := mergeFold "k" read (OnyxUtils_getThen "k" read queued.2) in
      r.1 = Resolved
      /\ storage r.2 !! "k" = Some (VObj [("a", VNum 1)])
      /\ trace r.2
         = [StorageGetItem "k";
            LogAlert (IncompatibleUpdateAlert "k" "merge" "object" "array")])
  /\ (let s := storeOf [("r_42", VObj [("a", VNum 1)])] in
      let r := set cfgSkip42 "r_42" (Some (VArr [VNum 1])) s in
      cache r.2 !! "r_42" = None
      /\ storage r.2 !! "r_42" = None
      /\ trace r.2
         = [ScheduleSubscriberUpdate "r_42" None (Some (VObj [("a", VNum 1)]));
            StorageRemoveItem "r_42"; LogInfo (SetCalled "r_42" true)]).
Proof. vm_compute. done. Qed.

(** C7 (amended): a write whose new value is an array where the value the
    operation checks is a non-array object, or the reverse, is logged at
    alert level and dropped.  [set] checks the cached value, after the
    coercion of a skippable member: on a key that is not a skippable member
    and whose cached value mismatches, it resolves, logs the alert and
    leaves cache and storage as they are.  The fold of a merge queue checks
    the value read: it logs an alert for every such delta and leaves the
    cache and the storage that the fold of the queue without these deltas
    leaves; when every delta is one, it resolves with cache and storage
    unchanged.  [mergeCollection] checks the cached value of a member that
    storage holds: it logs the alert for such a member and leaves its cached
    and stored values as they are, the call still settling with the storage
    calls of the other members. *)
Theorem incompatible_update_dropped :
  (forall cfg key x e s,
     isSkippable cfg key None = false ->
     cache s !! key = Some e ->
     shapeMismatch x e = true ->
     let r := set cfg key (Some x) s in
     r.1 = Resolved /\ cache r.2 = cache s /\ storage r.2 = storage s
     /\ trace r.2
        = trace s ++ [LogAlert (IncompatibleUpdateAlert key "set"
                                  (valueType (Some e)) (valueType (Some x)))])
  /\ (forall key e s queue,
        mergeQueue s !! key = Some queue ->
        let r := mergeFold key (Some e) s in
        let r' :=
          mergeFold key (Some e)
            (withMergeQueue
               (<[key := filter (fun c => shapeMismatch c e = false) queue]>) s) in
        (r.1 = r'.1 /\ cache r.2 = cache r'.2 /\ storage r.2 = storage r'.2)
        /\ (forall c, c ∈ queue -> shapeMismatch c e = true ->
              LogAlert (IncompatibleUpdateAlert key "merge"
                          (valueType (Some e)) (valueType (Some c))) ∈ trace r.2)
        /\ (Forall (fun c => shapeMismatch c e = true) queue ->
              r.1 = Resolved /\ cache r.2 = cache s /\ storage r.2 = storage s))
  /\ (forall cfg ck collection rc persistedKeys s key x e,
        (mergeCollection cfg ck collection s).1 = Awaits (PendingMergeCollection ck rc) ->
        NoDup (objKeys rc) ->
        objGet key rc = Some x ->
        key ∈ persistedKeys ->
        cache s !! key = Some e ->
        shapeMismatch x e = true ->
        let r := mergeCollectionThen ck rc persistedKeys (mergeCollection cfg ck collection s).2 in
        r.1 = StoragePromise
        /\ cache r.2 !! key = Some e
        /\ storage r.2 !! key = storage s !! key
        /\ LogAlert (IncompatibleUpdateAlert key "mergeCollection"
                       (valueType (Some e)) (valueType (Some x))) ∈ trace r.2).
Proof.
  split; [|split].
  - intros cfg key x e s Hskip He Hshape. cbv zeta.
    destruct (shapeMismatch_incompatible x e Hshape) as [Hincompat _].
    rewrite set_incompatible by (by rewrite ?He).
    cbn. rewrite He. by destruct (dropPendingMerge_frame key s) as (-> & -> & _ & ->).
  - intros key e s queue Hq. cbv zeta. split; [|split].
    + apply (mergeFold_filter key (Some e) s queue); [done| |apply existsb_isNull_filter].
      apply list_filter_filter_l. intros c Hc.
      destruct (shapeMismatch c e) eqn:Hm; [|done].
      apply shapeMismatch_incompatible in Hm as [Hm _].
      unfold compatibleWith in Hc. congruence.
    + intros c Hin Hm. apply shapeMismatch_incompatible in Hm as [Hm _].
      assert (Halert := incompatibleAlerts_elem key (Some e) queue c Hin Hm).
      unfold mergeFold. rewrite Hq. destruct (filter _ queue).
      * cbn. apply elem_of_app. by right.
      * eapply extends_elem; [apply extends_writeBatch|].
        cbn. apply elem_of_app. by right.
    + intros Hall. rewrite (mergeFold_all_incompatible key (Some e) s queue Hq); [done|].
      eapply Forall_impl; [exact Hall|]. intros c Hm.
      by apply shapeMismatch_incompatible in Hm as [Hm _].
  - intros cfg ck collection rc persistedKeys s key x e Hsync Hnd Hx Hpers He Hshape.
    assert (Hs : (mergeCollection cfg ck collection s).2 = s).
    { unfold mergeCollection in *.
      destruct (negb (isValidNonEmptyCollectionForMerge collection)); [done|].
      by destruct (doAllCollectionItemsBelongToSameParent cfg ck _) as [[[] alerts]|]. }
    rewrite Hs. by apply mergeCollectionThen_incompatible.
Qed.

Lemma incompatible_update_dropped_witness :
  let s := storeOf [("k", VObj [("a", VNum 1)])] in
  let r := set cfgReports "k" (Some (VArr [VNum 1])) s in
  r.1 = Resolved /\ cache r.2 = cache s /\ storage r.2 = storage s
  /\ trace r.2 = trace s ++ [LogAlert (IncompatibleUpdateAlert "k" "set" "object" "array")].
Proof.
  destruct incompatible_update_dropped as [Hset _].
  apply (Hset cfgReports "k" (VArr [VNum 1]) (VObj [("a", VNum 1)])); reflexivity.
Defined.

(** ** C10: invalid collections *)

(** What the parent check returns when a key does not belong. *)
Lemma parent_check_foreign cfg ck (keys : list string) k :
  k ∈ keys ->
  (if isCollectionKey cfg ck then isKeyMatch ck k else String.eqb ck k) = false ->
  exists alerts,
    doAllCollectionItemsBelongToSameParent cfg ck keys
    = (if development cfg then None else Some (false, alerts))
    /\ LogAlert (CollectionWrongParent ck k) ∈ alerts
    /\ Forall (fun e => exists k', e = LogAlert (CollectionWrongParent ck k')) alerts.
Proof.
  intros Hin Hk. unfold doAllCollectionItemsBelongToSameParent.
  set (foreign := filter _ keys).
  assert (Hf : k ∈ foreign) by (by apply list_elem_of_filter).
  exists (map (fun dataKey => LogAlert (CollectionWrongParent ck dataKey)) foreign).
  split; [|split].
  - destruct foreign; [by apply not_elem_of_nil in Hf | done].
  - apply list_elem_of_fmap. by exists k.
  - apply Forall_forall. intros e (k' & -> & _)%list_elem_of_fmap. by exists k'.
Qed.

(** C10, as stated, fails on "never throws": in development mode the parent
    check throws on a member key that does not belong to the collection key,
    and [mergeCollection] and [setCollection] throw with it instead of
    returning a promise. *)
Lemma parent_check_throws_in_development :
  let collection := [("r_1", VObj [("a", VNum 2)]); ("x_9", VObj [("a", VNum 3)])] in
  let s := storeOf [("r_1", VObj [("a", VNum 1)])] in
  development cfgDevelopment = true
  /\ mergeCollection cfgDevelopment "r_" (VObj collection) s = (Throws, s)
  /\ setCollection cfgDevelopment "r_" collection s = (Throws, s).
Proof. vm_compute. done. Qed.

(** C10 (amended): [mergeCollection] on an input that is not a non-empty
    object returns a resolved promise and logs an info.  [mergeCollection] or
    [setCollection] on a collection with a member key that does not belong to
    the collection key throws in development mode, where the parent check
    throws; otherwise it returns a resolved promise and the failure is only
    logged: the check logs an alert for every such key, and [setCollection]
    one more of its own.  In every case cache, storage and merge queue stay
    as they are. *)
Theorem invalid_collection_is_skipped cfg ck s :
  (forall collection,
     isValidNonEmptyCollectionForMerge collection = false ->
     let r := mergeCollection cfg ck collection s in
     r.1 = Resolved /\ cache r.2 = cache s /\ storage r.2 = storage s
     /\ mergeQueue r.2 = mergeQueue s
     /\ trace r.2 = trace s ++ [LogInfo MergeCollectionSkipped])
  /\ (forall collection k,
        isValidNonEmptyCollectionForMerge collection = true ->
        k ∈ objKeys (members collection) ->
        (if isCollectionKey cfg ck then isKeyMatch ck k else String.eqb ck k) = false ->
        let r := mergeCollection cfg ck collection s in
        cache r.2 = cache s /\ storage r.2 = storage s /\ mergeQueue r.2 = mergeQueue s
        /\ if development cfg then r.1 = Throws /\ trace r.2 = trace s
           else r.1 = Resolved
                /\ exists alerts,
                     trace r.2 = trace s ++ alerts
                     /\ LogAlert (CollectionWrongParent ck k) ∈ alerts
                     /\ Forall (fun e => exists k', e = LogAlert (CollectionWrongParent ck k'))
                          alerts)
  /\ (forall (collection : object) k,
        k ∈ objKeys collection ->
        (if isCollectionKey cfg ck then isKeyMatch ck k else String.eqb ck k) = false ->
        let r := setCollection cfg ck collection s in
        cache r.2 = cache s /\ storage r.2 = storage s /\ mergeQueue r.2 = mergeQueue s
        /\ if development cfg then r.1 = Throws /\ trace r.2 = trace s
           else r.1 = Resolved
                /\ exists alerts,
                     trace r.2
                     = trace s ++ alerts ++ [LogAlert (SetCollectionWrongParent ck)]
                     /\ LogAlert (CollectionWrongParent ck k) ∈ alerts
                     /\ Forall (fun e => exists k', e = LogAlert (CollectionWrongParent ck k'))
                          alerts).
Proof.
  split; [|split].
  - intros collection Hinvalid. cbv zeta. unfold mergeCollection. by rewrite Hinvalid.
  - intros collection k Hvalid Hin Hk. cbv zeta. unfold mergeCollection.
    rewrite Hvalid. cbn [negb].
    destruct (parent_check_foreign cfg ck _ k Hin Hk) as (alerts & -> & Hal & Hall).
    destruct (development cfg); [done|].
    cbn. repeat split; try done. by exists alerts.
  - intros collection k Hin Hk. cbv zeta. unfold setCollection.
    destruct (parent_check_foreign cfg ck _ k Hin Hk) as (alerts & -> & Hal & Hall).
    destruct (development cfg); [done|].
    cbn. repeat split; try done. exists alerts. by rewrite <- app_assoc.
Qed.

Lemma invalid_collection_is_skipped_witness :
  let s := storeOf [("r_1", VObj [("a", VNum 1)])] in
  let collection := [("r_1", VObj [("a", VNum 2)]); ("x_9", VObj [("a", VNum 3)])] in
  mergeCollection cfgReports "r_" (VObj []) s
  = (Resolved, emit (LogInfo MergeCollectionSkipped) s)
  /\ (mergeCollection cfgReports "r_" (VObj collection) s).1 = Resolved
  /\ cache (mergeCollection cfgReports "r_" (VObj collection) s).2 = cache s
  /\ (setCollection cfgReports "r_" collection s).1 = Resolved
  /\ storage (setCollection cfgReports "r_" collection s).2 = storage s.
Proof.
  destruct (invalid_collection_is_skipped cfgReports "r_"
              (storeOf [("r_1", VObj [("a", VNum 1)])])) as (H1 & H2 & H3).
  cbv zeta. split; [|split; [|split; [|split]]].
  - specialize (H1 (VObj []) eq_refl). reflexivity.
  - refine (proj1 (proj2 (proj2 (proj2
              (H2 (VObj [("r_1", VObj [("a", VNum 2)]); ("x_9", VObj [("a", VNum 3)])])
                 "x_9" eq_refl _ eq_refl))))).
    apply list_elem_of_In. cbn. tauto.
  - refine (proj1 (H2 (VObj [("r_1", VObj [("a", VNum 2)]); ("x_9", VObj [("a", VNum 3)])])
                     "x_9" eq_refl _ eq_refl)).
    apply list_elem_of_In. cbn. tauto.
  - refine (proj1 (proj2 (proj2 (proj2
              (H3 [("r_1", VObj [("a", VNum 2)]); ("x_9", VObj [("a", VNum 3)])]
                 "x_9" _ eq_refl))))).
    apply list_elem_of_In. cbn. tauto.
  - refine (proj1 (proj2
              (H3 [("r_1", VObj [("a", VNum 2)]); ("x_9", VObj [("a", VNum 3)])]
                 "x_9" _ eq_refl))).
    apply list_elem_of_In. cbn. tauto.
Defined.

(** ** C3: [clear] *)

Lemma strictEqual_eq a o : strictEqual (Some a) o = true -> o = Some a.
Proof.
  destruct a, o as [[]|]; cbn; try done.
  - intros H. by apply Bool.eqb_prop in H as ->.
  - intros H. by apply Z.eqb_eq in H as ->.
  - intros H. by apply String.eqb_eq in H as ->.
Qed.

Lemma uniqueKeys_elem k keys : forall seen,
  k ∈ uniqueKeys seen keys <-> k ∈ keys /\ k ∉ seen.
Proof.
  induction keys as [|k' keys IH]; intros seen; cbn.
  - split; [by intros ?%elem_of_nil | by intros [?%elem_of_nil _]].
  - destruct (bool_decide (k' ∈ seen)) eqn:Hseen.
    + apply bool_decide_eq_true in Hseen. rewrite IH, elem_of_cons.
      split.
      * intros [? ?]. split; [by right|done].
      * intros [[->|?] ?]; done.
    + apply bool_decide_eq_false in Hseen. rewrite !elem_of_cons, IH, not_elem_of_cons.
      split.
      * intros [->|[? [? ?]]]; [split; [by left|done] | split; [by right|done]].
      * intros [[->|?] ?]; [by left|].
        destruct (decide (k = k')) as [->|?]; [by left | by right].
Qed.

Lemma getAllKeys_elem k s :
  k ∈ getAllKeys s <-> is_Some (cache s !! k) \/ is_Some (storage s !! k).
Proof.
  unfold getAllKeys. by rewrite elem_of_elements, elem_of_union, !elem_of_dom.
Qed.

Lemma clearKey_spec cfg keysToPreserve st key :
  let st' := clearKey cfg keysToPreserve st key in
  cache (clearStore st')
  = (if bool_decide (key ∈ keysToPreserve) then cache (clearStore st)
     else <[key := resetValue cfg key]> (cache (clearStore st)))
  /\ storage (clearStore st') = storage (clearStore st)
  /\ keysToBeClearedFromStorage st'
     = keysToBeClearedFromStorage st
       ++ (if bool_decide (key ∈ keysToPreserve)
              || bool_decide (is_Some (objGet key (defaultKeyStates cfg)))
           then [] else [key]).
Proof.
  cbv zeta. unfold clearKey, resetValue.
  destruct (bool_decide (key ∈ keysToPreserve)); cbn [orb].
  { repeat split. by rewrite app_nil_r. }
  set (newValue := default VNull (objGet key (defaultKeyStates cfg))).
  destruct (strictEqual (Some newValue) (cache (clearStore st) !! key)) eqn:Heq.
  - apply strictEqual_eq in Heq.
    destruct (bool_decide (is_Some _)); cbn; rewrite ?app_nil_r, insert_id; done.
  - destruct (getCollectionKey cfg key) as [collectionKey|];
      [destruct (String.eqb collectionKey "")|];
      destruct (bool_decide (is_Some _)); cbn; by rewrite ?app_nil_r.
Qed.

Lemma clearLoop_spec cfg keysToPreserve keys : forall st,
  let st' := fold_left (clearKey cfg keysToPreserve) keys st in
  (forall k,
     cache (clearStore st') !! k
     = if bool_decide (k ∈ keys /\ k ∉ keysToPreserve)
       then Some (resetValue cfg k) else cache (clearStore st) !! k)
  /\ storage (clearStore st') = storage (clearStore st)
  /\ keysToBeClearedFromStorage st'
     = keysToBeClearedFromStorage st
       ++ (filter (fun k => (k ∉ keysToPreserve) /\ objGet k (defaultKeyStates cfg) = None)
             keys).
Proof.
  induction keys as [|key keys IH]; intros st; cbn [fold_left].
  - split; [|split; [done|by rewrite app_nil_r]].
    intros k. rewrite bool_decide_eq_false_2; [done|]. by intros [?%elem_of_nil _].
  - destruct (IH (clearKey cfg keysToPreserve st key)) as (Hc & Hs & Hk).
    destruct (clearKey_spec cfg keysToPreserve st key) as (Hc1 & Hs1 & Hk1).
    cbv zeta in *. split; [|split].
    + intros k. rewrite Hc, Hc1.
      destruct (decide (k ∈ keys /\ k ∉ keysToPreserve)) as [[Hin Hnp]|Hn].
      * rewrite !bool_decide_eq_true_2; [done| |done]. split; [by right|done].
      * rewrite (bool_decide_eq_false_2 _ Hn).
        destruct (decide (key ∈ keysToPreserve)) as [Hp|Hp].
        -- rewrite (bool_decide_eq_true_2 _ Hp).
           rewrite bool_decide_eq_false_2; [done|].
           intros [[->|?]%elem_of_cons ?]; [done | by apply Hn].
        -- rewrite (bool_decide_eq_false_2 _ Hp).
           destruct (decide (k = key)) as [->|Hne].
           ++ rewrite lookup_insert_eq, bool_decide_eq_true_2; [done|].
              split; [left|done].
           ++ rewrite lookup_insert_ne by done.
              rewrite bool_decide_eq_false_2; [done|].
              intros [[->|?]%elem_of_cons ?]; [done | by apply Hn].
    + by rewrite Hs, Hs1.
    + rewrite Hk, Hk1, <- app_assoc. f_equal. rewrite filter_cons.
      destruct (decide (key ∈ keysToPreserve)) as [Hp|Hp].
      * rewrite (bool_decide_eq_true_2 _ Hp). cbn [orb app].
        rewrite decide_False; [done|]. by intros [? _].
      * rewrite (bool_decide_eq_false_2 _ Hp). cbn [orb].
        destruct (objGet key (defaultKeyStates cfg)) eqn:Hd.
        -- rewrite bool_decide_eq_true_2 by eauto. cbn [app].
           rewrite decide_False; [done|]. by intros [_ ?].
        -- rewrite bool_decide_eq_false_2 by (by intros [? ?]). cbn [app].
           by rewrite decide_True.
Qed.

Lemma emits_frame {A} (f : Store -> A -> event) (l : list A) : forall s,
  cache (fold_left (fun s a => emit (f s a) s) l s) = cache s
  /\ storage (fold_left (fun s a => emit (f s a) s) l s) = storage s.
Proof.
  induction l as [|a l IH]; intros s; cbn [fold_left]; [done|].
  by destruct (IH (emit (f s a) s)) as [-> ->].
Qed.

Lemma fold_delete_lookup {V} (ks : list string) k : forall (m : gmap string V),
  fold_left (fun m k => delete k m) ks m !! k
  = if bool_decide (k ∈ ks) then None else m !! k.
Proof.
  induction ks as [|k' ks IH]; intros m; cbn [fold_left].
  - by rewrite bool_decide_eq_false_2 by apply not_elem_of_nil.
  - rewrite IH. destruct (decide (k ∈ ks)) as [Hin|Hnin].
    + by rewrite !bool_decide_eq_true_2 by (done || by right).
    + rewrite (bool_decide_eq_false_2 _ Hnin).
      destruct (decide (k = k')) as [->|Hne].
      * by rewrite lookup_delete_eq, bool_decide_eq_true_2 by left.
      * rewrite lookup_delete_ne by done.
        rewrite bool_decide_eq_false_2; [done|]. by intros [?|?]%elem_of_cons.
Qed.

Lemma cacheDrops_spec (ks : list string) k : forall s,
  cache (fold_left (fun s key => cacheDrop key s) ks s) !! k
  = (if bool_decide (k ∈ ks) then None else cache s !! k)
  /\ storage (fold_left (fun s key => cacheDrop key s) ks s) = storage s.
Proof.
  intros s.
  assert (H : forall s, cache (fold_left (fun s key => cacheDrop key s) ks s)
                        = fold_left (fun m k => delete k m) ks (cache s)
                        /\ storage (fold_left (fun s key => cacheDrop key s) ks s)
                           = storage s).
  { clear s. induction ks as [|k' ks IH]; intros s; cbn [fold_left]; [done|].
    by destruct (IH (cacheDrop k' s)) as [-> ->]. }
  destruct (H s) as [-> ->]. by rewrite fold_delete_lookup.
Qed.

Lemma nullToUndefined_storePut k v (m : gmap string value) :
  storePut k v m !! k = nullToUndefined v.
Proof.
  unfold storePut, nullToUndefined.
  destruct (isNull v); [by rewrite lookup_delete_eq | by rewrite lookup_insert_eq].
Qed.

Lemma multiSet_lookup (pairs : object) k :
  NoDup (objKeys pairs) ->
  forall m : gmap string value,
    fold_left (fun m kv => storePut kv.1 kv.2 m) pairs m !! k
    = match objGet k pairs with
      | Some v => nullToUndefined v
      | None => m !! k
      end.
Proof.
  induction pairs as [|[k' v] pairs IH]; cbn; intros Hnd m; [done|].
  apply NoDup_cons in Hnd as [Hk' Hnd].
  destruct (String.eqb k k') eqn:E.
  - apply String.eqb_eq in E as <-.
    rewrite fold_pairs_frame; [apply nullToUndefined_storePut| |done].
    intros m' kv Hne. by apply storePut_ne.
  - apply String.eqb_neq in E. rewrite IH by done.
    destruct (objGet k pairs); [done|]. by apply storePut_ne.
Qed.

Lemma objGet_filter_keys (P : string -> Prop) `{!forall k, Decision (P k)}
  (o : object) k :
  objGet k (filter (fun kv => P kv.1) o) = if decide (P k) then objGet k o else None.
Proof.
  induction o as [|[k' v] o IH].
  - cbn. by destruct (decide (P k)).
  - rewrite filter_cons. cbn [fst objGet].
    destruct (decide (P k')) as [Hk'|Hk']; cbn [objGet]; rewrite IH.
    + destruct (String.eqb k k') eqn:E; [|done].
      apply String.eqb_eq in E as ->. by rewrite decide_True.
    + destruct (String.eqb k k') eqn:E; [|done].
      apply String.eqb_eq in E as ->. by rewrite !decide_False.
Qed.

Lemma NoDup_objKeys_filter (P : string * value -> Prop) `{!forall kv, Decision (P kv)}
  (o : object) :
  NoDup (objKeys o) -> NoDup (objKeys (filter P o)).
Proof.
  induction o as [|[k v] o IH]; [done|].
  intros Hnd. change (objKeys ((k, v) :: o)) with (k :: objKeys o) in Hnd.
  apply NoDup_cons in Hnd as [Hk Hnd]. rewrite filter_cons.
  destruct (decide (P (k, v))); [|by apply IH].
  change (objKeys ((k, v) :: filter P o)) with (k :: objKeys (filter P o)).
  apply NoDup_cons. split; [|by apply IH].
  intros [w Hw]%objKeys_elem_inv. apply list_elem_of_filter in Hw as [_ Hw].
  apply Hk. by eapply objKeys_elem.
Qed.

Lemma clearThen_lookup cfg keysToPreserve cachedKeys s k :
  NoDup (objKeys (defaultKeyStates cfg)) ->
  let r := clearThen cfg keysToPreserve cachedKeys s in
  let allKeys := uniqueKeys [] (cachedKeys ++ objKeys (defaultKeyStates cfg)) in
  let cleared :=
    filter (fun k => (k ∉ keysToPreserve) /\ objGet k (defaultKeyStates cfg) = None)
      allKeys in
  cache r.2 !! k
  = (if bool_decide (k ∈ cleared) then None
     else if bool_decide (k ∈ allKeys /\ k ∉ keysToPreserve)
          then Some (resetValue cfg k) else cache s !! k)
  /\ storage r.2 !! k
     = match objGet k (filter (fun kv => kv.1 ∉ keysToPreserve) (defaultKeyStates cfg)) with
       | Some v => nullToUndefined v
       | None => if bool_decide (k ∈ cleared) then None else storage s !! k
       end.
Proof.
  intros Hnd. cbv zeta. unfold clearThen. cbv zeta.
  set (allKeys := uniqueKeys [] (cachedKeys ++ objKeys (defaultKeyStates cfg))).
  destruct (clearLoop_spec cfg keysToPreserve allKeys
              {| clearStore := s; keysToBeClearedFromStorage := [];
                 keyValuesToResetAsCollection := []; keyValuesToResetIndividually := [] |})
    as (Hc & Hs & Hk).
  cbv zeta in Hc, Hs, Hk. cbn [clearStore keysToBeClearedFromStorage app] in Hc, Hs, Hk.
  set (st := fold_left (clearKey cfg keysToPreserve) allKeys _) in *.
  rewrite Hk.
  set (cleared := filter _ allKeys).
  cbn [snd cache storage emit Storage_multiSet Storage_removeItems withStorage].
  match goal with
  | |- context [fold_left (fun s key => cacheDrop key s) cleared ?s0] =>
      destruct (cacheDrops_spec cleared k s0) as [Hd1 Hd2]; rewrite Hd1, Hd2;
      clear Hd1 Hd2
  end.
  match goal with
  | |- context [fold_left ?f (keyValuesToResetAsCollection st) ?s0] =>
      destruct (emits_frame
                  (fun s (kv : string * list (string * option value)) =>
                     ScheduleNotifyCollectionSubscribers kv.1 kv.2 None)
                  (keyValuesToResetAsCollection st) s0) as [He1 He2];
      rewrite He1, He2; clear He1 He2
  end.
  match goal with
  | |- context [fold_left ?f (keyValuesToResetIndividually st) ?s0] =>
      destruct (emits_frame
                  (fun s (kv : string * option value) =>
                     ScheduleSubscriberUpdate kv.1 kv.2 (cache s !! kv.1))
                  (keyValuesToResetIndividually st) s0) as [He1 He2];
      rewrite He1, He2; clear He1 He2
  end.
  rewrite Hc, Hs. split; [done|].
  rewrite multiSet_lookup by (by apply NoDup_objKeys_filter).
  by rewrite fold_delete_lookup.
Qed.



(** ** C5: the collections of an [update] *)

Lemma objSet_fresh {A} k (v : A) (o : list (string * A)) :
  k ∉ objKeys o -> objSet k v o = o ++ [(k, v)].
Proof.
  induction o as [|[k' v'] o IH]; cbn; [done|].
  intros Hnin. destruct (String.eqb k k') eqn:E.
  - apply String.eqb_eq in E as ->. exfalso. apply Hnin. left.
  - rewrite IH; [done|]. intros Hin. apply Hnin. by right.
Qed.

Lemma objDelete_filter {A} k (o : list (string * A)) :
  objDelete k o = filter (fun kv => kv.1 <> k) o.
Proof.
  induction o as [|[k' v'] o IH]; [done|].
  rewrite filter_cons. cbn. destruct (String.eqb k k') eqn:E.
  - apply String.eqb_eq in E as ->. by rewrite decide_False by (by intros ?).
  - apply String.eqb_neq in E. rewrite decide_True by (by intros ->). by rewrite IH.
Qed.

Lemma objGet_objDelete_ne {A} k k' (o : list (string * A)) :
  k <> k' -> objGet k (objDelete k' o) = objGet k o.
Proof.
  intros Hne. induction o as [|[k'' v] o IH]; cbn; [done|].
  destruct (String.eqb k' k'') eqn:E.
  - apply String.eqb_eq in E as <-. rewrite IH.
    by apply String.eqb_neq in Hne as ->.
  - cbn. by rewrite IH.
Qed.

Lemma objDeletes_filter {A} (ks : list string) : forall (o : list (string * A)),
  fold_left (fun q k => objDelete k q) ks o = filter (fun kv => kv.1 ∉ ks) o.
Proof.
  induction ks as [|k ks IH]; intros o; cbn [fold_left].
  - induction o as [|kv o IHo]; [done|].
    rewrite filter_cons, decide_True by apply not_elem_of_nil. by rewrite <- IHo.
  - rewrite IH, objDelete_filter, list_filter_filter.
    apply list_filter_iff. intros kv. rewrite not_elem_of_cons. tauto.
Qed.

Lemma filter_ext_elem {A} (P Q : A -> Prop)
  `{!forall x, Decision (P x), !forall x, Decision (Q x)} (l : list A) :
  (forall x, x ∈ l -> P x <-> Q x) -> filter P l = filter Q l.
Proof.
  induction l as [|x l IH]; intros Hext; [done|].
  rewrite !filter_cons.
  rewrite IH by (intros y Hy; apply Hext; by right).
  destruct (decide (P x)) as [Hp|Hp], (decide (Q x)) as [Hq|Hq]; try done;
    exfalso; apply (Hext x) in Hp || apply (Hext x) in Hq; try done; left.
Qed.

Lemma omap_ext_elem {A B} (f g : A -> option B) (l : list A) :
  (forall x, x ∈ l -> f x = g x) -> omap f l = omap g l.
Proof.
  induction l as [|x l IH]; intros Hext; cbn; [done|].
  rewrite (Hext x) by left. rewrite IH; [done|].
  intros y Hy. apply Hext. by right.
Qed.

Lemma batchCollectionKey_spec (q : updateQueue) batched key :
  key ∉ objKeys (mergePart batched) ->
  key ∉ objKeys (setPart batched) ->
  batchCollectionKey (q, batched) key
  = (objDelete key q,
     {| mergePart := mergePart batched ++ membersToMerge q [key];
        setPart := setPart batched ++ membersToSet q [key] |}).
Proof.
  intros Hm Hs. unfold batchCollectionKey, membersToMerge, membersToSet.
  cbn [omap list_omap].
  destruct (objGet key q) as [operations|]; cbn [default from_option id].
  - destruct operations as [|op operations].
    + cbn. rewrite !app_nil_r. by destruct batched.
    + destruct (applyMerge_nonempty (op :: operations) None false) as [u Hu]; [done|].
      rewrite Hu.
      destruct op; rewrite ?Hu; cbn [fmap option_fmap option_map];
        rewrite ?app_nil_r, objSet_fresh by done; done.
  - cbn. rewrite !app_nil_r. by destruct batched.
Qed.

Lemma membersToMerge_keys (q : updateQueue) keys k v :
  (k, v) ∈ membersToMerge q keys -> k ∈ keys.
Proof.
  unfold membersToMerge. intros (k' & Hk' & Hf)%list_elem_of_omap.
  destruct (objGet k' q) as [[|[] ?]|]; try done;
    apply fmap_Some in Hf as (u & _ & [= -> _]); done.
Qed.

Lemma membersToSet_keys (q : updateQueue) keys k v :
  (k, v) ∈ membersToSet q keys -> k ∈ keys.
Proof.
  unfold membersToSet. intros (k' & Hk' & Hf)%list_elem_of_omap.
  destruct (objGet k' q) as [[|[] ?]|]; try done;
    apply fmap_Some in Hf as (u & _ & [= -> _]); done.
Qed.

Lemma batchCollectionKeys_spec (keys : list string) : forall (q : updateQueue) batched,
  NoDup keys ->
  (forall k, k ∈ keys ->
             (k ∉ objKeys (mergePart batched)) /\ (k ∉ objKeys (setPart batched))) ->
  fold_left batchCollectionKey keys (q, batched)
  = (fold_left (fun q k => objDelete k q) keys q,
     {| mergePart := mergePart batched ++ membersToMerge q keys;
        setPart := setPart batched ++ membersToSet q keys |}).
Proof.
  induction keys as [|key keys IH]; intros q batched Hnd Hfresh; cbn [fold_left].
  - unfold membersToMerge, membersToSet. cbn. rewrite !app_nil_r. by destruct batched.
  - apply NoDup_cons in Hnd as [Hkey Hnd].
    destruct (Hfresh key) as [Hm Hs]; [left|].
    rewrite (batchCollectionKey_spec q batched key Hm Hs).
    rewrite IH; [|done|].
    + cbn [mergePart setPart]. rewrite <- !app_assoc. f_equal. f_equal.
      * f_equal. unfold membersToMerge at 3.
        rewrite (omap_app _ [key] keys). fold (membersToMerge q [key]).
        f_equal. apply omap_ext_elem. intros k Hk.
        rewrite objGet_objDelete_ne; [done|]. by intros ->.
      * f_equal. unfold membersToSet at 3.
        rewrite (omap_app _ [key] keys). fold (membersToSet q [key]).
        f_equal. apply omap_ext_elem. intros k Hk.
        rewrite objGet_objDelete_ne; [done|]. by intros ->.
    + intros k Hk. cbn [mergePart setPart].
      destruct (Hfresh k) as [Hkm Hks]; [by right|].
      unfold objKeys. rewrite !map_app, !elem_of_app.
      split; intros [?|[v Hv]%objKeys_elem_inv]; try done.
      * apply membersToMerge_keys in Hv. apply list_elem_of_singleton in Hv as ->. done.
      * apply membersToSet_keys in Hv. apply list_elem_of_singleton in Hv as ->. done.
Qed.

(** *** The queue [update] builds has every key once *)

Lemma objSet_keys_elem {A} k (v : A) (o : list (string * A)) x :
  x ∈ objKeys (objSet k v o) -> x = k \/ x ∈ objKeys o.
Proof.
  induction o as [|[k' v'] o IH]; cbn.
  - intros ->%list_elem_of_singleton. by left.
  - destruct (String.eqb k k') eqn:E; cbn.
    + intros ?. by right.
    + intros [->|Hin]%elem_of_cons; [right; left|].
      destruct (IH Hin) as [?|?]; [by left | right; by right].
Qed.

Lemma objSet_NoDup {A} k (v : A) (o : list (string * A)) :
  NoDup (objKeys o) -> NoDup (objKeys (objSet k v o)).
Proof.
  induction o as [|[k' v'] o IH]; cbn.
  - intros _. apply NoDup_singleton.
  - intros [Hk' Hnd]%NoDup_cons. destruct (String.eqb k k') eqn:E; cbn.
    + by apply NoDup_cons.
    + apply String.eqb_neq in E. apply NoDup_cons. split; [|by apply IH].
      intros [?|?]%objSet_keys_elem; done.
Qed.

Lemma enqueueMergeOperation_NoDup key v (q : updateQueue) :
  NoDup (objKeys q) -> NoDup (objKeys (enqueueMergeOperation key v q)).
Proof.
  intros Hnd. unfold enqueueMergeOperation.
  destruct (isNull v); [by apply objSet_NoDup|].
  destruct (objGet key q); by apply objSet_NoDup.
Qed.

Lemma handleUpdate_NoDup cfg st u :
  NoDup (objKeys (queue st)) -> NoDup (objKeys (queue (handleUpdate cfg st u))).
Proof.
  intros Hnd. destruct u; cbn; try done.
  - by apply objSet_NoDup.
  - by apply enqueueMergeOperation_NoDup.
  - destruct (negb _); [done|].
    destruct (doAllCollectionItemsBelongToSameParent cfg _ _) as [[[] alerts]|]; [|done|done].
    cbn. revert Hnd. generalize (queue st).
    induction (members collection) as [|kv l IH]; intros q Hq; cbn; [done|].
    by apply IH, enqueueMergeOperation_NoDup.
  - revert Hnd. generalize (queue st).
    induction (members data) as [|kv l IH]; intros q Hq; cbn; [done|].
    by apply IH, objSet_NoDup.
Qed.

Lemma update_queue_NoDup cfg data : forall st,
  NoDup (objKeys (queue st)) ->
  NoDup (objKeys (queue (fold_left (handleUpdate cfg) data st))).
Proof.
  induction data as [|u data IH]; intros st Hnd; cbn; [done|].
  by apply IH, handleUpdate_NoDup.
Qed.

(** C5, as stated, fails on where the keys whose first operation is [null]
    go: they are not part of the [mergeCollection] call, they are written by
    a separate [multiSet] call.  In scenario S5 the deferred calls are
    [mergeCollection("r_", {r_2: {a: 2}})] and [multiSet({r_1: {a: 9}})], and
    no [mergeCollection] call carries [r_1]; with two sets on members of
    [r_] there is no [mergeCollection] call at all. *)
Lemma update_S5_set_part_is_multiSet :
  (exists plan,
     update cfgReports noSnapshots updateS5 emptyStore = Some (plan, emptyStore)
     /\ finalPromises plan
        = [CallMergeCollection "r_" (VObj [("r_2", VObj [("a", VNum 2)])]);
           CallMultiSet [("r_1", VObj [("a", VNum 9)])]]
     /\ forall ck collection,
          CallMergeCollection ck collection ∈ finalPromises plan ->
          objGet "r_1" (members collection) = None)
  /\ (exists plan,
        update cfgReports noSnapshots
          [UpdateSet "r_1" (VNum 1); UpdateSet "r_2" (VNum 2)] emptyStore
        = Some (plan, emptyStore)
        /\ finalPromises plan = [CallMultiSet [("r_1", VNum 1); ("r_2", VNum 2)]]).
Proof.
  split.
  - eexists. split; [by vm_compute|]. split; [done|].
    intros ck collection Hin. cbn in Hin.
    apply elem_of_cons in Hin as [[= -> ->]|Hin]; [done|].
    apply list_elem_of_singleton in Hin. done.
  - eexists. split; by vm_compute.
Qed.

Lemma objKeys_filter_fst {A} (P : string -> Prop) `{!forall k, Decision (P k)}
  (o : list (string * A)) :
  objKeys (filter (fun kv => P kv.1) o) = filter P (objKeys o).
Proof.
  induction o as [|[k v] o IH]; [done|].
  change (objKeys ((k, v) :: o)) with (k :: objKeys o).
  rewrite !filter_cons. cbn [fst]. destruct (decide (P k)); [|done].
  change (objKeys ((k, v) :: ?l)) with (k :: objKeys l). by rewrite IH.
Qed.

(** One turn of the loop over the declared collection keys. *)
Lemma collapseCollection_spec collectionKey (q : updateQueue) (ps : list call) :
  NoDup (objKeys q) ->
  collapseCollection (q, ps) collectionKey
  = (filter (fun kv => kv.1 ∉ collapsedKeys q collectionKey) q,
     ps ++ collapsedCalls q collectionKey).
Proof.
  intros Hnd. unfold collapseCollection, collapsedCalls, collapsedKeys.
  set (items := filter (fun key => isKeyMatch collectionKey key = true) (objKeys q)).
  destruct (Nat.leb (length items) 1).
  - cbn. rewrite app_nil_r. f_equal.
    clear. induction q as [|kv q IH]; [done|].
    rewrite filter_cons, decide_True by apply not_elem_of_nil. by rewrite <- IH.
  - rewrite batchCollectionKeys_spec.
    + cbn [mergePart setPart app]. rewrite objDeletes_filter.
      destruct (membersToMerge q items), (membersToSet q items); cbn [app];
        by rewrite ?app_nil_r, <- ?app_assoc.
    + subst items. by apply NoDup_filter.
    + intros k _. cbn. split; apply not_elem_of_nil.
Qed.

Lemma collapseCollections_spec (collectionKeys : list string) :
  forall (q : updateQueue) (ps : list call),
  NoDup (objKeys q) ->
  fold_left collapseCollection collectionKeys (q, ps)
  = ((collapseSpec collectionKeys q).2, ps ++ (collapseSpec collectionKeys q).1).
Proof.
  induction collectionKeys as [|ck cks IH]; intros q ps Hnd; cbn [fold_left collapseSpec].
  - cbn. by rewrite app_nil_r.
  - rewrite collapseCollection_spec by done. cbv zeta. cbn [fst snd].
    rewrite IH.
    + by rewrite <- app_assoc.
    + pose proof (objKeys_filter_fst (fun k => k ∉ collapsedKeys q ck) q) as Hf.
      cbv beta in Hf. rewrite Hf. by apply NoDup_filter.
Qed.

(** C5 (amended): [update] takes the declared collection keys in the order of
    their declaration.  For each one that at least two of the keys still in
    the per-key update queue match, those keys are removed from the queue;
    the ones whose first queued operation is not [null] are folded into one
    [mergeCollection] call for that collection key, and the ones whose first
    queued operation is [null] into one [multiSet] call, each call with the
    batched value of every key in queue order, and each left out when it has
    no key.  The keys left in the queue are written one by one.  The deferred
    calls are the snapshot updates, the [setCollection] calls, the calls of
    the collections and the calls of the keys left, in this order.  In
    scenario S5 the calls are [mergeCollection("r_", {r_2: {a: 2}})] and
    [multiSet({r_1: {a: 9}})]; with [r_] and [r_x_] declared in this order,
    the members of [r_x_] go to the calls of [r_]. *)
Theorem update_collapses_collection cfg updateSnapshots data s plan s' :
  update cfg updateSnapshots data s = Some (plan, s') ->
  let st :=
    fold_left (handleUpdate cfg) data
      {| queue := []; promises := []; clears := 0; logged := [] |} in
  let collapsed := collapseSpec (collectionKeys cfg) (queue st) in
  finalPromises plan
  = updateSnapshots data ++ promises st ++ collapsed.1 ++ map individualCall collapsed.2.
Proof.
  unfold update. destruct (negb (forallb validUpdate data)); [done|].
  destruct (existsb (handlerThrows cfg) data); [done|]. cbv zeta.
  set (st := fold_left (handleUpdate cfg) data _).
  rewrite collapseCollections_spec by (apply update_queue_NoDup; constructor).
  intros [= <- _]. cbn [finalPromises]. by rewrite <- !app_assoc.
Qed.

Lemma update_collapses_collection_witness :
  (exists plan,
     update cfgReports noSnapshots updateS5 emptyStore = Some (plan, emptyStore)
     /\ finalPromises plan
        = [CallMergeCollection "r_" (VObj [("r_2", VObj [("a", VNum 2)])]);
           CallMultiSet [("r_1", VObj [("a", VNum 9)])]])
  /\ (exists plan,
        update cfgNested noSnapshots
          [UpdateMerge "r_1" (VNum 1); UpdateMerge "r_x_1" (VNum 2);
           UpdateMerge "r_x_2" (VNum 3)] emptyStore
        = Some (plan, emptyStore)
        /\ finalPromises plan
           = [CallMergeCollection "r_"
                (VObj [("r_1", VNum 1); ("r_x_1", VNum 2); ("r_x_2", VNum 3)])]).
Proof.
  split.
  - destruct (update cfgReports noSnapshots updateS5 emptyStore) as [[plan s']|] eqn:E;
      [|by vm_compute in E].
    pose proof (update_collapses_collection cfgReports noSnapshots updateS5 emptyStore
                  plan s' E) as Hplan.
    exists plan. split; [|exact Hplan].
    vm_compute in E. injection E as <- <-. reflexivity.
  - destruct (update cfgNested noSnapshots
                [UpdateMerge "r_1" (VNum 1); UpdateMerge "r_x_1" (VNum 2);
                 UpdateMerge "r_x_2" (VNum 3)] emptyStore) as [[plan s']|] eqn:E;
      [|by vm_compute in E].
    pose proof (update_collapses_collection cfgNested noSnapshots _ emptyStore
                  plan s' E) as Hplan.
    exists plan. split; [|exact Hplan].
    vm_compute in E. injection E as <- <-. reflexivity.
Defined.

(** ** C6: the order of the calls of an [update] *)

Lemma clearKey_trace cfg keysToPreserve st key :
  trace (clearStore (clearKey cfg keysToPreserve st key)) = trace (clearStore st).
Proof.
  unfold clearKey.
  destruct (bool_decide (key ∈ keysToPreserve)); cbn [orb]; [done|].
  destruct (strictEqual _ _).
  - by destruct (bool_decide (is_Some _)).
  - destruct (getCollectionKey cfg key) as [collectionKey|];
      [destruct (String.eqb collectionKey "")|];
      by destruct (bool_decide (is_Some _)).
Qed.

Lemma extends_clearThen cfg keysToPreserve cachedKeys s :
  extends s (clearThen cfg keysToPreserve cachedKeys s).2.
Proof.
  unfold clearThen. cbv zeta. cbn [snd].
  set (st := fold_left _ _ _).
  assert (Hst : trace (clearStore st) = trace s).
  { subst st. generalize (uniqueKeys [] (cachedKeys ++ objKeys (defaultKeyStates cfg))).
    intros keys.
    change s with (clearStore
      {| clearStore := s; keysToBeClearedFromStorage := [];
         keyValuesToResetAsCollection := []; keyValuesToResetIndividually := [] |}) at 2.
    generalize ({| clearStore := s; keysToBeClearedFromStorage := [];
                   keyValuesToResetAsCollection := [];
                   keyValuesToResetIndividually := [] |}).
    induction keys as [|k keys IH]; intros st0; cbn [fold_left]; [done|].
    by rewrite IH, clearKey_trace. }
  eapply extends_trans; [apply extends_same_trace; exact Hst|].
  eapply extends_trans; [|apply extends_emit].
  eapply extends_trans; [|apply extends_Storage_multiSet].
  eapply extends_trans; [|apply extends_emit].
  eapply extends_trans; [|unfold Storage_removeItems; apply extends_emit].
  eapply extends_trans; [|apply extends_same_trace; reflexivity].
  eapply extends_trans;
    [|apply (extends_fold (fun s key => cacheDrop key s)); intros; by apply extends_same_trace].
  eapply extends_trans; [|apply extends_fold; intros; apply extends_emit].
  apply extends_fold. intros. apply extends_emit.
Qed.

Lemma invokeAll_thrown cfg cs : forall ps0 s,
  hasThrown ps0 = true ->
  fold_left
    (fun acc c =>
       if hasThrown acc.1 then acc
       else let '(p, s) := invoke cfg c acc.2 in (acc.1 ++ [p], s))
    cs (ps0, s)
  = (ps0, s).
Proof.
  induction cs as [|c cs IH]; intros ps0 s Hps0; cbn [fold_left fst snd]; [done|].
  rewrite Hps0. by apply IH.
Qed.

Lemma hasThrown_app ps1 ps2 : hasThrown (ps1 ++ ps2) = hasThrown ps1 || hasThrown ps2.
Proof. unfold hasThrown. apply existsb_app. Qed.

Lemma invokeAll_from cfg cs : forall ps0 s,
  hasThrown ps0 = false ->
  fold_left
    (fun acc c =>
       if hasThrown acc.1 then acc
       else let '(p, s) := invoke cfg c acc.2 in (acc.1 ++ [p], s))
    cs (ps0, s)
  = (ps0 ++ (invokeAll cfg cs s).1, (invokeAll cfg cs s).2).
Proof.
  unfold invokeAll.
  induction cs as [|c cs IH]; intros ps0 s Hps0; cbn [fold_left fst snd].
  - by rewrite app_nil_r.
  - rewrite Hps0. cbn [hasThrown existsb]. destruct (invoke cfg c s) as [p s1].
    destruct (isThrows p) eqn:Hp.
    + rewrite !invokeAll_thrown; [done| |].
      * cbn. by rewrite Hp.
      * by rewrite hasThrown_app, Hps0; cbn; rewrite Hp.
    + rewrite (IH (ps0 ++ [p])), (IH ([] ++ [p])).
      * cbn [fst snd]. by rewrite <- app_assoc.
      * cbn. by rewrite Hp.
      * by rewrite hasThrown_app, Hps0; cbn; rewrite Hp.
Qed.

Lemma invokeAll_app cfg cs1 cs2 s :
  invokeAll cfg (cs1 ++ cs2) s
  = (if hasThrown (invokeAll cfg cs1 s).1 then invokeAll cfg cs1 s
     else ((invokeAll cfg cs1 s).1 ++ (invokeAll cfg cs2 (invokeAll cfg cs1 s).2).1,
           (invokeAll cfg cs2 (invokeAll cfg cs1 s).2).2)).
Proof.
  unfold invokeAll at 1. rewrite fold_left_app.
  fold (invokeAll cfg cs1 s). destruct (invokeAll cfg cs1 s) as [ps1 s1].
  cbn [fst snd]. destruct (hasThrown ps1) eqn:Hps1.
  - by apply invokeAll_thrown.
  - by apply invokeAll_from.
Qed.

Lemma extends_invokeAll cfg cs : forall s, extends s (invokeAll cfg cs s).2.
Proof.
  induction cs as [|c cs IH]; intros s; [apply extends_refl|].
  rewrite (invokeAll_app cfg [c] cs).
  assert (Hc : extends s (invokeAll cfg [c] s).2).
  { unfold invokeAll. cbn. destruct (invoke cfg c s) as [p s1] eqn:E. cbn.
    change s1 with (p, s1).2. rewrite <- E. apply extends_invoke. }
  destruct (hasThrown _); [done|]. cbn [snd].
  eapply extends_trans; [exact Hc|apply IH].
Qed.

Lemma extends_clears cfg n : forall s,
  extends s (Nat.iter n (fun s => (clearThen cfg [] (getAllKeys s) s).2) s).
Proof.
  induction n as [|n IH]; intros s; cbn; [apply extends_refl|].
  eapply extends_trans; [apply IH | apply extends_clearThen].
Qed.

(** C6, as stated, fails on its first clause: the snapshot calls are started
    before the main calls but not awaited.  When the set of [updateK] has
    been started, and has already written [k] to the cache and called
    [Storage.setItem], the merge that is its snapshot update has only queued
    its delta and started its read: its promise still awaits the fold, and
    the snapshot key is neither in the cache nor in storage. *)
Lemma update_snapshot_not_awaited :
  exists plan s0,
    update cfgReports snapshotOfK updateK emptyStore = Some (plan, s0)
    /\ let r := updateThen cfgReports plan s0 in
       r.1 = PromiseAll [Awaits (PendingFold "snapshot_k" None); StoragePromise]
       /\ mergeQueue r.2 !! "snapshot_k" = Some [VObj [("x", VNum 1)]]
       /\ cache r.2 !! "snapshot_k" = None
       /\ storage r.2 !! "snapshot_k" = None
       /\ cache r.2 !! "k" = Some (VNum 1)
       /\ trace r.2
          = [StorageGetItem "snapshot_k";
             LogInfo (SetCalled "k" true);
             ScheduleSubscriberUpdate "k" (Some (VNum 1)) None;
             StorageSetItem "k" (Some (VNum 1));
             SendActionToDevTools SET (Some "k")].
Proof. eexists _, _. split; [by vm_compute|]. by vm_compute. Qed.

(** In development mode a [setCollection] on a key of another collection
    throws when it is called, and the [set] that comes after it in the pass
    is not made. *)
Example update_pass_ends_at_throw :
  exists plan s0,
    update cfgDevelopment noSnapshots
      [UpdateSetCollection "r_" [("x_9", VNum 3)]; UpdateSet "k" (VNum 1)] emptyStore
    = Some (plan, s0)
    /\ finalPromises plan
       = [CallSetCollection "r_" [("x_9", VNum 3)]; CallSet "k" (Some (VNum 1))]
    /\ updateThen cfgDevelopment plan s0 = (PromiseAll [Throws], emptyStore).
Proof. eexists _, _. split; [by vm_compute|]. by vm_compute. Qed.

(** C6 (amended): within one [update] call, the clear, when one of the
    entries is a clear, has completed before any snapshot or main call is
    started; the snapshot calls are then started before the main calls, each
    in the order of construction and none awaited before the next is
    started; the promise returned awaits all of them together.  So the trace
    holds the calls of the clear, then those of the synchronous parts of the
    snapshot calls, then those of the synchronous parts of the main calls.
    A call that throws, as a [setCollection] does in development mode on a
    key of another collection, ends the pass: no call after it is started,
    so no main call when a snapshot call has thrown. *)
Theorem update_starts_snapshots_first cfg snapshots data s plan s0 :
  update cfg snapshots data s = Some (plan, s0) ->
  exists mainCalls,
    finalPromises plan = snapshots data ++ mainCalls
    /\ let cleared :=
         Nat.iter (planClears plan) (fun s => (clearThen cfg [] (getAllKeys s) s).2) s0 in
       let snapshot := invokeAll cfg (snapshots data) cleared in
       let main :=
         if hasThrown snapshot.1 then ([], snapshot.2)
         else invokeAll cfg mainCalls snapshot.2 in
       updateThen cfg plan s0 = (PromiseAll (snapshot.1 ++ main.1), main.2)
       /\ extends s0 cleared
       /\ extends cleared snapshot.2
       /\ extends snapshot.2 main.2.
Proof.
  unfold update. destruct (negb (forallb validUpdate data)); [done|].
  destruct (existsb (handlerThrows cfg) data); [done|].
  destruct (fold_left (collapseCollection) (collectionKeys cfg) _) as [q ps].
  intros [= <- <-]. exists (ps ++ map individualCall q). split; [done|].
  cbv zeta. split; [|split; [|split]].
  - unfold updateThen. cbn [planClears finalPromises].
    rewrite invokeAll_app. destruct (hasThrown _); [|done].
    cbn [fst snd]. rewrite app_nil_r. by destruct (invokeAll cfg (snapshots data) _).
  - apply extends_clears.
  - apply extends_invokeAll.
  - destruct (hasThrown _); [apply extends_refl | apply extends_invokeAll].
Qed.

Lemma update_starts_snapshots_first_witness :
  exists plan s0 mainCalls,
    update cfgReports snapshotOfK updateK emptyStore = Some (plan, s0)
    /\ finalPromises plan = snapshotOfK updateK ++ mainCalls
    /\ mainCalls = [CallSet "k" (Some (VNum 1))].
Proof.
  destruct (update cfgReports snapshotOfK updateK emptyStore) as [[plan s0]|] eqn:E;
    [|by vm_compute in E].
  destruct (update_starts_snapshots_first cfgReports snapshotOfK updateK emptyStore plan s0 E)
    as (mainCalls & Hplan & _).
  exists plan, s0, mainCalls. split; [done|]. split; [done|].
  vm_compute in E. injection E as <- _. cbn in Hplan. by injection Hplan as <-.
Defined.

(** * Further properties of the write operations *)

(** ** [set] *)

(** X1: [set(K, v)] works on its key only: the cached value, the stored
    value and the merge-queue entry of every other key are left as they
    are. *)
Theorem set_other_keys cfg key v s k :
  k <> key ->
  let r := set cfg key v s in
  cache r.2 !! k = cache s !! k
  /\ storage r.2 !! k = storage s !! k
  /\ mergeQueue r.2 !! k = mergeQueue s !! k.
Proof.
  intros Hne. cbv zeta.
  split; [|split]; [| |by rewrite set_mergeQueue, lookup_delete_ne].
  - unfold set.
    destruct (dropPendingMerge_frame key s) as (Hc & _). rewrite <- Hc.
    generalize (dropPendingMerge key s). intros s0.
    destruct (if isSkippable cfg key None then Some VNull else v) as [x|]; [|done].
    destruct (bool_decide (cache s0 !! key = None) && isNull x); [done|].
    destruct (negb _); [done|].
    destruct x; cbn; rewrite ?lookup_delete_ne by done; try done;
      match goal with |- context [hasValueChanged ?a ?w ?st] =>
        destruct (hasValueChanged a w st) end; cbn;
      by rewrite ?lookup_insert_ne by done.
  - unfold set.
    destruct (dropPendingMerge_frame key s) as (_ & Hs & _). rewrite <- Hs.
    generalize (dropPendingMerge key s). intros s0.
    destruct (if isSkippable cfg key None then Some VNull else v) as [x|]; [|done].
    destruct (bool_decide (cache s0 !! key = None) && isNull x); [done|].
    destruct (negb _); [done|].
    destruct x; cbn; rewrite ?lookup_delete_ne by done; try done;
      match goal with |- context [hasValueChanged ?a ?w ?st] =>
        destruct (hasValueChanged a w st) end; cbn; unfold storePut; cbn;
      by rewrite ?lookup_insert_ne by done.
Qed.

Lemma set_other_keys_witness :
  let s := storeOf [("a", VNum 1); ("b", VNum 2)] in
  let r := set cfgReports "a" (Some (VNum 5)) s in
  cache r.2 !! "b" = Some (VNum 2) /\ storage r.2 !! "b" = Some (VNum 2).
Proof.
  destruct (set_other_keys cfgReports "a" (Some (VNum 5))
              (storeOf [("a", VNum 1); ("b", VNum 2)]) "b") as (Hc & Hs & _);
    [done|].
  cbv zeta. rewrite Hc, Hs. split; reflexivity.
Defined.

(** X2: [set(K, null)] on a key the cache does not hold returns at once: it
    makes no storage call and schedules nothing, so a value that storage
    holds for the key stays there.  On a cached key it drops the key from the
    cache, removes it from storage with one [removeItem], schedules a
    subscriber update with [undefined] and never calls [setItem]. *)
Theorem set_null cfg key s :
  let r := set cfg key (Some VNull) s in
  r.1 = Resolved
  /\ match cache s !! key with
     | None =>
         cache r.2 = cache s /\ storage r.2 = storage s /\ trace r.2 = trace s
     | Some e =>
         cache r.2 = delete key (cache s)
         /\ storage r.2 = delete key (storage s)
         /\ trace r.2
            = trace s ++ [ScheduleSubscriberUpdate key None (Some e);
                          StorageRemoveItem key; LogInfo (SetCalled key true)]
     end.
Proof.
  cbv zeta. unfold set.
  replace (if isSkippable cfg key None then Some VNull else Some VNull)
    with (Some VNull) by (by destruct (isSkippable cfg key None)).
  destruct (dropPendingMerge_frame key s) as (Hc & Hs & _ & Ht).
  rewrite Hc. destruct (cache s !! key) as [e|] eqn:He.
  - rewrite bool_decide_eq_false_2 by done. cbn [andb].
    assert (isCompatible (checkCompatibilityWithExistingValue (Some VNull) (Some e)) = true)
      as -> by (by destruct e).
    cbn. rewrite Hc, Hs, Ht, He, <- !app_assoc. done.
  - rewrite bool_decide_eq_true_2 by done. cbn. by rewrite Hc, Hs, Ht.
Qed.

(** X3: a [set] whose value, nested nulls removed, is structurally the cached
    one makes no storage call and leaves cache and storage as they are; it
    still schedules the subscriber update and returns its promise. *)
Theorem set_unchanged cfg key x s :
  isSkippable cfg key None = false ->
  isNull x = false ->
  isCompatible (checkCompatibilityWithExistingValue (Some x) (cache s !! key)) = true ->
  hasValueChanged key (Some (removeNestedNullValues x)) s = false ->
  let r := set cfg key (Some x) s in
  r.1 = UpdatePromise
  /\ cache r.2 = cache s
  /\ storage r.2 = storage s
  /\ trace r.2
     = trace s ++ [LogInfo (SetCalled key false);
                   ScheduleSubscriberUpdate key (Some (removeNestedNullValues x))
                     (cache s !! key)].
Proof.
  intros Hskip Hnull Hcompat Hsame. cbv zeta. unfold set. rewrite Hskip.
  destruct (dropPendingMerge_frame key s) as (Hc & Hs & _ & Ht).
  assert (Hhc : hasValueChanged key (Some (removeNestedNullValues x))
                  (dropPendingMerge key s) = false).
  { unfold hasValueChanged in *. by rewrite Hc. }
  generalize dependent (dropPendingMerge key s). intros s0 Hc Hs Ht Hhc.
  rewrite Hc, Hnull, andb_false_r, Hcompat. cbn [negb].
  destruct x; try discriminate Hnull; cbn [removeNullValues];
    rewrite Hhc; cbn; by rewrite Hc, Hs, Ht, <- !app_assoc.
Qed.

Lemma set_unchanged_witness :
  let s := storeOf [("k", VObj [("a", VNum 1)])] in
  let r := set cfgReports "k" (Some (VObj [("a", VNum 1); ("b", VNull)])) s in
  r.1 = UpdatePromise /\ cache r.2 = cache s /\ storage r.2 = storage s.
Proof.
  destruct (set_unchanged cfgReports "k" (VObj [("a", VNum 1); ("b", VNull)])
              (storeOf [("k", VObj [("a", VNum 1)])]))
    as (Hp & Hc & Hs & _); try reflexivity.
  cbv zeta. by rewrite Hp, Hc, Hs.
Defined.

(** ** [merge] and its fold *)

(** X4: the synchronous part of [merge] only queues: it leaves cache and
    storage as they are, makes no storage write, touches the queue entry of
    no other key, and adds to the trace at most the read it starts.  With
    [undefined] changes it leaves the whole store as it is and returns the
    promise of the pending fold, or a resolved one when none is pending. *)
Theorem merge_is_deferred cfg key changes s :
  let r := merge cfg key changes s in
  cache r.2 = cache s
  /\ storage r.2 = storage s
  /\ (trace r.2 = trace s \/ trace r.2 = trace s ++ [StorageGetItem key])
  /\ (forall k, k <> key -> mergeQueue r.2 !! k = mergeQueue s !! k)
  /\ (changes = None ->
      r.2 = s
      /\ r.1 = match mergeQueue s !! key with
               | Some _ => MergeQueuePromise key
               | None => Resolved
               end).
Proof.
  cbv zeta. unfold merge, OnyxUtils_get.
  destruct (isSkippable cfg key None); cbn.
  - repeat split; try done; by left.
  - destruct changes as [change|]; cbn.
    + destruct (mergeQueue s !! key) as [queue|]; cbn.
      * repeat split; try done; [by left|].
        intros k Hne. by rewrite lookup_insert_ne.
      * destruct (cache s !! key); cbn; repeat split; try done;
          try (by left); try (by right);
          intros k Hne; by rewrite lookup_insert_ne.
    + repeat split; try done; by left.
Qed.

Lemma writeBatch_queues key existingValue batched shouldSet s :
  mergeQueue (writeBatch key existingValue batched shouldSet s).2 = mergeQueue s
  /\ mergeQueuePromise (writeBatch key existingValue batched shouldSet s).2
     = mergeQueuePromise s.
Proof.
  unfold writeBatch.
  destruct batched as [[]|]; cbn; try done;
    match goal with |- context [hasValueChanged ?k ?w ?st] =>
      destruct (hasValueChanged k w st) end; done.
Qed.

(** X5: a fold that finds a compatible change consumes the queue: the queue
    entry and the promise entry of the key are gone when it returns, so any
    other callback still scheduled for the key, whatever value it has read,
    does nothing, and the next [merge] of the key starts a new read and a new
    fold. *)
Theorem fold_consumes_queue cfg key existingValue existingValue' s queue d :
  mergeQueue s !! key = Some queue ->
  filter (fun c => compatibleWith existingValue c = true) queue <> [] ->
  isSkippable cfg key None = false ->
  let r := mergeFold key existingValue s in
  mergeQueue r.2 !! key = None
  /\ (key ∉ mergeQueuePromise r.2)
  /\ mergeFold key existingValue' r.2 = (Resolved, r.2)
  /\ (merge cfg key (Some d) r.2).1 = Awaits (PendingFold key (getResult key r.2)).
Proof.
  intros Hq Hvalid Hskip. cbv zeta.
  assert (Hgone : mergeQueue (mergeFold key existingValue s).2 !! key = None
                  /\ (key ∉ mergeQueuePromise (mergeFold key existingValue s).2)).
  { unfold mergeFold. rewrite Hq.
    destruct (filter _ queue) as [|c cs]; [done|].
    match goal with |- context [writeBatch ?k ?e ?b ?f ?st] =>
      destruct (writeBatch_queues k e b f st) as [-> ->] end.
    cbn. rewrite lookup_delete_eq. split; [done|].
    rewrite elem_of_difference. intros [_ Hn]. apply Hn. by apply elem_of_singleton. }
  destruct Hgone as [Hgone Hpromise].
  split; [done|]. split; [done|]. split.
  - unfold mergeFold at 1. by rewrite Hgone.
  - unfold merge. by rewrite Hskip, Hgone.
Qed.

Lemma fold_consumes_queue_witness :
  let s := withMergeQueue (<["k" := [VObj [("x", VNum 1)]]]>) emptyStore in
  let r := mergeFold "k" None s in
  mergeQueue r.2 !! "k" = None
  /\ mergeFold "k" (Some (VObj [("z", VNum 9)])) r.2 = (Resolved, r.2).
Proof.
  destruct (fold_consumes_queue cfgReports "k" None (Some (VObj [("z", VNum 9)]))
              (withMergeQueue (<["k" := [VObj [("x", VNum 1)]]]>) emptyStore)
              [VObj [("x", VNum 1)]] VNull)
    as (Hq & _ & Hfold & _); [reflexivity | by vm_compute | reflexivity |].
  cbv zeta. by split.
Defined.

(** X6: a fold that finds no compatible change returns before the queue is
    cleared: the queue entry stays in place.  A later [merge] of the key is
    then appended to that entry and handed the old promise; it starts no read
    and no fold. *)
Theorem incompatible_queue_stays cfg key existingValue s queue d :
  mergeQueue s !! key = Some queue ->
  Forall (fun c => compatibleWith existingValue c = false) queue ->
  isSkippable cfg key None = false ->
  let r := mergeFold key existingValue s in
  let later := merge cfg key (Some d) r.2 in
  mergeQueue r.2 !! key = Some queue
  /\ later.1 = MergeQueuePromise key
  /\ mergeQueue later.2 !! key = Some (queue ++ [d])
  /\ trace later.2 = trace r.2.
Proof.
  intros Hq Hall Hskip. cbv zeta.
  rewrite (mergeFold_all_incompatible key existingValue s queue Hq Hall). cbn [snd].
  assert (Hq' : mergeQueue (emitAll (incompatibleAlerts key existingValue queue) s) !! key
                = Some queue) by done.
  rewrite (merge_append cfg key d _ queue Hskip Hq'). cbn.
  by rewrite lookup_insert_eq.
Qed.

Lemma incompatible_queue_stays_witness :
  let s :=
    withMergeQueue (<["k" := [VArr [VNum 1]]]>) (storeOf [("k", VObj [("a", VNum 1)])]) in
  let r := mergeFold "k" (Some (VObj [("a", VNum 1)])) s in
  let later := merge cfgReports "k" (Some (VObj [("b", VNum 2)])) r.2 in
  mergeQueue later.2 !! "k" = Some [VArr [VNum 1]; VObj [("b", VNum 2)]]
  /\ trace later.2 = trace r.2.
Proof.
  destruct (incompatible_queue_stays cfgReports "k" (Some (VObj [("a", VNum 1)]))
              (withMergeQueue (<["k" := [VArr [VNum 1]]]>)
                 (storeOf [("k", VObj [("a", VNum 1)])]))
              [VArr [VNum 1]] (VObj [("b", VNum 2)]))
    as (_ & _ & Hq & Ht); [reflexivity | | reflexivity |].
  { repeat constructor. }
  cbv zeta. by split.
Defined.

Lemma applyMerge_last_null (changes : list value) base strip :
  applyMerge base (changes ++ [VNull]) strip = Some VNull.
Proof. unfold applyMerge. by rewrite fold_left_app. Qed.

(** X7: when the last delta queued for a key is the top-level [null], the
    fold removes the key: it drops it from the cache, calls
    [Storage.removeItem] and never [Storage.mergeItem], whatever the deltas
    queued before and the value read. *)
Theorem fold_null_removes key existingValue s queue :
  mergeQueue s !! key = Some (queue ++ [VNull]) ->
  let r := mergeFold key existingValue s in
  r.1 = Resolved
  /\ cache r.2 = delete key (cache s)
  /\ storage r.2 = delete key (storage s)
  /\ mergeQueue r.2 !! key = None
  /\ filter (fun e => isStorageWrite e = true) (trace r.2)
     = filter (fun e => isStorageWrite e = true) (trace s) ++ [StorageRemoveItem key].
Proof.
  intros Hq. cbv zeta. unfold mergeFold. rewrite Hq.
  rewrite filter_app.
  assert (Hnull : filter (fun c => compatibleWith existingValue c = true) [VNull] = [VNull]).
  { rewrite filter_cons, decide_True; [done|]. by destruct existingValue as [[]|]. }
  rewrite Hnull.
  destruct (filter _ queue ++ [VNull]) as [|c cs] eqn:Hv.
  { by apply app_eq_nil in Hv as [_ ?]. }
  rewrite <- Hv, applyMerge_last_null. unfold writeBatch. cbn.
  rewrite lookup_delete_eq. repeat split.
  rewrite <- !app_assoc, !filter_app.
  assert (Hal : filter (fun e => isStorageWrite e = true)
                  (incompatibleAlerts key existingValue (queue ++ [VNull])) = []).
  { pose proof (incompatibleAlerts_are_logs key existingValue (queue ++ [VNull])) as Hlogs.
    induction Hlogs as [|e es [_ He] _ IH]; [done|].
    rewrite filter_cons. destruct (decide (isStorageWrite e = true)); [congruence|done]. }
  by rewrite Hal.
Qed.

Lemma fold_null_removes_witness :
  let s :=
    withMergeQueue (<["k" := [VObj [("b", VNum 2)]; VNull]]>)
      (storeOf [("k", VObj [("a", VNum 1)])]) in
  let r := mergeFold "k" (Some (VObj [("a", VNum 1)])) s in
  cache r.2 !! "k" = None /\ storage r.2 !! "k" = None.
Proof.
  destruct (fold_null_removes "k" (Some (VObj [("a", VNum 1)]))
              (withMergeQueue (<["k" := [VObj [("b", VNum 2)]; VNull]]>)
                 (storeOf [("k", VObj [("a", VNum 1)])]))
              [VObj [("b", VNum 2)]])
    as (_ & Hc & Hs & _); [reflexivity|].
  cbv zeta. rewrite Hc, Hs. by rewrite !lookup_delete_eq.
Defined.

Lemma writeBatch_other_keys key existingValue batched shouldSet s k :
  k <> key ->
  cache (writeBatch key existingValue batched shouldSet s).2 !! k = cache s !! k
  /\ storage (writeBatch key existingValue batched shouldSet s).2 !! k = storage s !! k.
Proof.
  intros Hne. unfold writeBatch.
  assert (Hrest : forall pre,
            cache (if negb (hasValueChanged key pre s)
                   then (UpdatePromise,
                         broadcastUpdate key pre (hasValueChanged key pre s)
                           (emit (LogInfo (MergeCalled key (hasValueChanged key pre s))) s))
                   else (StoragePromise,
                         emit (SendActionToDevTools MERGE (Some key))
                           (Storage_mergeItem key batched pre shouldSet
                              (broadcastUpdate key pre (hasValueChanged key pre s)
                                 (emit (LogInfo (MergeCalled key (hasValueChanged key pre s)))
                                    s))))).2 !! k
            = cache s !! k
            /\ storage (if negb (hasValueChanged key pre s)
                   then (UpdatePromise,
                         broadcastUpdate key pre (hasValueChanged key pre s)
                           (emit (LogInfo (MergeCalled key (hasValueChanged key pre s))) s))
                   else (StoragePromise,
                         emit (SendActionToDevTools MERGE (Some key))
                           (Storage_mergeItem key batched pre shouldSet
                              (broadcastUpdate key pre (hasValueChanged key pre s)
                                 (emit (LogInfo (MergeCalled key (hasValueChanged key pre s)))
                                    s))))).2 !! k
               = storage s !! k).
  { intros pre. destruct (hasValueChanged key pre s); cbn; [|done].
    destruct pre as [p|]; cbn.
    - rewrite lookup_insert_ne by done. split; [done|]. by apply storePut_ne.
    - by rewrite lookup_delete_ne by done. }
  destruct batched as [x|]; [destruct (isNull x) eqn:Hx|].
  - destruct x; try discriminate Hx. cbn. by rewrite !lookup_delete_ne by done.
  - replace (removeNullValues key (Some x) s)
      with (Some (removeNestedNullValues x), false, s) by (by destruct x).
    apply Hrest.
  - cbn [removeNullValues]. apply Hrest.
Qed.

(** X8: the fold of the queue of a key works on that key only: the cached
    value, the stored value and the queue entry of every other key are left
    as they are. *)
Theorem mergeFold_other_keys key existingValue s k :
  k <> key ->
  let r := mergeFold key existingValue s in
  cache r.2 !! k = cache s !! k
  /\ storage r.2 !! k = storage s !! k
  /\ mergeQueue r.2 !! k = mergeQueue s !! k.
Proof.
  intros Hne. cbv zeta. unfold mergeFold.
  destruct (mergeQueue s !! key) as [queue|]; [|done].
  destruct (filter _ queue) as [|c cs]; [done|].
  match goal with |- context [writeBatch ?a ?e ?b ?f ?st] =>
    destruct (writeBatch_queues a e b f st) as [Hq _];
    destruct (writeBatch_other_keys a e b f st k Hne) as [Hc Hs];
    rewrite Hq, Hc, Hs
  end.
  cbn. by rewrite lookup_delete_ne.
Qed.

Lemma mergeFold_other_keys_witness :
  let s :=
    withMergeQueue (<["a" := [VObj [("x", VNum 1)]]]>) (storeOf [("b", VNum 2)]) in
  let r := mergeFold "a" None s in
  cache r.2 !! "b" = Some (VNum 2) /\ storage r.2 !! "b" = Some (VNum 2).
Proof.
  destruct (mergeFold_other_keys "a" None
              (withMergeQueue (<["a" := [VObj [("x", VNum 1)]]]>) (storeOf [("b", VNum 2)]))
              "b") as (Hc & Hs & _); [done|].
  cbv zeta. rewrite Hc, Hs. split; reflexivity.
Defined.

(** ** [multiSet] *)

Lemma objSets_fresh {A B} (g : string * A -> B) (data : list (string * A)) :
  forall acc : list (string * B),
  NoDup (objKeys data) ->
  (forall k, k ∈ objKeys data -> k ∉ objKeys acc) ->
  fold_left (fun result kv => objSet kv.1 (g kv) result) data acc
  = acc ++ map (fun kv => (kv.1, g kv)) data.
Proof.
  induction data as [|[k v] data IH]; intros acc Hnd Hfresh; cbn [fold_left map].
  - by rewrite app_nil_r.
  - change (objKeys ((k, v) :: data)) with (k :: objKeys data) in Hnd, Hfresh.
    apply NoDup_cons in Hnd as [Hk Hnd].
    rewrite objSet_fresh by (apply Hfresh; left).
    rewrite IH; [by rewrite <- app_assoc | done |].
    intros k' Hk'. unfold objKeys. rewrite map_app, elem_of_app. cbn.
    intros [Hin|Hin%list_elem_of_singleton].
    + by apply (Hfresh k'); [right|].
    + by subst k'.
Qed.

Lemma skipMembers_map cfg ck (data : object) :
  NoDup (objKeys data) ->
  skipMembers cfg ck data
  = map (fun kv => (kv.1, if isSkippable cfg kv.1 ck then VNull else kv.2)) data.
Proof.
  intros Hnd. unfold skipMembers.
  destruct (skippableCollectionMemberIDs cfg) eqn:Hids.
  - rewrite <- (map_id data) at 1. apply map_ext. intros [k v]. cbn.
    by rewrite isSkippable_no_ids.
  - rewrite (objSets_fresh (fun kv => if isSkippable cfg kv.1 ck then VNull else kv.2));
      [done | done |]. intros k _. apply not_elem_of_nil.
Qed.

Lemma objKeys_map_values {A B} (g : string * A -> B) (data : list (string * A)) :
  objKeys (map (fun kv => (kv.1, g kv)) data) = objKeys data.
Proof. unfold objKeys. rewrite map_map. by apply map_ext. Qed.

Lemma objGet_map_values {A B} (g : string * A -> B) (data : list (string * A)) k :
  objGet k (map (fun kv => (kv.1, g kv)) data)
  = (fun v => g (k, v)) <$> objGet k data.
Proof.
  induction data as [|[k' v] data IH]; cbn; [done|].
  destruct (String.eqb k k') eqn:E; [|done].
  by apply String.eqb_eq in E as ->.
Qed.

(** The loop of [multiSet] over the pairs to set. *)
Lemma multiSet_loop (pairs : object) : forall s,
  NoDup (objKeys pairs) ->
  let s' :=
    fold_left
      (fun s kv =>
         let prevValue := cache s !! kv.1 in
         let s := dropPendingMerge kv.1 s in
         emit (ScheduleSubscriberUpdate kv.1 (Some kv.2) prevValue)
           (cacheSet kv.1 (Some kv.2) s))
      pairs s in
  (forall k, cache s' !! k
             = match objGet k pairs with Some w => Some w | None => cache s !! k end)
  /\ storage s' = storage s
  /\ (forall k, mergeQueue s' !! k
                = if bool_decide (k ∈ objKeys pairs) then None else mergeQueue s !! k)
  /\ exists es,
       trace s' = trace s ++ es
       /\ Forall (fun e => exists k v prev, e = ScheduleSubscriberUpdate k v prev) es.
Proof.
  induction pairs as [|[k' w] pairs IH]; intros s Hnd; cbn [fold_left].
  - cbv zeta. split; [done|]. split; [done|]. split.
    + intros k. by rewrite bool_decide_eq_false_2 by apply not_elem_of_nil.
    + exists []. by rewrite app_nil_r.
  - change (objKeys ((k', w) :: pairs)) with (k' :: objKeys pairs) in *.
    apply NoDup_cons in Hnd as [Hk' Hnd].
    set (s1 := emit _ _).
    destruct (IH s1 Hnd) as (Hc & Hs & Hq & es & Ht & Hes). cbv zeta in *.
    destruct (dropPendingMerge_frame k' s) as (Hc1 & Hs1 & _ & Ht1).
    split; [|split; [|split]].
    + intros k. rewrite Hc. cbn [objGet fst snd].
      destruct (String.eqb k k') eqn:E.
      * apply String.eqb_eq in E as ->. rewrite objGet_None by done.
        subst s1. cbn. by rewrite lookup_insert_eq.
      * apply String.eqb_neq in E. destruct (objGet k pairs); [done|].
        subst s1. cbn. by rewrite lookup_insert_ne, Hc1 by done.
    + rewrite Hs. subst s1. cbn. by rewrite Hs1.
    + intros k. rewrite Hq. subst s1. cbn [mergeQueue emit cacheSet withCache fst].
      rewrite dropPendingMerge_queue.
      destruct (decide (k ∈ objKeys pairs)) as [Hin|Hnin].
      * by rewrite !bool_decide_eq_true_2 by (done || by right).
      * rewrite (bool_decide_eq_false_2 _ Hnin).
        destruct (decide (k = k')) as [->|Hne].
        -- by rewrite lookup_delete_eq, bool_decide_eq_true_2 by left.
        -- rewrite lookup_delete_ne by done.
           rewrite bool_decide_eq_false_2; [done|]. by intros [?|?]%elem_of_cons.
    + eexists (_ :: es). split.
      * rewrite Ht. subst s1. cbn. rewrite Ht1, <- app_assoc. reflexivity.
      * constructor; [eauto|done].
Qed.

Lemma objGet_Some_elem_keys {A} k (o : list (string * A)) :
  k ∈ objKeys o <-> is_Some (objGet k o).
Proof.
  induction o as [|[k0 v0] o IH]; cbn.
  - split; [by intros ?%not_elem_of_nil | by intros [? ?]].
  - change (objKeys ((k0, v0) :: o)) with (k0 :: objKeys o).
    rewrite elem_of_cons. destruct (String.eqb k k0) eqn:E.
    + apply String.eqb_eq in E. split; [by eexists | by left].
    + apply String.eqb_neq in E. rewrite <- IH. split; [by intros [?|?] | by right].
Qed.

Lemma objGet_filter_NoDup {A} (P : string * A -> Prop) `{!forall kv, Decision (P kv)}
  (o : list (string * A)) k :
  NoDup (objKeys o) ->
  objGet k (filter P o)
  = match objGet k o with
    | Some v => if decide (P (k, v)) then Some v else None
    | None => None
    end.
Proof.
  induction o as [|[k0 v0] o IH]; intros Hnd; [done|].
  change (objKeys ((k0, v0) :: o)) with (k0 :: objKeys o) in Hnd.
  apply NoDup_cons in Hnd as [Hk0 Hnd].
  rewrite filter_cons. cbn [objGet].
  destruct (String.eqb k k0) eqn:E.
  - apply String.eqb_eq in E as ->.
    destruct (decide (P (k0, v0))).
    + cbn [objGet]. by rewrite String.eqb_refl.
    + apply objGet_None. intros [v Hv]%objKeys_elem_inv.
      apply list_elem_of_filter in Hv as [_ Hv]. apply Hk0. by eapply objKeys_elem.
  - destruct (decide (P (k0, v0))); [|by apply IH].
    cbn [objGet]. rewrite E. by apply IH.
Qed.

(** The members set to [null] are removed from the cache and from storage. *)
Lemma remove_members_lookup (rc : object) k : forall s,
  let s' := fold_left (fun s kv => if isNull kv.2 then remove kv.1 s else s) rc s in
  let removed := objKeys (filter (fun kv => isNull kv.2 = true) rc) in
  cache s' !! k = (if bool_decide (k ∈ removed) then None else cache s !! k)
  /\ storage s' !! k = (if bool_decide (k ∈ removed) then None else storage s !! k)
  /\ mergeQueue s' = mergeQueue s.
Proof.
  induction rc as [|[k0 v0] rc IH]; intros s; cbn [fold_left fst snd]; [done|].
  destruct (IH (if isNull v0 then remove k0 s else s)) as (Hc & Hs & Hq).
  cbv zeta in *. rewrite Hc, Hs, Hq. rewrite filter_cons. cbn [snd].
  destruct (isNull v0) eqn:Hv0.
  - rewrite decide_True by done.
    change (objKeys ((k0, v0) :: ?l)) with (k0 :: objKeys l).
    destruct (decide (k ∈ objKeys (filter (fun kv => isNull kv.2 = true) rc))) as [Hin|Hnin].
    + rewrite !bool_decide_eq_true_2; [done|by right|done].
    + rewrite (bool_decide_eq_false_2 _ Hnin).
      destruct (decide (k = k0)) as [->|Hne].
      * rewrite bool_decide_eq_true_2 by left. cbn. by rewrite !lookup_delete_eq.
      * rewrite bool_decide_eq_false_2 by (by intros [?|?]%elem_of_cons).
        cbn. by rewrite !lookup_delete_ne.
  - rewrite decide_False by done. done.
Qed.

(** Each of them with one [Storage.removeItem], in the order of the
    entries. *)
Lemma remove_members_writes (rc : object) : forall s,
  let s' := fold_left (fun s kv => if isNull kv.2 then remove kv.1 s else s) rc s in
  filter (fun e => isStorageWrite e = true) (trace s')
  = filter (fun e => isStorageWrite e = true) (trace s)
    ++ map StorageRemoveItem (objKeys (filter (fun kv => isNull kv.2 = true) rc)).
Proof.
  induction rc as [|[k0 v0] rc IH]; intros s; cbn [fold_left fst snd].
  - by rewrite app_nil_r.
  - cbv zeta in *. rewrite IH, filter_cons. cbn [snd]. destruct (isNull v0) eqn:Hv0.
    + rewrite decide_True by done. cbn. rewrite !filter_app. cbn.
      by rewrite app_nil_r, <- app_assoc.
    + by rewrite decide_False by done.
Qed.

(** What [prepareKeyValuePairsForStorage] returns and does, entry by
    entry. *)
Lemma prepare_spec (data : object) b s k :
  NoDup (objKeys data) ->
  let r := prepareKeyValuePairsForStorage data b s in
  objGet k r.1
  = match objGet k data with
    | Some v =>
        if isNull v then None
        else Some (if b then removeNestedNullValues v else v)
    | None => None
    end
  /\ NoDup (objKeys r.1)
  /\ cache r.2 !! k
     = match objGet k data with
       | Some v => if isNull v then None else cache s !! k
       | None => cache s !! k
       end
  /\ storage r.2 !! k
     = match objGet k data with
       | Some v => if isNull v then None else storage s !! k
       | None => storage s !! k
       end
  /\ mergeQueue r.2 = mergeQueue s.
Proof.
  intros Hnd. cbv zeta. unfold prepareKeyValuePairsForStorage. cbn [fst snd].
  destruct (remove_members_lookup data k s) as (Hc & Hs & Hq). cbv zeta in Hc, Hs, Hq.
  pose proof (objKeys_filter_elem (fun kv => isNull kv.2 = true) data k Hnd) as Hrem.
  cbn [snd] in Hrem.
  assert (Hb : bool_decide (k ∈ objKeys (filter (fun kv => isNull kv.2 = true) data))
               = match objGet k data with Some v => isNull v | None => false end).
  { destruct (objGet k data) as [v|] eqn:Hv.
    - destruct (isNull v) eqn:Hn.
      + apply bool_decide_eq_true_2, Hrem. eauto.
      + apply bool_decide_eq_false_2. intros (w & Hw & Hwn)%Hrem. congruence.
    - apply bool_decide_eq_false_2. intros (w & Hw & _)%Hrem. done. }
  rewrite Hc, Hs, Hq, Hb. clear Hc Hs Hq Hb Hrem.
  split; [|split; [|split; [|split]]].
  - unfold keyValuePairs.
    rewrite (objGet_map_values
               (fun kv => if b then removeNestedNullValues kv.2 else kv.2)).
    rewrite (objGet_filter_NoDup (fun kv => isNull kv.2 = false)) by done.
    destruct (objGet k data) as [v|]; [|done]. cbn [snd].
    destruct (isNull v); [by rewrite decide_False|by rewrite decide_True].
  - rewrite keyValuePairs_keys. by apply NoDup_objKeys_filter.
  - by destruct (objGet k data) as [v|]; [destruct (isNull v)|].
  - by destruct (objGet k data) as [v|]; [destruct (isNull v)|].
  - done.
Qed.

Lemma filter_map_values {A B} (g : string * A -> B) (P : B -> Prop)
  `{!forall b, Decision (P b)} (data : list (string * A)) :
  filter (fun kv => P kv.2) (map (fun kv => (kv.1, g kv)) data)
  = map (fun kv => (kv.1, g kv)) (filter (fun kv => P (g kv)) data).
Proof.
  induction data as [|kv data IH]; [done|].
  cbn [map]. rewrite !filter_cons. cbn [snd].
  destruct (decide (P (g kv))); cbn [map]; by rewrite IH.
Qed.

(** What [multiSet] leaves at any key, and its storage calls. *)
Lemma multiSet_at cfg (data : object) s :
  NoDup (objKeys data) ->
  let written kv := if isSkippable cfg kv.1 None then VNull else kv.2 in
  let r := multiSet cfg data s in
  r.1 = StoragePromise
  /\ (forall k,
        cache r.2 !! k
        = match objGet k data with
          | Some v => if isNull (written (k, v)) then None
                      else Some (removeNestedNullValues (written (k, v)))
          | None => cache s !! k
          end
        /\ storage r.2 !! k
           = match objGet k data with
             | Some v => if isNull (written (k, v)) then None
                         else Some (removeNestedNullValues (written (k, v)))
             | None => storage s !! k
             end
        /\ mergeQueue r.2 !! k
           = match objGet k data with
             | Some v => if isNull (written (k, v)) then mergeQueue s !! k else None
             | None => mergeQueue s !! k
             end)
  /\ filter (fun e => isStorageWrite e = true) (trace r.2)
     = filter (fun e => isStorageWrite e = true) (trace s)
       ++ map StorageRemoveItem
            (objKeys (filter (fun kv => isNull (written kv) = true) data))
       ++ [StorageMultiSet
             (map (fun kv => (kv.1, removeNestedNullValues (written kv)))
                (filter (fun kv => isNull (written kv) = false) data))].
Proof.
  intros Hnd written. cbv zeta. unfold multiSet.
  rewrite (skipMembers_map cfg None data Hnd).
  change (map _ data) with (map (fun kv => (kv.1, written kv)) data).
  set (newData := map (fun kv => (kv.1, written kv)) data).
  assert (Hkeys : objKeys newData = objKeys data) by apply objKeys_map_values.
  assert (Hnd' : NoDup (objKeys newData)) by (by rewrite Hkeys).
  assert (Hget : forall k, objGet k newData = (fun v => written (k, v)) <$> objGet k data).
  { intros k. apply objGet_map_values. }
  assert (Hprep : forall k,
            let p := prepareKeyValuePairsForStorage newData true s in
            objGet k p.1
            = match objGet k newData with
              | Some v => if isNull v then None else Some (removeNestedNullValues v)
              | None => None
              end
            /\ NoDup (objKeys p.1)
            /\ cache p.2 !! k
               = match objGet k newData with
                 | Some v => if isNull v then None else cache s !! k
                 | None => cache s !! k
                 end
            /\ storage p.2 !! k
               = match objGet k newData with
                 | Some v => if isNull v then None else storage s !! k
                 | None => storage s !! k
                 end
            /\ mergeQueue p.2 = mergeQueue s).
  { intros k. apply (prepare_spec newData true s k Hnd'). }
  pose proof (remove_members_writes newData s) as Hrw. cbv zeta in Hrw.
  assert (Hpairs : (prepareKeyValuePairsForStorage newData true s).1
                   = map (fun kv => (kv.1, removeNestedNullValues (written kv)))
                       (filter (fun kv => isNull (written kv) = false) data)).
  { unfold prepareKeyValuePairsForStorage, keyValuePairs. cbn [fst]. subst newData.
    pose proof (filter_map_values written (fun w => isNull w = false) data) as Hf.
    cbv beta in Hf. rewrite Hf, map_map. done. }
  assert (Hremoved : objKeys (filter (fun kv => isNull kv.2 = true) newData)
                     = objKeys (filter (fun kv => isNull (written kv) = true) data)).
  { subst newData.
    pose proof (filter_map_values written (fun w => isNull w = true) data) as Hf.
    cbv beta in Hf. rewrite Hf. apply objKeys_map_values. }
  rewrite Hremoved in Hrw. clear Hremoved.
  destruct (prepareKeyValuePairsForStorage newData true s) as [pairs s0] eqn:Hp.
  cbn [fst snd] in Hprep, Hpairs, Hrw.
  assert (Hs0 : s0 = fold_left (fun s kv => if isNull kv.2 then remove kv.1 s else s)
                       newData s).
  { unfold prepareKeyValuePairsForStorage in Hp. by injection Hp. }
  rewrite <- Hs0 in Hrw. clear Hs0 Hp.
  assert (Hpnd : NoDup (objKeys pairs)) by (by destruct (Hprep "") as (_ & ? & _)).
  destruct (multiSet_loop pairs s0 Hpnd) as (Hc & Hs & Hq & es & Ht & Hes).
  cbv zeta in Hc, Hs, Hq, Ht.
  set (s' := fold_left _ pairs s0) in *.
  cbn [fst snd cache storage mergeQueue trace emit Storage_multiSet withStorage].
  assert (Hlook : forall k,
             cache s' !! k
             = match objGet k pairs with Some w => Some w | None => cache s0 !! k end
             /\ fold_left (fun m kv => storePut kv.1 kv.2 m) pairs (storage s') !! k
                = match objGet k pairs with
                  | Some w => nullToUndefined w
                  | None => storage s0 !! k
                  end
             /\ mergeQueue s' !! k
                = match objGet k pairs with
                  | Some _ => None
                  | None => mergeQueue s !! k
                  end).
  { intros k. split; [apply Hc|]. split.
    - rewrite multiSet_lookup by done. by rewrite Hs.
    - rewrite Hq. destruct (Hprep k) as (_ & _ & _ & _ & Hq0). rewrite Hq0.
      destruct (objGet k pairs) as [w|] eqn:Hw.
      + rewrite bool_decide_eq_true_2; [done|]. apply objGet_Some_elem_keys. eauto.
      + rewrite bool_decide_eq_false_2; [done|].
        intros [w Hw']%objGet_Some_elem_keys. congruence. }
  split; [done|]. split.
  - intros k. destruct (Hlook k) as (-> & -> & ->).
    destruct (Hprep k) as (-> & _ & -> & -> & _).
    rewrite Hget. destruct (objGet k data) as [v|]; cbn [fmap option_fmap option_map]; [|done].
    destruct (isNull (written (k, v))) eqn:Hn; [done|].
    unfold nullToUndefined. by rewrite removeNestedNullValues_not_null.
  - rewrite <- !app_assoc, !filter_app, Ht, filter_app, Hrw, Hpairs.
    assert (Hnone : filter (fun e => isStorageWrite e = true) es = []).
    { clear -Hes. induction Hes as [|e es (k & v & prev & ->) _ IH]; [done|].
      rewrite filter_cons. cbn. done. }
    rewrite Hnone. cbn. by rewrite <- !app_assoc.
Qed.

(** X9: [multiSet(data)] writes every entry without a compatibility check.
    The value of an entry is first made [null] for a skippable member.  An
    entry whose value is then [null] is removed: the key is dropped from the
    cache and removed from storage with a [Storage.removeItem] of its own;
    its merge-queue entry is left in place.  Every other entry is cached and
    stored with its nested nulls removed, and the merge-queue entry of its
    key is dropped.  The keys outside [data] are left as they are.  The
    storage calls are the [removeItem]s, in the order of the entries, and
    then one [Storage.multiSet] with the pairs of the other entries. *)
Theorem multiSet_writes cfg (data : object) s :
  NoDup (objKeys data) ->
  let written kv := if isSkippable cfg kv.1 None then VNull else kv.2 in
  let r := multiSet cfg data s in
  r.1 = StoragePromise
  /\ (forall key v,
        (key, v) ∈ data ->
        if isNull (written (key, v))
        then cache r.2 !! key = None
             /\ storage r.2 !! key = None
             /\ mergeQueue r.2 !! key = mergeQueue s !! key
        else cache r.2 !! key = Some (removeNestedNullValues (written (key, v)))
             /\ storage r.2 !! key = Some (removeNestedNullValues (written (key, v)))
             /\ mergeQueue r.2 !! key = None)
  /\ (forall k,
        k ∉ objKeys data ->
        cache r.2 !! k = cache s !! k
        /\ storage r.2 !! k = storage s !! k
        /\ mergeQueue r.2 !! k = mergeQueue s !! k)
  /\ filter (fun e => isStorageWrite e = true) (trace r.2)
     = filter (fun e => isStorageWrite e = true) (trace s)
       ++ map StorageRemoveItem
            (objKeys (filter (fun kv => isNull (written kv) = true) data))
       ++ [StorageMultiSet
             (map (fun kv => (kv.1, removeNestedNullValues (written kv)))
                (filter (fun kv => isNull (written kv) = false) data))].
Proof.
  intros Hnd written. cbv zeta.
  destruct (multiSet_at cfg data s Hnd) as (Hp & Hlook & Hw). cbv zeta in Hp, Hlook, Hw.
  split; [done|]. split; [|split; [|done]].
  - intros key v Hin. destruct (Hlook key) as (-> & -> & ->).
    rewrite (objGet_NoDup key v data Hnd Hin). fold (written (key, v)).
    by destruct (isNull (written (key, v))).
  - intros k Hk. destruct (Hlook k) as (-> & -> & ->).
    by rewrite (objGet_None k data Hk).
Qed.

Lemma multiSet_writes_witness :
  let s := withMergeQueue (<["gone" := [VNum 1]]>)
             (storeOf [("k", VObj [("a", VNum 1)]); ("gone", VNum 5); ("other", VNum 7)]) in
  let r := multiSet cfgReports [("k", VArr [VNum 1]); ("gone", VNull)] s in
  cache r.2 !! "k" = Some (VArr [VNum 1])
  /\ storage r.2 !! "k" = Some (VArr [VNum 1])
  /\ cache r.2 !! "gone" = None
  /\ storage r.2 !! "gone" = None
  /\ mergeQueue r.2 !! "gone" = Some [VNum 1]
  /\ cache r.2 !! "other" = Some (VNum 7).
Proof.
  destruct (multiSet_writes cfgReports [("k", VArr [VNum 1]); ("gone", VNull)]
              (withMergeQueue (<["gone" := [VNum 1]]>)
                 (storeOf [("k", VObj [("a", VNum 1)]); ("gone", VNum 5);
                           ("other", VNum 7)])))
    as (_ & Hin & Hout & _).
  { apply (bool_decide_unpack _). by vm_compute. }
  cbv zeta. set (r := multiSet _ _ _) in *.
  assert (Hk : cache r.2 !! "k" = Some (VArr [VNum 1])
               /\ storage r.2 !! "k" = Some (VArr [VNum 1])
               /\ mergeQueue r.2 !! "k" = None).
  { refine (Hin "k" (VArr [VNum 1]) _). left. }
  destruct Hk as (Hc & Hs & _).
  assert (Hg : cache r.2 !! "gone" = None
               /\ storage r.2 !! "gone" = None
               /\ mergeQueue r.2 !! "gone" = Some [VNum 1]).
  { refine (Hin "gone" VNull _). right. left. }
  destruct Hg as (Hc' & Hs' & Hq').
  destruct (Hout "other") as (Hc'' & _).
  { intros Hk. apply list_elem_of_In in Hk. cbn in Hk. intuition discriminate. }
  rewrite Hc, Hs, Hc', Hs', Hq', Hc''. repeat split.
Defined.

(** X10: [multiSet] cancels a queued merge like [set] does, for the entries
    it writes: after [merge(K, d)] and a [multiSet] whose data has the key K
    with a value that is not [null], K not being a skippable member, the fold
    of K finds no queue entry and does nothing, so the delta is discarded. *)
Theorem multiSet_cancels_queued_merge cfg key d (data : object) v existingValue s :
  NoDup (objKeys data) ->
  (key, v) ∈ data ->
  isSkippable cfg key None = false ->
  isNull v = false ->
  let queued := (merge cfg key (Some d) s).2 in
  let written := (multiSet cfg data queued).2 in
  mergeQueue written !! key = None
  /\ mergeFold key existingValue written = (Resolved, written).
Proof.
  intros Hnd Hin Hskip Hnull. cbv zeta.
  set (written := (multiSet cfg data (merge cfg key (Some d) s).2).2).
  assert (Hgone : mergeQueue written !! key = None).
  { subst written. unfold multiSet.
    rewrite (skipMembers_map cfg None data Hnd).
    set (newData := map _ data).
    assert (Hnd' : NoDup (objKeys newData)).
    { subst newData.
      by rewrite (objKeys_map_values
                    (fun kv => if isSkippable cfg kv.1 None then VNull else kv.2)). }
    destruct (prepare_spec newData true (merge cfg key (Some d) s).2 key Hnd')
      as (Hget & Hpnd & _).
    cbv zeta in Hget, Hpnd.
    destruct (prepareKeyValuePairsForStorage newData true _) as [pairs s0].
    cbn [fst snd] in Hget, Hpnd.
    destruct (multiSet_loop pairs s0 Hpnd) as (_ & _ & Hq & _). cbv zeta in Hq.
    assert (Hkey : key ∈ objKeys pairs).
    { apply objGet_Some_elem_keys. rewrite Hget. subst newData.
      rewrite (objGet_map_values
                 (fun kv => if isSkippable cfg kv.1 None then VNull else kv.2)).
      rewrite (objGet_NoDup key v data Hnd Hin). cbn. rewrite Hskip, Hnull. eauto. }
    cbn [snd mergeQueue emit Storage_multiSet withStorage].
    by rewrite Hq, bool_decide_eq_true_2. }
  split; [exact Hgone|]. unfold mergeFold. by rewrite Hgone.
Qed.

Lemma multiSet_cancels_queued_merge_witness :
  let queued := (merge cfgReports "k" (Some (VObj [("x", VNum 1)])) emptyStore).2 in
  let written := (multiSet cfgReports [("k", VObj [("z", VNum 9)])] queued).2 in
  mergeQueue queued !! "k" = Some [VObj [("x", VNum 1)]]
  /\ mergeQueue written !! "k" = None
  /\ mergeFold "k" None written = (Resolved, written).
Proof.
  cbv zeta. split; [reflexivity|].
  apply (multiSet_cancels_queued_merge cfgReports "k" (VObj [("x", VNum 1)])
           [("k", VObj [("z", VNum 9)])] (VObj [("z", VNum 9)]) None emptyStore).
  - apply (bool_decide_unpack _). by vm_compute.
  - left.
  - reflexivity.
  - reflexivity.
Defined.

(** ** [setCollection] *)

Lemma objGet_objSet {A} k k' (v : A) (o : list (string * A)) :
  objGet k (objSet k' v o) = if String.eqb k k' then Some v else objGet k o.
Proof.
  induction o as [|[k0 v0] o IH]; cbn.
  - by destruct (String.eqb k k').
  - destruct (String.eqb k' k0) eqn:E0; cbn.
    + apply String.eqb_eq in E0 as ->. by destruct (String.eqb k k0).
    + rewrite IH. destruct (String.eqb k k') eqn:E; [|done].
      apply String.eqb_eq in E as ->. by rewrite E0.
Qed.

(** The members [setCollection] adds to the input: the persisted keys of the
    collection that the input leaves out, each with the value [null]. *)
Lemma mutableCollection_get ck (keys0 persistedKeys : list string) k :
  forall acc : object,
  let m :=
    fold_left
      (fun m key =>
         if negb (String.prefix ck key) then m
         else if bool_decide (key ∈ keys0) then m
         else objSet key VNull m)
      persistedKeys acc in
  objGet k m
  = (if bool_decide (k ∈ persistedKeys /\ String.prefix ck k = true /\ k ∉ keys0)
     then Some VNull else objGet k acc)
  /\ (NoDup (objKeys acc) -> NoDup (objKeys m)).
Proof.
  induction persistedKeys as [|p ps IH]; intros acc; cbn [fold_left].
  - cbv zeta. split; [|done]. rewrite bool_decide_eq_false_2; [done|].
    intros [H _]. by apply not_elem_of_nil in H.
  - set (acc' := if negb (String.prefix ck p) then acc
                 else if bool_decide (p ∈ keys0) then acc else objSet p VNull acc).
    destruct (IH acc') as [Hget Hnd]. cbv zeta in *. split.
    + rewrite Hget.
      destruct (decide (k ∈ ps /\ String.prefix ck k = true /\ k ∉ keys0))
        as [(H1 & H2 & H3)|Hn].
      * rewrite !bool_decide_eq_true_2; [done| |done].
        split; [by right|done].
      * rewrite (bool_decide_eq_false_2 _ Hn).
        destruct (decide (k = p)) as [->|Hne].
        -- subst acc'. destruct (String.prefix ck p) eqn:Hp; cbn [negb].
           ++ destruct (decide (p ∈ keys0)) as [Hin|Hnin].
              ** rewrite (bool_decide_eq_true_2 _ Hin).
                 rewrite bool_decide_eq_false_2; [done|]. by intros (_ & _ & ?).
              ** rewrite (bool_decide_eq_false_2 _ Hnin).
                 rewrite objGet_objSet, String.eqb_refl.
                 rewrite bool_decide_eq_true_2; [done|]. split; [left|done].
           ++ rewrite bool_decide_eq_false_2; [done|]. by intros (_ & ? & _).
        -- assert (Hacc : objGet k acc' = objGet k acc).
           { subst acc'. destruct (negb _); [done|]. case_bool_decide; [done|].
             rewrite objGet_objSet. apply String.eqb_neq in Hne. by rewrite Hne. }
           rewrite Hacc. rewrite bool_decide_eq_false_2; [done|].
           intros ([?|?]%elem_of_cons & ? & ?); [done|]. by apply Hn.
    + intros Hacc. apply Hnd. subst acc'.
      destruct (negb _); [done|]. case_bool_decide; [done|].
      by apply objSet_NoDup.
Qed.

Lemma cacheSets_lookup (pairs : object) : forall s,
  NoDup (objKeys pairs) ->
  let s' := fold_left (fun s kv => cacheSet kv.1 (Some kv.2) s) pairs s in
  (forall k, cache s' !! k
             = match objGet k pairs with Some w => Some w | None => cache s !! k end)
  /\ storage s' = storage s
  /\ mergeQueue s' = mergeQueue s
  /\ trace s' = trace s.
Proof.
  induction pairs as [|[k' w] pairs IH]; intros s Hnd; cbn [fold_left fst snd]; [done|].
  change (objKeys ((k', w) :: pairs)) with (k' :: objKeys pairs) in Hnd.
  apply NoDup_cons in Hnd as [Hk' Hnd].
  destruct (IH (cacheSet k' (Some w) s) Hnd) as (Hc & Hs & Hq & Ht). cbv zeta in *.
  split; [|by rewrite Hs, Hq, Ht].
  intros k. rewrite Hc. cbn [objGet fst snd].
  destruct (String.eqb k k') eqn:E.
  - apply String.eqb_eq in E as ->. rewrite objGet_None by done.
    cbn. by rewrite lookup_insert_eq.
  - apply String.eqb_neq in E. destruct (objGet k pairs); [done|].
    cbn. by rewrite lookup_insert_ne.
Qed.

Lemma objSet_elem {A} k (v : A) (o : list (string * A)) x w :
  (x, w) ∈ objSet k v o -> (x = k /\ w = v) \/ (x, w) ∈ o.
Proof.
  induction o as [|[k0 v0] o IH]; cbn [objSet].
  - intros [= -> ->]%list_elem_of_singleton. by left.
  - destruct (String.eqb k k0) eqn:E.
    + apply String.eqb_eq in E as ->.
      intros [[= -> ->]|Hin]%elem_of_cons; [by left | right; by right].
    + intros [[= -> ->]|Hin]%elem_of_cons; [right; left|].
      destruct (IH Hin) as [?|?]; [by left | right; by right].
Qed.

(** The members added for the stale keys are [null]: the other entries
    are those of the input. *)
Lemma objSet_null_filter k (m : object) :
  (forall v, (k, v) ∈ m -> v = VNull) ->
  filter (fun kv => isNull kv.2 = false) (objSet k VNull m)
  = filter (fun kv => isNull kv.2 = false) m.
Proof.
  induction m as [|[k0 v0] m IH]; intros Hk; cbn [objSet].
  - by rewrite filter_cons, decide_False by done.
  - destruct (String.eqb k k0) eqn:E.
    + apply String.eqb_eq in E as ->.
      rewrite (Hk v0) by left. done.
    + rewrite !filter_cons. cbn [snd]. rewrite IH; [done|].
      intros v Hv. apply Hk. by right.
Qed.

Lemma mutableCollection_filter ck (keys0 persistedKeys : list string) :
  forall acc : object,
  (forall k v, (k, v) ∈ acc -> k ∉ keys0 -> v = VNull) ->
  filter (fun kv => isNull kv.2 = false)
    (fold_left
       (fun m key =>
          if negb (String.prefix ck key) then m
          else if bool_decide (key ∈ keys0) then m
          else objSet key VNull m)
       persistedKeys acc)
  = filter (fun kv => isNull kv.2 = false) acc.
Proof.
  induction persistedKeys as [|p ps IH]; intros acc Hacc; cbn [fold_left]; [done|].
  destruct (negb (String.prefix ck p)); [by apply IH|].
  destruct (decide (p ∈ keys0)) as [Hin|Hnin].
  - rewrite (bool_decide_eq_true_2 _ Hin). by apply IH.
  - rewrite (bool_decide_eq_false_2 _ Hnin). rewrite IH.
    + apply objSet_null_filter. intros v Hv. by apply (Hacc p).
    + intros k v Hv Hk. apply objSet_elem in Hv as [[_ ->]|Hv]; [done|].
      by apply (Hacc k).
Qed.

(** What [setCollectionThen] leaves at any key, and its storage calls. *)
Lemma setCollectionThen_at ck (resultCollection : object) persistedKeys s :
  NoDup (objKeys resultCollection) ->
  let r := setCollectionThen ck resultCollection persistedKeys s in
  let stale k :=
    k ∈ persistedKeys /\ String.prefix ck k = true /\ k ∉ objKeys resultCollection in
  r.1 = StoragePromise
  /\ (forall k,
        let member :=
          if bool_decide (stale k) then Some VNull else objGet k resultCollection in
        cache r.2 !! k
        = match member with
          | Some v => if isNull v then None else Some (removeNestedNullValues v)
          | None => cache s !! k
          end
        /\ storage r.2 !! k
           = match member with
             | Some v => if isNull v then None else Some (removeNestedNullValues v)
             | None => storage s !! k
             end)
  /\ mergeQueue r.2 = mergeQueue s
  /\ exists removed,
       filter (fun e => isStorageWrite e = true) (trace r.2)
       = filter (fun e => isStorageWrite e = true) (trace s)
         ++ map StorageRemoveItem removed
         ++ [StorageMultiSet
               (map (fun kv => (kv.1, removeNestedNullValues kv.2))
                  (filter (fun kv => isNull kv.2 = false) resultCollection))]
       /\ forall k, k ∈ removed <-> stale k \/ (k, VNull) ∈ resultCollection.
Proof.
  intros Hnd. cbv zeta. unfold setCollectionThen.
  set (mutableCollection := fold_left _ persistedKeys resultCollection).
  assert (Hm : forall k,
             objGet k mutableCollection
             = if bool_decide (k ∈ persistedKeys /\ String.prefix ck k = true
                               /\ k ∉ objKeys resultCollection)
               then Some VNull else objGet k resultCollection).
  { intros k.
    apply (mutableCollection_get ck (objKeys resultCollection) persistedKeys k
             resultCollection). }
  assert (Hmnd : NoDup (objKeys mutableCollection)).
  { by apply (mutableCollection_get ck (objKeys resultCollection) persistedKeys ""
                resultCollection). }
  assert (Hmf : filter (fun kv => isNull kv.2 = false) mutableCollection
                = filter (fun kv => isNull kv.2 = false) resultCollection).
  { apply mutableCollection_filter. intros k v Hv Hk. exfalso. apply Hk.
    by eapply objKeys_elem. }
  assert (Hprep : forall k,
            let p := prepareKeyValuePairsForStorage mutableCollection true s in
            objGet k p.1
            = match objGet k mutableCollection with
              | Some v => if isNull v then None else Some (removeNestedNullValues v)
              | None => None
              end
            /\ NoDup (objKeys p.1)
            /\ cache p.2 !! k
               = match objGet k mutableCollection with
                 | Some v => if isNull v then None else cache s !! k
                 | None => cache s !! k
                 end
            /\ storage p.2 !! k
               = match objGet k mutableCollection with
                 | Some v => if isNull v then None else storage s !! k
                 | None => storage s !! k
                 end
            /\ mergeQueue p.2 = mergeQueue s).
  { intros k. apply (prepare_spec mutableCollection true s k Hmnd). }
  pose proof (remove_members_writes mutableCollection s) as Hrw. cbv zeta in Hrw.
  assert (Hpairs : (prepareKeyValuePairsForStorage mutableCollection true s).1
                   = map (fun kv => (kv.1, removeNestedNullValues kv.2))
                       (filter (fun kv => isNull kv.2 = false) resultCollection)).
  { unfold prepareKeyValuePairsForStorage, keyValuePairs. cbn [fst]. by rewrite Hmf. }
  pose proof (objKeys_filter_elem (fun kv => isNull kv.2 = true) mutableCollection)
    as Hremoved.
  set (removed := objKeys (filter (fun kv => isNull kv.2 = true) mutableCollection)) in *.
  destruct (prepareKeyValuePairsForStorage mutableCollection true s) as [pairs s0] eqn:Hp.
  cbn [fst snd] in Hprep, Hpairs.
  assert (Hs0 : s0 = fold_left (fun s kv => if isNull kv.2 then remove kv.1 s else s)
                       mutableCollection s).
  { unfold prepareKeyValuePairsForStorage in Hp. by injection Hp. }
  rewrite <- Hs0 in Hrw. clear Hs0 Hp.
  assert (Hpnd : NoDup (objKeys pairs)) by (by destruct (Hprep "") as (_ & ? & _)).
  destruct (cacheSets_lookup pairs s0 Hpnd) as (Hc & Hs & Hq & Ht).
  cbv zeta in Hc, Hs, Hq, Ht.
  set (s' := fold_left _ pairs s0) in *.
  cbn [fst snd cache storage mergeQueue trace emit Storage_multiSet withStorage].
  assert (Hlook : forall k,
             cache s' !! k
             = match objGet k mutableCollection with
               | Some v => if isNull v then None else Some (removeNestedNullValues v)
               | None => cache s !! k
               end
             /\ fold_left (fun m kv => storePut kv.1 kv.2 m) pairs (storage s') !! k
                = match objGet k mutableCollection with
                  | Some v => if isNull v then None else Some (removeNestedNullValues v)
                  | None => storage s !! k
                  end).
  { intros k. rewrite Hc, multiSet_lookup, Hs by done.
    destruct (Hprep k) as (-> & _ & -> & -> & _).
    destruct (objGet k mutableCollection) as [v|]; [|done].
    destruct (isNull v) eqn:Hn; [done|].
    unfold nullToUndefined. by rewrite removeNestedNullValues_not_null. }
  split; [done|]. split; [|split].
  - intros k. cbv zeta. destruct (Hlook k) as [-> ->]. by rewrite Hm.
  - rewrite Hq. by destruct (Hprep "") as (_ & _ & _ & _ & ->).
  - exists removed. split.
    + rewrite <- !app_assoc, !filter_app, Ht, Hrw, Hpairs. cbn.
      by rewrite <- !app_assoc.
    + intros k. rewrite (Hremoved k Hmnd), Hm. cbn [snd]. split.
      * intros (v & Hv & Hn). case_bool_decide as Hst; [by left|]. right.
        destruct v; try done. by apply objGet_elem.
      * intros [Hst|Hin].
        -- exists VNull. by rewrite bool_decide_eq_true_2.
        -- exists VNull. rewrite bool_decide_eq_false_2.
           ++ split; [by apply objGet_NoDup|done].
           ++ intros (_ & _ & Hn). apply Hn. by eapply objKeys_elem.
Qed.


(** X11: [setCollection] replaces the collection.  Once the keys are known,
    every member of the input whose value is not [null] is cached and stored
    with its nested nulls removed; every member whose value is [null], and
    every persisted key that starts with the collection key and is missing
    from the input, is removed: dropped from the cache and removed from
    storage with a [Storage.removeItem] of its own; every other key keeps its
    cached and stored value.  After the [removeItem]s comes one
    [Storage.multiSet] with the members that are not [null].  The merge queue
    is not touched: unlike [set] and [multiSet], [setCollection] does not
    cancel the queued merges of its members. *)
Theorem setCollection_replaces ck (resultCollection : object) persistedKeys s :
  NoDup (objKeys resultCollection) ->
  let r := setCollectionThen ck resultCollection persistedKeys s in
  let stale k :=
    k ∈ persistedKeys /\ String.prefix ck k = true /\ k ∉ objKeys resultCollection in
  r.1 = StoragePromise
  /\ (forall key v,
        (key, v) ∈ resultCollection ->
        if isNull v
        then cache r.2 !! key = None /\ storage r.2 !! key = None
        else cache r.2 !! key = Some (removeNestedNullValues v)
             /\ storage r.2 !! key = Some (removeNestedNullValues v))
  /\ (forall k, stale k -> cache r.2 !! k = None /\ storage r.2 !! k = None)
  /\ (forall k,
        k ∉ objKeys resultCollection -> ~ stale k ->
        cache r.2 !! k = cache s !! k /\ storage r.2 !! k = storage s !! k)
  /\ mergeQueue r.2 = mergeQueue s
  /\ exists removed,
       filter (fun e => isStorageWrite e = true) (trace r.2)
       = filter (fun e => isStorageWrite e = true) (trace s)
         ++ map StorageRemoveItem removed
         ++ [StorageMultiSet
               (map (fun kv => (kv.1, removeNestedNullValues kv.2))
                  (filter (fun kv => isNull kv.2 = false) resultCollection))]
       /\ forall k, k ∈ removed <-> stale k \/ (k, VNull) ∈ resultCollection.
Proof.
  intros Hnd. cbv zeta.
  destruct (setCollectionThen_at ck resultCollection persistedKeys s Hnd)
    as (Hp & Hlook & Hq & Hw).
  cbv zeta in Hp, Hlook, Hq, Hw.
  split; [done|]. split; [|split; [|split; [|split; [done|done]]]].
  - intros key v Hin. destruct (Hlook key) as [-> ->].
    rewrite bool_decide_eq_false_2.
    + rewrite (objGet_NoDup key v resultCollection Hnd Hin). by destruct (isNull v).
    + intros (_ & _ & Hn). apply Hn. by eapply objKeys_elem.
  - intros k Hstale. destruct (Hlook k) as [-> ->].
    by rewrite bool_decide_eq_true_2.
  - intros k Hk Hstale. destruct (Hlook k) as [-> ->].
    rewrite (bool_decide_eq_false_2 _ Hstale). by rewrite objGet_None.
Qed.

Lemma setCollection_replaces_witness :
  let s := storeOf [("report_1", VNum 1); ("report_2", VNum 2); ("other", VNum 7)] in
  let r := setCollectionThen "report_" [("report_1", VObj [("a", VNull)])]
             (getAllKeys s) s in
  cache r.2 !! "report_1" = Some (VObj [])
  /\ cache r.2 !! "report_2" = None
  /\ storage r.2 !! "report_2" = None
  /\ cache r.2 !! "other" = Some (VNum 7).
Proof.
  destruct (setCollection_replaces "report_" [("report_1", VObj [("a", VNull)])]
              (getAllKeys (storeOf [("report_1", VNum 1); ("report_2", VNum 2);
                                    ("other", VNum 7)]))
              (storeOf [("report_1", VNum 1); ("report_2", VNum 2); ("other", VNum 7)]))
    as (_ & Hin & Hstale & Hout & _).
  { apply (bool_decide_unpack _). by vm_compute. }
  cbv zeta. set (r := setCollectionThen _ _ _ _) in *.
  assert (H1 : cache r.2 !! "report_1" = Some (VObj [])
               /\ storage r.2 !! "report_1" = Some (VObj [])).
  { refine (Hin "report_1" (VObj [("a", VNull)]) _). left. }
  destruct H1 as (Hc & _).
  destruct (Hstale "report_2") as (Hc2 & Hs).
  { apply (bool_decide_unpack _). by vm_compute. }
  destruct (Hout "other") as (Hc' & _).
  { apply (bool_decide_unpack _). by vm_compute. }
  { intros (_ & Hp & _). by vm_compute in Hp. }
  rewrite Hc, Hc2, Hs, Hc'. repeat split.
Defined.

(** ** [mergeCollection] *)

Lemma objGet_app {A} k (o1 o2 : list (string * A)) :
  objGet k (o1 ++ o2)
  = match objGet k o1 with Some v => Some v | None => objGet k o2 end.
Proof.
  induction o1 as [|[k0 v0] o1 IH]; cbn; [done|].
  by destruct (String.eqb k k0).
Qed.

Lemma objGet_omap_keys {A} (h : string -> option A) (ks : list string) k :
  objGet k (omap (fun key => (fun v => (key, v)) <$> h key) ks)
  = if bool_decide (k ∈ ks) then h k else None.
Proof.
  induction ks as [|k0 ks IH]; [done|].
  cbn [omap list_omap]. fold (omap (fun key => (fun v => (key, v)) <$> h key) ks).
  destruct (decide (k = k0)) as [->|Hne].
  - rewrite bool_decide_eq_true_2 by left.
    destruct (h k0) as [v|] eqn:Hh; cbn.
    + by rewrite String.eqb_refl.
    + rewrite IH. by case_bool_decide.
  - assert (Hb : bool_decide (k ∈ k0 :: ks) = bool_decide (k ∈ ks)).
    { apply bool_decide_ext. rewrite elem_of_cons. split; [by intros [?|?] | by right]. }
    rewrite Hb. destruct (h k0) as [v|]; cbn; [|done].
    apply String.eqb_neq in Hne. by rewrite Hne.
Qed.

Lemma objKeys_omap_keys {A} (h : string -> option A) (ks : list string) :
  objKeys (omap (fun key => (fun v => (key, v)) <$> h key) ks)
  = filter (fun key => is_Some (h key)) ks.
Proof.
  induction ks as [|k0 ks IH]; [done|].
  cbn [omap list_omap]. fold (omap (fun key => (fun v => (key, v)) <$> h key) ks).
  rewrite filter_cons. destruct (h k0) as [v|] eqn:Hh; cbn.
  - rewrite decide_True by (by eexists). unfold objKeys in IH. by rewrite IH.
  - rewrite decide_False by (by intros [? ?]). done.
Qed.

Lemma cacheMerge_lookup (data : object) k s :
  NoDup (objKeys data) ->
  cache (cacheMerge data s) !! k
  = match objGet k data with
    | Some v => applyMerge (cache s !! k) [v] true
    | None => cache s !! k
    end
  /\ storage (cacheMerge data s) = storage s
  /\ mergeQueue (cacheMerge data s) = mergeQueue s.
Proof.
  intros Hnd. split; [|done]. unfold cacheMerge. cbn [cache withCache].
  generalize (cache s) as c. clear s.
  induction data as [|[k0 v0] data IH]; intros c; cbn [fold_left fst snd objGet]; [done|].
  change (objKeys ((k0, v0) :: data)) with (k0 :: objKeys data) in Hnd.
  apply NoDup_cons in Hnd as [Hk0 Hnd]. rewrite (IH Hnd).
  destruct (applyMerge_nonempty [v0] (c !! k0) true) as [x Hx]; [done|]. rewrite Hx.
  destruct (String.eqb k k0) eqn:E.
  - apply String.eqb_eq in E as ->. rewrite objGet_None by done.
    by rewrite lookup_insert_eq.
  - apply String.eqb_neq in E. by rewrite lookup_insert_ne.
Qed.

Lemma multiMerge_lookup (pairs : object) k :
  NoDup (objKeys pairs) ->
  forall m : gmap string value,
    fold_left (fun m kv => storePutOpt kv.1 (applyMerge (m !! kv.1) [kv.2] true) m) pairs m !! k
    = match objGet k pairs with
      | Some v => storePutOpt k (applyMerge (m !! k) [v] true) m !! k
      | None => m !! k
      end.
Proof.
  induction pairs as [|[k0 v0] pairs IH]; intros Hnd m; cbn [fold_left fst snd objGet]; [done|].
  change (objKeys ((k0, v0) :: pairs)) with (k0 :: objKeys pairs) in Hnd.
  apply NoDup_cons in Hnd as [Hk0 Hnd]. rewrite (IH Hnd).
  destruct (String.eqb k k0) eqn:E.
  - apply String.eqb_eq in E as ->. by rewrite objGet_None.
  - apply String.eqb_neq in E.
    set (m' := storePutOpt k0 _ m).
    assert (Hm' : m' !! k = m !! k) by (subst m'; by rewrite storePutOpt_ne).
    rewrite Hm'. destruct (objGet k pairs) as [v|]; [|done].
    destruct (applyMerge (m !! k) [v] true) as [x|]; cbn [storePutOpt]; [|done].
    by rewrite !nullToUndefined_storePut.
Qed.

Lemma multiMerge_if_any (pairs : object) s :
  let s' := match pairs with [] => s | _ => Storage_multiMerge pairs s end in
  storage s'
  = fold_left (fun m kv => storePutOpt kv.1 (applyMerge (m !! kv.1) [kv.2] true) m)
      pairs (storage s)
  /\ cache s' = cache s /\ mergeQueue s' = mergeQueue s.
Proof. by destruct pairs. Qed.

Lemma multiSet_if_any (pairs : object) s :
  let s' := match pairs with [] => s | _ => Storage_multiSet pairs s end in
  storage s' = fold_left (fun m kv => storePut kv.1 kv.2 m) pairs (storage s)
  /\ cache s' = cache s /\ mergeQueue s' = mergeQueue s.
Proof. by destruct pairs. Qed.

Lemma gets_queue keys : forall s,
  mergeQueue (fold_left (fun s key => OnyxUtils_get key s) keys s) = mergeQueue s.
Proof.
  induction keys as [|k keys IH]; intros s; cbn [fold_left]; [done|].
  rewrite IH. unfold OnyxUtils_get. by destruct (cache s !! k).
Qed.

(** What [mergeCollection] leaves in the cache and in storage under each
    key, once the keys are known. *)
Lemma mergeCollectionThen_lookup ck (rc : object) persistedKeys s k :
  NoDup (objKeys rc) ->
  let r := mergeCollectionThen ck rc persistedKeys s in
  r.1 = StoragePromise
  /\ mergeQueue r.2 = mergeQueue s
  /\ match objGet k rc with
     | None => cache r.2 !! k = cache s !! k /\ storage r.2 !! k = storage s !! k
     | Some v =>
         if isNull v then cache r.2 !! k = None /\ storage r.2 !! k = None
         else if bool_decide (k ∈ persistedKeys) then
           if isCompatible (checkCompatibilityWithExistingValue (Some v) (cache s !! k))
           then cache r.2 !! k = applyMerge (cache s !! k) [v] true
                /\ storage r.2 !! k = applyMerge (storage s !! k) [v] true
           else cache r.2 !! k = cache s !! k /\ storage r.2 !! k = storage s !! k
         else cache r.2 !! k = applyMerge (cache s !! k) [v] true
              /\ storage r.2 !! k = Some (removeNestedNullValues v)
     end.
Proof.
  intros Hnd. unfold mergeCollectionThen. cbv zeta.
  destruct (remove_members_lookup rc k s) as (Hc1 & Hs1 & Hq1). cbv zeta in Hc1, Hs1, Hq1.
  pose proof (objKeys_filter_elem (fun kv => isNull kv.2 = true) rc k Hnd) as Hremoved.
  pose proof (objKeys_filter_elem (fun kv => isNull kv.2 = false) rc k Hnd) as Hkept.
  cbn [snd] in Hremoved, Hkept.
  set (s1 := fold_left (fun s kv => if isNull kv.2 then remove kv.1 s else s) rc s) in *.
  set (removed := objKeys (filter (fun kv => isNull kv.2 = true) rc)) in *.
  set (keys := objKeys (filter (fun kv => isNull kv.2 = false) rc)) in *.
  set (existingKeys := filter (fun key => key ∈ persistedKeys) keys).
  set (cached := getCachedCollection existingKeys s1).
  set (hE := fun key =>
               if isCompatible
                    (checkCompatibilityWithExistingValue (objGet key rc) (objGet key cached))
               then objGet key rc else None).
  set (hN := fun key => if bool_decide (key ∈ persistedKeys) then None else objGet key rc).
  set (existingKeyCollection :=
         omap (fun key =>
                 if isCompatible
                      (checkCompatibilityWithExistingValue (objGet key rc)
                         (objGet key cached))
                 then (fun v => (key, v)) <$> objGet key rc else None) existingKeys).
  set (newCollection :=
         omap (fun key => if bool_decide (key ∈ persistedKeys) then None
                          else (fun v => (key, v)) <$> objGet key rc) keys).
  assert (HEeq : existingKeyCollection
                 = omap (fun key => (fun v => (key, v)) <$> hE key) existingKeys).
  { apply omap_ext_elem. intros x _. subst hE. cbv beta. by destruct (isCompatible _). }
  assert (HNeq : newCollection = omap (fun key => (fun v => (key, v)) <$> hN key) keys).
  { apply omap_ext_elem. intros x _. subst hN. cbv beta. by destruct (bool_decide (x ∈ persistedKeys)). }
  assert (Hkeys : NoDup keys) by (by apply NoDup_objKeys_filter).
  assert (Hexisting : NoDup existingKeys) by (by apply NoDup_filter).
  assert (HEnd : NoDup (objKeys existingKeyCollection)).
  { rewrite HEeq, objKeys_omap_keys. by apply NoDup_filter. }
  assert (HNnd : NoDup (objKeys newCollection)).
  { rewrite HNeq, objKeys_omap_keys. by apply NoDup_filter. }
  assert (HE : forall x, objGet x existingKeyCollection
                         = if bool_decide (x ∈ existingKeys) then hE x else None).
  { intros x. rewrite HEeq. apply objGet_omap_keys. }
  assert (HN : forall x, objGet x newCollection
                         = if bool_decide (x ∈ keys) then hN x else None).
  { intros x. rewrite HNeq. apply objGet_omap_keys. }
  assert (Hfinal : NoDup (objKeys (existingKeyCollection ++ newCollection))).
  { unfold objKeys. rewrite map_app. apply NoDup_app. split; [done|]. split; [|done].
    intros x [v Hv]%objGet_Some_elem_keys [w Hw]%objGet_Some_elem_keys.
    rewrite HE in Hv. rewrite HN in Hw.
    destruct (bool_decide (x ∈ existingKeys)) eqn:Hx; [|done].
    apply bool_decide_eq_true in Hx. apply list_elem_of_filter in Hx as [Hp _].
    destruct (bool_decide (x ∈ keys)); [|done]. subst hN. cbv beta in Hw.
    by rewrite bool_decide_eq_true_2 in Hw. }
  assert (HEnn : Forall (fun kv => isNull kv.2 = false) existingKeyCollection).
  { apply (omap_members_not_null rc); [done| |].
    - intros x [_ Hx]%list_elem_of_filter. exact Hx.
    - intros x p.
      destruct (isCompatible (checkCompatibilityWithExistingValue (objGet x rc) _)); [|done].
      destruct (objGet x rc); [|done]. by intros [= <-]. }
  assert (HNnn : Forall (fun kv => isNull kv.2 = false) newCollection).
  { apply (omap_members_not_null rc); [done| |].
    - intros x Hx. exact Hx.
    - intros x p. destruct (bool_decide (x ∈ persistedKeys)); [done|].
      destruct (objGet x rc); [|done]. by intros [= <-]. }
  set (alerts := omap _ existingKeys).
  set (s2 := emitAll alerts s1).
  rewrite (prepare_no_null existingKeyCollection false s2 HEnn). cbv beta iota.
  rewrite (prepare_no_null newCollection true s2 HNnn). cbv beta iota.
  destruct (gets_frame existingKeys s2) as (Hc3 & Hs3 & _). cbv zeta in Hc3, Hs3.
  pose proof (gets_queue existingKeys s2) as Hq3.
  set (s3 := fold_left (fun s key => OnyxUtils_get key s) existingKeys s2) in *.
  set (pairsExisting := keyValuePairs existingKeyCollection false).
  set (pairsNew := keyValuePairs newCollection true).
  destruct (multiMerge_if_any pairsExisting s3) as (Hs4 & Hc4 & Hq4).
  cbv zeta in Hs4, Hc4, Hq4.
  set (s4 := match pairsExisting with [] => s3 | _ => Storage_multiMerge pairsExisting s3 end)
    in *.
  destruct (multiSet_if_any pairsNew s4) as (Hs5 & Hc5 & Hq5). cbv zeta in Hs5, Hc5, Hq5.
  set (s5 := match pairsNew with [] => s4 | _ => Storage_multiSet pairsNew s4 end) in *.
  destruct (cacheMerge_lookup (existingKeyCollection ++ newCollection) k s5 Hfinal)
    as (Hc6 & Hs6 & Hq6).
  cbn [fst snd cache storage mergeQueue emit].
  split; [done|]. split.
  { by rewrite Hq6, Hq5, Hq4, Hq3. }
  rewrite Hc6, Hs6, Hc5, Hc4, Hc3, Hs5, Hs4, Hs3. cbn [cache storage emitAll s2].
  assert (HpE : objGet k pairsExisting = objGet k existingKeyCollection).
  { subst pairsExisting. unfold keyValuePairs.
    rewrite (objGet_map_values (fun kv => kv.2)). by destruct (objGet k existingKeyCollection). }
  assert (HpN : objGet k pairsNew = removeNestedNullValues <$> objGet k newCollection).
  { subst pairsNew. unfold keyValuePairs.
    apply (objGet_map_values (fun kv => removeNestedNullValues kv.2)). }
  rewrite multiSet_lookup
    by (subst pairsNew; by rewrite keyValuePairs_keys).
  rewrite multiMerge_lookup
    by (subst pairsExisting; by rewrite keyValuePairs_keys).
  rewrite HpE, HpN, objGet_app, HE, HN, Hc1, Hs1.
  assert (Hcached : k ∈ existingKeys -> objGet k cached = cache s1 !! k).
  { intros Hin. subst cached. by rewrite getCachedCollection_get, decide_True. }
  destruct (objGet k rc) as [v|] eqn:Hv.
  - destruct (isNull v) eqn:Hnull.
    + assert (Hr : k ∈ removed) by (apply Hremoved; eauto).
      assert (Hk : k ∉ keys).
      { intros (w & Hw & Hnw)%Hkept. congruence. }
      assert (Hke : k ∉ existingKeys) by (by intros [_ ?]%list_elem_of_filter).
      rewrite (bool_decide_eq_true_2 _ Hr), (bool_decide_eq_false_2 _ Hk),
        (bool_decide_eq_false_2 _ Hke). done.
    + assert (Hr : k ∉ removed).
      { intros (w & Hw & Hnw)%Hremoved. congruence. }
      assert (Hk : k ∈ keys) by (apply Hkept; eauto).
      rewrite (bool_decide_eq_false_2 _ Hr), (bool_decide_eq_true_2 _ Hk).
      destruct (decide (k ∈ persistedKeys)) as [Hp|Hp].
      * assert (Hke : k ∈ existingKeys) by (by apply list_elem_of_filter).
        rewrite (bool_decide_eq_true_2 _ Hp), (bool_decide_eq_true_2 _ Hke).
        subst hE hN. cbv beta. rewrite Hv, (Hcached Hke), Hc1.
        rewrite (bool_decide_eq_false_2 _ Hr), (bool_decide_eq_true_2 _ Hp).
        destruct (isCompatible _); cbn [fmap option_fmap option_map]; [|done].
        split; [done|].
        destruct (applyMerge_single_not_null (storage s !! k) v Hnull) as (x & Hx & Hxn).
        rewrite Hx. cbn [storePutOpt]. rewrite nullToUndefined_storePut.
        unfold nullToUndefined. by rewrite Hxn.
      * assert (Hke : k ∉ existingKeys) by (by intros [? _]%list_elem_of_filter).
        rewrite (bool_decide_eq_false_2 _ Hp), (bool_decide_eq_false_2 _ Hke).
        subst hN. cbv beta. rewrite Hv, (bool_decide_eq_false_2 _ Hp).
        cbn [fmap option_fmap option_map]. split; [done|].
        unfold nullToUndefined. by rewrite removeNestedNullValues_not_null.
  - assert (Hr : k ∉ removed).
    { intros (w & Hw & Hnw)%Hremoved. congruence. }
    assert (Hk : k ∉ keys).
    { intros (w & Hw & Hnw)%Hkept. congruence. }
    assert (Hke : k ∉ existingKeys) by (by intros [_ ?]%list_elem_of_filter).
    rewrite (bool_decide_eq_false_2 _ Hr), (bool_decide_eq_false_2 _ Hk),
      (bool_decide_eq_false_2 _ Hke). done.
Qed.

(** X12: [mergeCollection] is local to the members it is given: a key that
    is not in the collection keeps its cached and stored value, and the merge
    queue is left as it is, so the merges queued for the members are still
    pending afterwards. *)
Theorem mergeCollection_other_keys ck (resultCollection : object) persistedKeys s k :
  NoDup (objKeys resultCollection) ->
  k ∉ objKeys resultCollection ->
  let r := mergeCollectionThen ck resultCollection persistedKeys s in
  cache r.2 !! k = cache s !! k
  /\ storage r.2 !! k = storage s !! k
  /\ mergeQueue r.2 = mergeQueue s.
Proof.
  intros Hnd Hk. cbv zeta.
  destruct (mergeCollectionThen_lookup ck resultCollection persistedKeys s k Hnd)
    as (_ & Hq & Hlook).
  cbv zeta in Hq, Hlook. rewrite (objGet_None k resultCollection Hk) in Hlook.
  by destruct Hlook.
Qed.

Lemma mergeCollection_other_keys_witness :
  let s := storeOf [("report_1", VObj [("a", VNum 1)]); ("other", VNum 7)] in
  let r := mergeCollectionThen "report_" [("report_1", VObj [("b", VNum 2)])]
             (getAllKeys s) s in
  cache r.2 !! "other" = Some (VNum 7)
  /\ storage r.2 !! "other" = Some (VNum 7)
  /\ mergeQueue r.2 = ∅.
Proof.
  apply (mergeCollection_other_keys "report_" [("report_1", VObj [("b", VNum 2)])]
           (getAllKeys (storeOf [("report_1", VObj [("a", VNum 1)]); ("other", VNum 7)]))
           (storeOf [("report_1", VObj [("a", VNum 1)]); ("other", VNum 7)]) "other").
  - apply (bool_decide_unpack _). by vm_compute.
  - apply (bool_decide_unpack _). by vm_compute.
Defined.

(** X13: a member that [mergeCollection] is given with the value [null] is
    removed: it is neither cached nor stored afterwards, whether or not it
    was persisted before. *)
Theorem mergeCollection_null_member ck (resultCollection : object) persistedKeys s key :
  NoDup (objKeys resultCollection) ->
  (key, VNull) ∈ resultCollection ->
  let r := mergeCollectionThen ck resultCollection persistedKeys s in
  cache r.2 !! key = None /\ storage r.2 !! key = None.
Proof.
  intros Hnd Hin. cbv zeta.
  destruct (mergeCollectionThen_lookup ck resultCollection persistedKeys s key Hnd)
    as (_ & _ & Hlook).
  cbv zeta in Hlook. by rewrite (objGet_NoDup key VNull resultCollection Hnd Hin) in Hlook.
Qed.

Lemma mergeCollection_null_member_witness :
  let s := storeOf [("report_1", VObj [("a", VNum 1)]); ("report_2", VNum 2)] in
  let r := mergeCollectionThen "report_"
             [("report_1", VNull); ("report_2", VNum 3)] (getAllKeys s) s in
  cache s !! "report_1" = Some (VObj [("a", VNum 1)])
  /\ cache r.2 !! "report_1" = None
  /\ storage r.2 !! "report_1" = None.
Proof.
  cbv zeta. split; [reflexivity|].
  apply (mergeCollection_null_member "report_"
           [("report_1", VNull); ("report_2", VNum 3)]).
  - apply (bool_decide_unpack _). by vm_compute.
  - left.
Defined.

(** X14: a persisted member whose new value fits the cached one is merged:
    the cached value becomes the merge of the delta into it with nested nulls
    removed, and the stored value the merge of the delta into the stored
    one. *)
Theorem mergeCollection_existing_member ck (resultCollection : object) persistedKeys s
  key v e :
  NoDup (objKeys resultCollection) ->
  (key, v) ∈ resultCollection ->
  isNull v = false ->
  key ∈ persistedKeys ->
  cache s !! key = Some e ->
  isCompatible (checkCompatibilityWithExistingValue (Some v) (Some e)) = true ->
  let r := mergeCollectionThen ck resultCollection persistedKeys s in
  cache r.2 !! key = applyMerge (Some e) [v] true
  /\ storage r.2 !! key = applyMerge (storage s !! key) [v] true.
Proof.
  intros Hnd Hin Hnull Hp He Hcompat. cbv zeta.
  destruct (mergeCollectionThen_lookup ck resultCollection persistedKeys s key Hnd)
    as (_ & _ & Hlook).
  cbv zeta in Hlook.
  rewrite (objGet_NoDup key v resultCollection Hnd Hin), Hnull in Hlook.
  rewrite (bool_decide_eq_true_2 _ Hp), He, Hcompat in Hlook. done.
Qed.

Lemma mergeCollection_existing_member_witness :
  let s := storeOf [("report_1", VObj [("a", VNum 1); ("b", VNum 2)])] in
  let r := mergeCollectionThen "report_"
             [("report_1", VObj [("a", VNull); ("c", VNum 3)])] (getAllKeys s) s in
  cache r.2 !! "report_1" = Some (VObj [("b", VNum 2); ("c", VNum 3)])
  /\ storage r.2 !! "report_1" = Some (VObj [("b", VNum 2); ("c", VNum 3)]).
Proof.
  apply (mergeCollection_existing_member "report_"
           [("report_1", VObj [("a", VNull); ("c", VNum 3)])]
           (getAllKeys (storeOf [("report_1", VObj [("a", VNum 1); ("b", VNum 2)])]))
           (storeOf [("report_1", VObj [("a", VNum 1); ("b", VNum 2)])])
           "report_1" (VObj [("a", VNull); ("c", VNum 3)])
           (VObj [("a", VNum 1); ("b", VNum 2)])).
  - apply (bool_decide_unpack _). by vm_compute.
  - left.
  - reflexivity.
  - apply (bool_decide_unpack _). by vm_compute.
  - reflexivity.
  - reflexivity.
Defined.

(** X15: a member that is not persisted yet is written without a
    compatibility check: the value, with its nested nulls removed, is what the
    cache and storage hold afterwards. *)
Theorem mergeCollection_new_member ck (resultCollection : object) persistedKeys s key v :
  NoDup (objKeys resultCollection) ->
  (key, v) ∈ resultCollection ->
  isNull v = false ->
  key ∉ persistedKeys ->
  cache s !! key = None ->
  let r := mergeCollectionThen ck resultCollection persistedKeys s in
  cache r.2 !! key = Some (removeNestedNullValues v)
  /\ storage r.2 !! key = Some (removeNestedNullValues v).
Proof.
  intros Hnd Hin Hnull Hp Hc. cbv zeta.
  destruct (mergeCollectionThen_lookup ck resultCollection persistedKeys s key Hnd)
    as (_ & _ & Hlook).
  cbv zeta in Hlook.
  rewrite (objGet_NoDup key v resultCollection Hnd Hin), Hnull in Hlook.
  rewrite (bool_decide_eq_false_2 _ Hp), Hc in Hlook.
  destruct Hlook as [-> ->]. split; [|done]. by destruct v.
Qed.

Lemma mergeCollection_new_member_witness :
  let r := mergeCollectionThen "report_"
             [("report_1", VObj [("a", VNull); ("c", VNum 3)])]
             (getAllKeys emptyStore) emptyStore in
  cache r.2 !! "report_1" = Some (VObj [("c", VNum 3)])
  /\ storage r.2 !! "report_1" = Some (VObj [("c", VNum 3)]).
Proof.
  apply (mergeCollection_new_member "report_"
           [("report_1", VObj [("a", VNull); ("c", VNum 3)])]
           (getAllKeys emptyStore) emptyStore
           "report_1" (VObj [("a", VNull); ("c", VNum 3)])).
  - apply (bool_decide_unpack _). by vm_compute.
  - left.
  - reflexivity.
  - apply (bool_decide_unpack _). by vm_compute.
  - reflexivity.
Defined.

(** ** [clear] *)






(** X17: [clear] is idempotent on the data: clearing again, with the same
    keys to preserve, right after a clear has completed leaves the cache and
    storage as the first clear left them. *)
Theorem clear_idempotent cfg keysToPreserve s :
  NoDup (objKeys (defaultKeyStates cfg)) ->
  let once := (clearThen cfg keysToPreserve (getAllKeys s) s).2 in
  let twice := (clearThen cfg keysToPreserve (getAllKeys once) once).2 in
  cache twice = cache once /\ storage twice = storage once.
Proof.
  intros Hnd. cbv zeta.
  set (once := (clearThen cfg keysToPreserve (getAllKeys s) s).2).
  assert (Hall : forall (s0 : Store) k,
             k ∈ uniqueKeys [] (getAllKeys s0 ++ objKeys (defaultKeyStates cfg))
             <-> (is_Some (cache s0 !! k) \/ is_Some (storage s0 !! k))
                 \/ is_Some (objGet k (defaultKeyStates cfg))).
  { intros s0 k. rewrite uniqueKeys_elem, elem_of_app, getAllKeys_elem.
    rewrite objGet_Some_elem_keys. split; [by intros [? _]|].
    intros H. split; [done|apply not_elem_of_nil]. }
  assert (Hgone : forall k,
             k ∉ keysToPreserve -> objGet k (defaultKeyStates cfg) = None ->
             cache once !! k = None /\ storage once !! k = None).
  { intros k Hkp Hdef.
    destruct (clearThen_lookup cfg keysToPreserve (getAllKeys s) s k Hnd) as [Hc Hs].
    cbv zeta in Hc, Hs. fold once in Hc, Hs. rewrite Hc, Hs.
    pose proof (objGet_filter_keys (fun k => k ∉ keysToPreserve) (defaultKeyStates cfg) k)
      as Hf.
    cbv beta in Hf. rewrite Hf, Hdef. clear Hf.
    assert (Hnone : (if decide (k ∉ keysToPreserve) then @None value else None) = None)
      by (by destruct (decide (k ∉ keysToPreserve))).
    rewrite Hnone.
    set (allKeys := uniqueKeys [] (getAllKeys s ++ objKeys (defaultKeyStates cfg))).
    destruct (decide (k ∈ allKeys)) as [Hin|Hnin].
    - rewrite !(bool_decide_eq_true_2 (k ∈ filter _ allKeys))
        by (by apply list_elem_of_filter).
      done.
    - assert (Hs0 : cache s !! k = None /\ storage s !! k = None).
      { split; apply eq_None_not_Some; intros H; apply Hnin, Hall; left; [by left|by right]. }
      destruct Hs0 as [-> ->].
      rewrite (bool_decide_eq_false_2 (k ∈ allKeys /\ k ∉ keysToPreserve))
        by (by intros [? _]).
      by destruct (bool_decide _). }
  split; apply map_eq; intros k.
  - destruct (clearThen_lookup cfg keysToPreserve (getAllKeys once) once k Hnd) as [Hc _].
    cbv zeta in Hc. rewrite Hc. clear Hc.
    set (allKeys2 := uniqueKeys [] (getAllKeys once ++ objKeys (defaultKeyStates cfg))).
    case_bool_decide as Hcl.
    + apply list_elem_of_filter in Hcl as [[Hkp Hdef] _].
      symmetry. by apply Hgone.
    + case_bool_decide as Hin; [|done]. destruct Hin as [Hin Hkp].
      assert (Hdef : is_Some (objGet k (defaultKeyStates cfg))).
      { destruct (objGet k (defaultKeyStates cfg)) eqn:Hd; [by eexists|].
        exfalso. apply Hcl. by apply list_elem_of_filter. }
      destruct (clearThen_lookup cfg keysToPreserve (getAllKeys s) s k Hnd) as [Hc1 _].
      cbv zeta in Hc1. fold once in Hc1. rewrite Hc1. rewrite bool_decide_eq_false_2.
      * rewrite bool_decide_eq_true_2; [done|]. split; [|done]. apply Hall. by right.
      * intros [[_ Hd] _]%list_elem_of_filter. rewrite Hd in Hdef. by destruct Hdef.
  - destruct (clearThen_lookup cfg keysToPreserve (getAllKeys once) once k Hnd) as [_ Hs].
    cbv zeta in Hs. rewrite Hs. clear Hs.
    destruct (objGet k (filter (fun kv => kv.1 ∉ keysToPreserve) (defaultKeyStates cfg)))
      as [v|] eqn:Hd.
    + destruct (clearThen_lookup cfg keysToPreserve (getAllKeys s) s k Hnd) as [_ Hs1].
      cbv zeta in Hs1. fold once in Hs1. by rewrite Hs1, Hd.
    + case_bool_decide as Hcl; [|done].
      apply list_elem_of_filter in Hcl as [[Hkp Hdef] _].
      symmetry. by apply Hgone.
Qed.

Lemma clear_idempotent_witness :
  let once := (clearThen cfgLang ["pref"] (getAllKeys storeS4) storeS4).2 in
  let twice := (clearThen cfgLang ["pref"] (getAllKeys once) once).2 in
  cache once !! "lang" = Some (VStr "en")
  /\ cache twice = cache once /\ storage twice = storage once.
Proof.
  cbv zeta. split; [reflexivity|].
  apply (clear_idempotent cfgLang ["pref"] storeS4).
  apply (bool_decide_unpack _). by vm_compute.
Defined.

(** ** [update] *)

Lemma objSet_Forall {A} (P : string * A -> Prop) k (v : A) (o : list (string * A)) :
  P (k, v) -> Forall P o -> Forall P (objSet k v o).
Proof.
  intros Hv. induction 1 as [|[k0 v0] o H0 Ho IH]; cbn.
  - by constructor.
  - destruct (String.eqb k k0) eqn:E; [|by constructor].
    apply String.eqb_eq in E as <-. by constructor.
Qed.

(** Every key of the update queue has at least one operation. *)
Lemma enqueueMergeOperation_nonempty key v (q : updateQueue) :
  Forall (fun kv => kv.2 <> []) q ->
  Forall (fun kv => kv.2 <> []) (enqueueMergeOperation key v q).
Proof.
  intros Hq. unfold enqueueMergeOperation.
  destruct (isNull v); [by apply objSet_Forall|].
  destruct (objGet key q) as [operations|]; apply objSet_Forall; try done.
  cbn. by destruct operations.
Qed.

Lemma handleUpdate_nonempty cfg st u :
  Forall (fun kv => kv.2 <> []) (queue st) ->
  Forall (fun kv => kv.2 <> []) (queue (handleUpdate cfg st u)).
Proof.
  intros Hq. destruct u as [key v|key v|key collection|key collection|data|]; cbn;
    try done.
  - by apply objSet_Forall.
  - by apply enqueueMergeOperation_nonempty.
  - destruct (negb _); [done|].
    destruct (doAllCollectionItemsBelongToSameParent cfg _ _) as [[[] alerts]|];
      [|done|done]. cbn.
    revert Hq. generalize (queue st). induction (members collection) as [|kv l IH];
      intros q0 Hq; cbn [fold_left]; [done|].
    by apply IH, enqueueMergeOperation_nonempty.
  - revert Hq. generalize (queue st). induction (members data) as [|kv l IH];
      intros q0 Hq; cbn [fold_left]; [done|].
    apply IH. by apply objSet_Forall.
Qed.

Lemma update_queue_nonempty cfg data : forall st,
  Forall (fun kv => kv.2 <> []) (queue st) ->
  Forall (fun kv => kv.2 <> []) (queue (fold_left (handleUpdate cfg) data st)).
Proof.
  induction data as [|u data IH]; intros st Hq; cbn [fold_left]; [done|].
  by apply IH, handleUpdate_nonempty.
Qed.

(** The keys of a collection go to one of the two batched calls. *)
Lemma batched_keys (q : updateQueue) (items : list string) :
  NoDup items ->
  (forall k, k ∈ items -> exists operations, objGet k q = Some operations /\ operations <> []) ->
  NoDup (objKeys (membersToMerge q items) ++ objKeys (membersToSet q items))
  /\ forall k, k ∈ objKeys (membersToMerge q items) ++ objKeys (membersToSet q items)
               <-> k ∈ items.
Proof.
  induction items as [|k0 items IH]; intros Hnd Hq.
  - split; [constructor|done].
  - apply NoDup_cons in Hnd as [Hk0 Hnd].
    destruct IH as [IHnd IHin]; [done|intros; apply Hq; by right|].
    destruct (Hq k0) as (operations & Hops & Hne); [left|].
    destruct (applyMerge_nonempty operations None false Hne) as [v Hv].
    assert (Hfresh : k0 ∉ objKeys (membersToMerge q items) ++ objKeys (membersToSet q items))
      by (by rewrite IHin).
    unfold membersToMerge, membersToSet in *. cbn [omap list_omap]. rewrite Hops.
    destruct operations as [|op operations]; [done|].
    destruct op; cbv beta iota; rewrite Hv; cbn [fmap option_fmap option_map];
      change (objKeys ((k0, v) :: ?l)) with (k0 :: objKeys l);
      (split;
       [first [rewrite <- Permutation_middle; by apply NoDup_cons
              |cbn [app]; by apply NoDup_cons]
       |intros k; rewrite elem_of_app, !elem_of_cons, <- IHin, elem_of_app; tauto]).
Qed.

Lemma collapseCollection_keys (q : updateQueue) (ps : list call) collectionKey :
  NoDup (objKeys q) ->
  Forall (fun kv => kv.2 <> []) q ->
  let r := collapseCollection (q, ps) collectionKey in
  exists calls,
    r.2 = ps ++ calls
    /\ Forall (fun kv => kv.2 <> []) r.1
    /\ NoDup (flat_map callKeys calls ++ objKeys r.1)
    /\ forall k, k ∈ flat_map callKeys calls ++ objKeys r.1 <-> k ∈ objKeys q.
Proof.
  intros Hnd Hne. cbv zeta. unfold collapseCollection.
  set (items := filter (fun key => isKeyMatch collectionKey key = true) (objKeys q)).
  destruct (Nat.leb (length items) 1).
  { exists []. cbn. by rewrite app_nil_r. }
  assert (Hitems : NoDup items) by (by apply NoDup_filter).
  rewrite batchCollectionKeys_spec;
    [|done|intros k _; cbn; split; apply not_elem_of_nil].
  cbn [mergePart setPart app fst snd].
  destruct (batched_keys q items Hitems) as [Hbnd Hbin].
  { intros k [_ Hk]%list_elem_of_filter.
    apply objGet_Some_elem_keys in Hk as [operations Hops]. exists operations.
    split; [done|]. apply objGet_elem in Hops.
    by apply (proj1 (Forall_forall _ _) Hne (k, operations)). }
  set (M := membersToMerge q items) in *. set (S := membersToSet q items) in *.
  rewrite objDeletes_filter.
  pose proof (objKeys_filter_fst (fun k => k ∉ items) q) as Hrest. cbv beta in Hrest.
  rewrite Hrest. clear Hrest.
  exists (match M with [] => [] | m => [CallMergeCollection collectionKey (VObj m)] end
          ++ match S with [] => [] | m => [CallMultiSet m] end).
  assert (Hkeys : flat_map callKeys
                    (match M with [] => [] | m => [CallMergeCollection collectionKey (VObj m)] end
                     ++ match S with [] => [] | m => [CallMultiSet m] end)
                  = objKeys M ++ objKeys S).
  { destruct M, S; cbn; by rewrite ?app_nil_r. }
  rewrite Hkeys.
  split; [|split; [|split]].
  - destruct M, S; cbn; by rewrite ?app_nil_r, <- ?app_assoc.
  - apply Forall_forall. intros kv [_ Hkv]%list_elem_of_filter.
    by apply (proj1 (Forall_forall _ _) Hne).
  - apply NoDup_app. split; [done|]. split; [|by apply NoDup_filter].
    intros k Hk%Hbin [Hn _]%list_elem_of_filter. done.
  - intros k. rewrite elem_of_app, Hbin, list_elem_of_filter. split.
    + intros [[_ ?]%list_elem_of_filter|[_ ?]]; done.
    + intros Hk. destruct (decide (k ∈ items)); [by left|by right].
Qed.

Lemma collapseCollections_keys (collectionKeys : list string) :
  forall (q : updateQueue) (ps : list call),
  NoDup (objKeys q) ->
  Forall (fun kv => kv.2 <> []) q ->
  let r := fold_left collapseCollection collectionKeys (q, ps) in
  exists calls,
    r.2 = ps ++ calls
    /\ NoDup (flat_map callKeys calls ++ objKeys r.1)
    /\ forall k, k ∈ flat_map callKeys calls ++ objKeys r.1 <-> k ∈ objKeys q.
Proof.
  induction collectionKeys as [|ck cks IH]; intros q ps Hnd Hne; cbn [fold_left].
  - exists []. cbn. by rewrite app_nil_r.
  - destruct (collapseCollection_keys q ps ck Hnd Hne) as (calls1 & Hps & Hne1 & Hnd1 & Hin1).
    cbv zeta in Hps, Hne1, Hnd1, Hin1.
    destruct (collapseCollection (q, ps) ck) as [q1 ps1]. cbn [fst snd] in *. subst ps1.
    destruct (IH q1 (ps ++ calls1)) as (calls2 & Hps2 & Hnd2 & Hin2);
      [by apply NoDup_app in Hnd1 as (_ & _ & ?)|done|].
    cbv zeta in *.
    exists (calls1 ++ calls2). rewrite Hps2, flat_map_app, <- !app_assoc.
    split; [done|]. split.
    + apply NoDup_app in Hnd1 as (Hc1 & Hdisj & _).
      apply NoDup_app. split; [done|]. split; [|done].
      intros k Hk Hk2%Hin2. by apply (Hdisj k).
    + intros k. rewrite elem_of_app, Hin2, <- Hin1, elem_of_app. done.
Qed.

(** X18: every key that the entries of an [update] queue (by a [set], a
    [merge], a member of a [mergeCollection] or of a [multiSet]) is carried
    by exactly one of the calls that [update] derives from its queue, whether
    the key is folded into a [mergeCollection] or a [multiSet] of its
    collection or has a [set] or a [merge] of its own; these calls carry no
    other key.  The calls come after the snapshot updates and the
    [setCollection] calls, which are passed on as they are. *)
Theorem update_one_call_per_key cfg updateSnapshots data s plan s' :
  update cfg updateSnapshots data s = Some (plan, s') ->
  let st :=
    fold_left (handleUpdate cfg) data
      {| queue := []; promises := []; clears := 0; logged := [] |} in
  exists calls,
    finalPromises plan = updateSnapshots data ++ promises st ++ calls
    /\ NoDup (flat_map callKeys calls)
    /\ forall k, k ∈ flat_map callKeys calls <-> k ∈ objKeys (queue st).
Proof.
  unfold update. destruct (negb (forallb validUpdate data)); [done|].
  destruct (existsb (handlerThrows cfg) data); [done|]. cbv zeta.
  set (st := fold_left (handleUpdate cfg) data _).
  assert (Hnd : NoDup (objKeys (queue st))).
  { apply update_queue_NoDup. constructor. }
  assert (Hne : Forall (fun kv => kv.2 <> []) (queue st)).
  { apply update_queue_nonempty. constructor. }
  destruct (collapseCollections_keys (collectionKeys cfg) (queue st) (promises st) Hnd Hne)
    as (calls & Hps & Hnd' & Hin).
  cbv zeta in Hps, Hnd', Hin.
  destruct (fold_left collapseCollection (collectionKeys cfg) (queue st, promises st))
    as [q ps].
  cbn [fst snd] in *. subst ps. intros [= <- _]. cbn [finalPromises].
  assert (Hind : flat_map callKeys (map individualCall q) = objKeys q).
  { clear. induction q as [|[k ops] q IH]; [done|].
    cbn [map flat_map]. rewrite IH. unfold individualCall. cbn [fst snd].
    by destruct ops as [|[] ops]. }
  exists (calls ++ map individualCall q).
  rewrite flat_map_app, Hind, <- app_assoc. done.
Qed.

Lemma update_one_call_per_key_witness :
  exists plan calls,
    update cfgReports noSnapshots updateS5 emptyStore = Some (plan, emptyStore)
    /\ finalPromises plan = calls
    /\ NoDup (flat_map callKeys calls)
    /\ forall k, k ∈ flat_map callKeys calls <-> k ∈ ["r_1"; "r_2"].
Proof.
  destruct (update_one_call_per_key cfgReports noSnapshots updateS5 emptyStore
              {| planClears := 0;
                 finalPromises :=
                   [CallMergeCollection "r_" (VObj [("r_2", VObj [("a", VNum 2)])]);
                    CallMultiSet [("r_1", VObj [("a", VNum 9)])]] |}
              emptyStore)
    as (calls & Hcalls & Hnd & Hin); [by vm_compute|].
  eexists _, calls. split; [by vm_compute|]. split; [exact Hcalls|]. split; [exact Hnd|].
  exact Hin.
Defined.

(** The queue, the calls and the log that the entries build do not depend on
    the clears met so far, which are only counted. *)
Lemma handleUpdate_clears cfg st st' u :
  queue st = queue st' -> promises st = promises st' -> logged st = logged st' ->
  queue (handleUpdate cfg st u) = queue (handleUpdate cfg st' u)
  /\ promises (handleUpdate cfg st u) = promises (handleUpdate cfg st' u)
  /\ logged (handleUpdate cfg st u) = logged (handleUpdate cfg st' u)
  /\ (clears st' = S (clears st) ->
      clears (handleUpdate cfg st' u) = S (clears (handleUpdate cfg st u))).
Proof.
  intros Hq Hp Hl.
  destruct u as [key v|key v|key collection|key collection|data|]; cbn;
    rewrite ?Hq, ?Hp, ?Hl; try done.
  - destruct (negb _); cbn; rewrite ?Hq, ?Hp, ?Hl; [done|].
    destruct (doAllCollectionItemsBelongToSameParent cfg _ _) as [[[] alerts]|]; cbn;
      by rewrite ?Hq, ?Hp, ?Hl.
  - repeat split. by intros ->.
Qed.

Lemma handleUpdates_clears cfg data : forall st st',
  queue st = queue st' -> promises st = promises st' -> logged st = logged st' ->
  clears st' = S (clears st) ->
  queue (fold_left (handleUpdate cfg) data st) = queue (fold_left (handleUpdate cfg) data st')
  /\ promises (fold_left (handleUpdate cfg) data st) = promises (fold_left (handleUpdate cfg) data st')
  /\ logged (fold_left (handleUpdate cfg) data st) = logged (fold_left (handleUpdate cfg) data st')
  /\ clears (fold_left (handleUpdate cfg) data st') = S (clears (fold_left (handleUpdate cfg) data st)).
Proof.
  induction data as [|u data IH]; intros st st' Hq Hp Hl Hc; cbn [fold_left]; [done|].
  destruct (handleUpdate_clears cfg st st' u Hq Hp Hl) as (Hq' & Hp' & Hl' & Hc').
  apply IH; auto.
Qed.

(** X19: a [clear] entry of an [update] takes effect before every other
    entry, wherever it stands in the list: moving it to the front changes
    neither the number of clears to run first, nor the calls derived from the
    other entries, nor what is logged. *)
Theorem update_clear_position cfg updateSnapshots data1 data2 s :
  let data := data1 ++ UpdateClear :: data2 in
  let moved := UpdateClear :: data1 ++ data2 in
  match update cfg updateSnapshots data s, update cfg updateSnapshots moved s with
  | Some (plan, s1), Some (plan', s2) =>
      planClears plan = planClears plan'
      /\ s1 = s2
      /\ exists calls,
           finalPromises plan = updateSnapshots data ++ calls
           /\ finalPromises plan' = updateSnapshots moved ++ calls
  | None, None => True
  | _, _ => False
  end.
Proof.
  cbv zeta. unfold update.
  assert (Hvalid : forallb validUpdate (data1 ++ UpdateClear :: data2)
                   = forallb validUpdate (UpdateClear :: data1 ++ data2)).
  { cbn [forallb validUpdate andb]. rewrite !forallb_app. done. }
  rewrite Hvalid. destruct (negb (forallb validUpdate (UpdateClear :: data1 ++ data2))); [done|].
  assert (Hthrows : existsb (handlerThrows cfg) (data1 ++ UpdateClear :: data2)
                    = existsb (handlerThrows cfg) (UpdateClear :: data1 ++ data2)).
  { cbn [existsb handlerThrows orb]. rewrite !existsb_app. done. }
  rewrite Hthrows.
  destruct (existsb (handlerThrows cfg) (UpdateClear :: data1 ++ data2)); [done|].
  cbv zeta.
  set (st0 := {| queue := []; promises := []; clears := 0; logged := [] |}).
  assert (Hst : let st := fold_left (handleUpdate cfg) (data1 ++ UpdateClear :: data2) st0 in
                let st' := fold_left (handleUpdate cfg) (UpdateClear :: data1 ++ data2) st0 in
                queue st = queue st' /\ promises st = promises st'
                /\ logged st = logged st' /\ clears st = clears st').
  { cbv zeta. cbn [fold_left]. rewrite !fold_left_app. cbn [fold_left].
    set (st1 := fold_left (handleUpdate cfg) data1 st0).
    set (st1' := fold_left (handleUpdate cfg) data1 (handleUpdate cfg st0 UpdateClear)).
    destruct (handleUpdates_clears cfg data1 st0 (handleUpdate cfg st0 UpdateClear))
      as (Hq & Hp & Hl & Hc); try done.
    fold st1 st1' in Hq, Hp, Hl, Hc.
    assert (Heq : handleUpdate cfg st1 UpdateClear = st1').
    { destruct st1'. cbn in *. unfold handleUpdate. by rewrite Hq, Hp, Hl, Hc. }
    by rewrite Heq. }
  cbv zeta in Hst. destruct Hst as (Hq & Hp & Hl & Hc).
  rewrite Hq, Hp, Hl, Hc.
  destruct (fold_left collapseCollection (collectionKeys cfg) _) as [q ps].
  split; [done|]. split; [done|]. by eexists.
Qed.







(** * C8: skippable collection members *)

Lemma skipMembers_objSet_null cfg ck key (data : object) :
  key ∈ objKeys data ->
  isSkippable cfg key ck = true ->
  skipMembers cfg ck (objSet key VNull data) = skipMembers cfg ck data.
Proof.
  intros Hin Hskip. unfold skipMembers.
  destruct (skippableCollectionMemberIDs cfg) eqn:Hids.
  { by rewrite isSkippable_no_ids in Hskip. }
  generalize (@nil (string * value)).
  induction data as [|[k v] data IH]; intros acc; [by apply not_elem_of_nil in Hin|].
  change (objKeys ((k, v) :: data)) with (k :: objKeys data) in Hin.
  cbn [objSet]. destruct (String.eqb key k) eqn:E.
  - apply String.eqb_eq in E as <-. cbn [fold_left fst snd]. by rewrite Hskip.
  - apply String.eqb_neq in E. cbn [fold_left fst snd]. apply IH.
    by apply elem_of_cons in Hin as [?|?].
Qed.

Lemma objKeys_objSet_elem {A} key (v : A) (o : list (string * A)) :
  key ∈ objKeys o -> objKeys (objSet key v o) = objKeys o.
Proof.
  induction o as [|[k w] o IH]; intros Hin; [by apply not_elem_of_nil in Hin|].
  change (objKeys ((k, w) :: o)) with (k :: objKeys o) in Hin.
  cbn [objSet]. destruct (String.eqb key k) eqn:E.
  - by apply String.eqb_eq in E as <-.
  - apply String.eqb_neq in E.
    change (objKeys ((k, w) :: ?l)) with (k :: objKeys l). f_equal. apply IH.
    by apply elem_of_cons in Hin as [?|?].
Qed.

(** Where a skippable member of the input stands after the reducer: at its
    key, with the value [null]. *)
Lemma skipMembers_skippable cfg ck key (data : object) :
  NoDup (objKeys data) ->
  key ∈ objKeys data ->
  isSkippable cfg key ck = true ->
  NoDup (objKeys (skipMembers cfg ck data))
  /\ objGet key (skipMembers cfg ck data) = Some VNull.
Proof.
  intros Hnd Hin Hskip. rewrite (skipMembers_map cfg ck data Hnd).
  rewrite (objKeys_map_values (fun kv => if isSkippable cfg kv.1 ck then VNull else kv.2)).
  split; [done|].
  rewrite (objGet_map_values (fun kv => if isSkippable cfg kv.1 ck then VNull else kv.2)).
  apply objGet_Some_elem_keys in Hin as [v ->]. cbn. by rewrite Hskip.
Qed.

(** C8, as stated, fails for [merge]: on a skippable member the changes are
    turned into [undefined], not [null].  The merge queues nothing and leaves
    the cached value in place, whereas a merge of [null] queues a delta whose
    fold removes the key. *)
Lemma merge_skippable_not_null :
  let s := storeOf [("r_42", VObj [("b", VNum 1)])] in
  merge cfgSkip42 "r_42" (Some (VObj [("a", VNum 1)])) s = (Resolved, s)
  /\ cache s !! "r_42" = Some (VObj [("b", VNum 1)])
  /\ let r := merge cfgReports "r_42" (Some VNull) s in
     r.1 = Awaits (PendingFold "r_42" (Some (VObj [("b", VNum 1)])))
     /\ mergeQueue r.2 !! "r_42" = Some [VNull]
     /\ cache (mergeFold "r_42" (Some (VObj [("b", VNum 1)])) r.2).2 !! "r_42" = None.
Proof. vm_compute. done. Qed.

(** C8 (amended): on a collection member whose id is skippable, every write
    operation but [merge] turns the value into [null], whatever the input.
    [set(K, v)] is [set(K, null)]: afterwards the key is absent from the
    cache, and from storage too when it was cached.  [multiSet],
    [mergeCollection] and [setCollection] given such a member do what they
    do when given it with the value [null]: the member reaches the deferred
    part with the value [null], and once the call has run the key is absent
    from the cache and from storage.  [merge] turns the changes into
    [undefined] instead: [merge(K, v)] is [merge(K, undefined)], it queues
    nothing and leaves the store as it is. *)
Theorem skippable_member_writes cfg key s :
  (isSkippable cfg key None = true ->
   (forall v,
      set cfg key v s = set cfg key (Some VNull) s
      /\ cache (set cfg key v s).2 !! key = None
      /\ (is_Some (cache s !! key) -> storage (set cfg key v s).2 !! key = None)
      /\ merge cfg key v s = merge cfg key None s
      /\ (merge cfg key v s).2 = s)
   /\ (forall data : object,
         NoDup (objKeys data) ->
         key ∈ objKeys data ->
         multiSet cfg data s = multiSet cfg (objSet key VNull data) s
         /\ cache (multiSet cfg data s).2 !! key = None
         /\ storage (multiSet cfg data s).2 !! key = None))
  /\ (forall ck (data : object),
        isSkippable cfg key (Some ck) = true ->
        NoDup (objKeys data) ->
        key ∈ objKeys data ->
        mergeCollection cfg ck (VObj data) s
        = mergeCollection cfg ck (VObj (objSet key VNull data)) s
        /\ setCollection cfg ck data s = setCollection cfg ck (objSet key VNull data) s
        /\ forall rc persistedKeys s',
             (mergeCollection cfg ck (VObj data) s).1 = Awaits (PendingMergeCollection ck rc)
             \/ (setCollection cfg ck data s).1 = Awaits (PendingSetCollection ck rc) ->
             objGet key rc = Some VNull
             /\ (let r := mergeCollectionThen ck rc persistedKeys s' in
                 cache r.2 !! key = None /\ storage r.2 !! key = None)
             /\ (let r := setCollectionThen ck rc persistedKeys s' in
                 cache r.2 !! key = None /\ storage r.2 !! key = None)).
Proof.
  split.
  - intros Hskip. split.
    + intros v.
      assert (Hset : set cfg key v s = set cfg key (Some VNull) s).
      { unfold set. by rewrite Hskip. }
      rewrite Hset. destruct (set_null_removes cfg key s) as [Hc Hs].
      split; [done|]. split; [done|]. split; [done|].
      unfold merge. rewrite Hskip. split; [done|]. by destruct (mergeQueue s !! key).
    + intros data Hnd Hin. split.
      { unfold multiSet. by rewrite skipMembers_objSet_null. }
      destruct (multiSet_at cfg data s Hnd) as (_ & Hlook & _). cbv zeta in Hlook.
      destruct (Hlook key) as (-> & -> & _).
      apply objGet_Some_elem_keys in Hin as [v ->]. cbn [fst]. by rewrite Hskip.
  - intros ck data Hskip Hnd Hin.
    destruct (skipMembers_skippable cfg (Some ck) key data Hnd Hin Hskip) as [Hrnd Hget].
    assert (Hne : exists kv rest, data = kv :: rest).
    { destruct data as [|kv rest]; [by apply not_elem_of_nil in Hin|eauto]. }
    split; [|split].
    + unfold mergeCollection. cbn [members].
      rewrite (objKeys_objSet_elem key VNull data Hin).
      rewrite (skipMembers_objSet_null cfg (Some ck) key data Hin Hskip).
      destruct Hne as ([k0 v0] & rest & ->). cbn [objSet].
      by destruct (String.eqb key k0).
    + unfold setCollection.
      rewrite (objKeys_objSet_elem key VNull data Hin).
      by rewrite (skipMembers_objSet_null cfg (Some ck) key data Hin Hskip).
    + intros rc persistedKeys s' Hsync.
      assert (Hrc : rc = skipMembers cfg (Some ck) data).
      { destruct Hsync as [Hsync|Hsync].
        - unfold mergeCollection in Hsync. cbn [members] in Hsync.
          destruct (negb _); [done|].
          destruct (doAllCollectionItemsBelongToSameParent cfg ck _) as [[[] alerts]|];
            try done.
          cbn in Hsync. by injection Hsync as <-.
        - unfold setCollection in Hsync.
          destruct (doAllCollectionItemsBelongToSameParent cfg ck _) as [[[] alerts]|];
            try done.
          cbn in Hsync. by injection Hsync as <-. }
      subst rc. split; [done|]. cbv zeta. split.
      * destruct (mergeCollectionThen_lookup ck _ persistedKeys s' key Hrnd)
          as (_ & _ & Hlook).
        cbv zeta in Hlook. by rewrite Hget in Hlook.
      * destruct (setCollectionThen_at ck _ persistedKeys s' Hrnd) as (_ & Hlook & _).
        cbv zeta in Hlook. destruct (Hlook key) as [-> ->].
        rewrite bool_decide_eq_false_2, Hget; [done|].
        intros (_ & _ & Hn). apply Hn. apply objGet_Some_elem_keys. by rewrite Hget.
Qed.

Lemma skippable_member_writes_witness :
  let s := storeOf [("r_42", VObj [("b", VNum 1)])] in
  let v := VObj [("a", VNum 1)] in
  let data := [("r_1", VNum 1); ("r_42", v)] in
  set cfgSkip42 "r_42" (Some v) s = set cfgSkip42 "r_42" (Some VNull) s
  /\ cache (set cfgSkip42 "r_42" (Some v) s).2 !! "r_42" = None
  /\ (merge cfgSkip42 "r_42" (Some v) s).2 = s
  /\ cache (multiSet cfgSkip42 data s).2 !! "r_42" = None
  /\ storage (multiSet cfgSkip42 data s).2 !! "r_42" = None
  /\ mergeCollection cfgSkip42 "r_" (VObj data) s
     = mergeCollection cfgSkip42 "r_" (VObj [("r_1", VNum 1); ("r_42", VNull)]) s
  /\ setCollection cfgSkip42 "r_" data s
     = setCollection cfgSkip42 "r_" [("r_1", VNum 1); ("r_42", VNull)] s.
Proof.
  cbv zeta.
  destruct (skippable_member_writes cfgSkip42 "r_42"
              (storeOf [("r_42", VObj [("b", VNum 1)])])) as [Hnone Hsome].
  destruct Hnone as [Hset Hmulti]; [reflexivity|].
  destruct (Hset (Some (VObj [("a", VNum 1)]))) as (Hs1 & Hs2 & _ & _ & Hm).
  destruct (Hmulti [("r_1", VNum 1); ("r_42", VObj [("a", VNum 1)])])
    as (_ & Hc & Hst).
  { apply (bool_decide_unpack _). by vm_compute. }
  { apply (bool_decide_unpack _). by vm_compute. }
  destruct (Hsome "r_" [("r_1", VNum 1); ("r_42", VObj [("a", VNum 1)])])
    as (Hmc & Hsc & _).
  { reflexivity. }
  { apply (bool_decide_unpack _). by vm_compute. }
  { apply (bool_decide_unpack _). by vm_compute. }
  split; [exact Hs1|]. split; [exact Hs2|]. split; [exact Hm|].
  split; [exact Hc|]. split; [exact Hst|]. split; [exact Hmc|exact Hsc].
Defined.
